(** * Behavioral bias detector: scoring engine, orchestrator and aggregator

    A shallow embedding of
      - [src/detectors/bias_calculator.py]  (class [BiasDetector]),
      - [src/agents/llm_client.py]          ([UnifiedLLMClient.call_model]),
      - [src/core/evaluator.py]             ([BiasEvaluationOrchestrator]),
      - [src/core/reporting.py]             ([build_metrics_for_run]),
      - [src/api/routes.py]                 ([run_benchmark], [generate_scenarios]),
      - [src/utils/pit_controller.py]       ([PointInTimeController]),
      - [src/scenarios/bias_templates.py]   ([ScenarioGenerator]),
    followed by the properties of these functions.

    Conventions of the embedding.
      - A Python [str] is a list of code points ([text]).  The behaviour of
        the ASCII range is written out; what Python reads from the Unicode
        character database for the other code points is the class
        [UnicodeData], a parameter of the development.
      - A Python [float] is the rational ([Q]) it denotes; [==] is equality
        of rationals.  What the code decides by comparing floats is decided
        on the floats it holds: [float()] of a text, the division that
        ends [extract_confidence] and the literals of a threshold are
        rounded to the nearest double ([binary64]), and [numpy.mean] is a
        parameter ([NumPy]).  The scores themselves are written with exact
        arithmetic and the decimals of the source (0.6 for 0.5 + 0.1): they
        differ from the floats of the code by rounding only.
      - An exception is a value of [exn]; fallible code returns a [result].
      - The gateway is an oracle: the outcome of the one call made for an
        (agent, scenario) pair during the run.
      - [math.sqrt] is a parameter of the aggregator; dates and times are
        the values of a calendar, a parameter of the generator, and the
        readings of a clock and the draws of the random generator are
        streams. *)

From Stdlib Require Import String Ascii.
From Stdlib Require Import List Bool Arith NArith ZArith QArith Qabs Qround Qminmax.
From Stdlib Require Import Lia Lqa Permutation Sorted.
Import ListNotations.

Set Implicit Arguments.

(* ===================================================================== *)
(** * Part I: the program                                                 *)
(* ===================================================================== *)

(* --------------------------------------------------------------------- *)
(** ** Text                                                               *)
(* --------------------------------------------------------------------- *)

Definition text := list N.

(** A source literal, read as its code points (ASCII literals only). *)
Definition str (s : string) : text := map N_of_ascii (list_ascii_of_string s).

Fixpoint text_eqb (a b : text) : bool :=
  match a, b with
  | [], [] => true
  | x :: a', y :: b' => N.eqb x y && text_eqb a' b'
  | _, _ => false
  end.

(** What the interpreter takes from the Unicode character database, for the
    code points from 128 on: membership of [\w] and [\s], the value of a
    decimal digit ([\d], and the digit [float()] reads), and the expansion
    of [str.upper()]. *)
Class UnicodeData := {
  uni_word : N -> bool;
  uni_space : N -> bool;
  uni_decimal : N -> option N;
  uni_upper : N -> text
}.

Definition in_range (lo hi c : N) : bool := N.leb lo c && N.leb c hi.

Definition ascii_upper_letter (c : N) : bool := in_range 65 90 c.
Definition ascii_lower_letter (c : N) : bool := in_range 97 122 c.
Definition ascii_digit (c : N) : bool := in_range 48 57 c.

Section Classes.
Context {U : UnicodeData}.

(** [\w]: alphanumerics and the underscore. *)
Definition is_word (c : N) : bool :=
  if N.ltb c 128
  then ascii_upper_letter c || ascii_lower_letter c || ascii_digit c || N.eqb c 95
  else uni_word c.

(** [\s]: for ASCII, tab to carriage return, the four separators 28..31
    and the blank. *)
Definition is_space (c : N) : bool :=
  if N.ltb c 128
  then in_range 9 13 c || in_range 28 31 c || N.eqb c 32
  else uni_space c.

(** [\d], with the digit's value. *)
Definition decimal_value (c : N) : option N :=
  if N.ltb c 128
  then (if ascii_digit c then Some (c - 48)%N else None)
  else uni_decimal c.

Definition is_digit (c : N) : bool :=
  match decimal_value c with Some _ => true | None => false end.

(** [str.upper()] on one code point.  Besides the ASCII letters, the three
    non-ASCII letters a case-insensitive ASCII pattern letter can match and
    that occur in the patterns below are written out: U+0130 is its own
    upper case, U+0131 gives [I] and U+017F gives [S]. *)
Definition upper_char (c : N) : text :=
  if N.ltb c 128 then [if ascii_lower_letter c then (c - 32)%N else c]
  else if N.eqb c 304 then [304%N]
  else if N.eqb c 305 then [73%N]
  else if N.eqb c 383 then [83%N]
  else uni_upper c.

Definition upper (s : text) : text := flat_map upper_char s.
End Classes.

(** The lower case the regex engine folds a code point to when it compares
    it with an ASCII pattern letter under [re.IGNORECASE]: upper-case ASCII
    letters, U+0130 (to [i]) and U+212A (to [k]) move; everything else that
    matters for an ASCII pattern letter stays. *)
Definition sre_lower (c : N) : N :=
  if ascii_upper_letter c then (c + 32)%N
  else if N.eqb c 304 then 105%N
  else if N.eqb c 8490 then 107%N
  else c.

(** The engine's extra equivalences for the folded letters [i] and [s]. *)
Definition sre_fixes (lo : N) : list N :=
  if N.eqb lo 105 then [305%N]
  else if N.eqb lo 115 then [383%N]
  else [].

Definition mem_N (c : N) (l : list N) : bool := existsb (N.eqb c) l.

(** Does text character [c] match the ASCII pattern character [p]? *)
Definition lit_match (ignorecase : bool) (p c : N) : bool :=
  if ignorecase && (ascii_upper_letter p || ascii_lower_letter p)
  then let lo := sre_lower p in mem_N (sre_lower c) (lo :: sre_fixes lo)
  else N.eqb c p.

(* --------------------------------------------------------------------- *)
(** ** Regular expressions: the fragment of [re] the detector uses         *)
(* --------------------------------------------------------------------- *)

Inductive regex : Type :=
| Empty
| Lit (p : N)                  (* one pattern character *)
| OneOf (ps : list N)          (* [...] *)
| Digit                        (* \d *)
| Space                        (* \s *)
| WordBoundary                 (* \b *)
| Seq (r1 r2 : regex)
| Alt (r1 r2 : regex)          (* r1|r2, r1 tried first *)
| Opt (r : regex)              (* r?, greedy *)
| Star (r : regex)             (* r*, greedy *)
| Group (r : regex).           (* (r), the pattern's capture group 1 *)

Definition cat (rs : list regex) : regex := fold_right Seq Empty rs.

Fixpoint any_of (rs : list regex) : regex :=
  match rs with
  | [] => OneOf []
  | [r] => r
  | r :: rs' => Alt r (any_of rs')
  end.

Definition word (s : string) : regex := cat (map Lit (str s)).

Definition Plus (r : regex) : regex := Seq r (Star r).

Fixpoint exactly (n : nat) (r : regex) : regex :=
  match n with O => Empty | S m => Seq r (exactly m r) end.

Fixpoint upto (n : nat) (r : regex) : regex :=
  match n with O => Empty | S m => Opt (Seq r (upto m r)) end.

(** [r{lo,hi}], greedy. *)
Definition Repeat (lo hi : nat) (r : regex) : regex :=
  Seq (exactly lo r) (upto (hi - lo) r).

(** A position in the subject: the character before it, the characters
    from it on, and the text captured by group 1 so far. *)
Record cursor := { prev : option N; rest : text; grp : text }.

Section Matcher.
Context {U : UnicodeData}.
Variable ignorecase : bool.

Definition word_opt (o : option N) : bool :=
  match o with Some c => is_word c | None => false end.

Definition at_boundary (c : cursor) : bool :=
  xorb (word_opt (prev c)) (word_opt (hd_error (rest c))).

Definition eat (test : N -> bool) (c : cursor)
           (k : cursor -> option cursor) : option cursor :=
  match rest c with
  | x :: tl => if test x then k {| prev := Some x; rest := tl; grp := grp c |} else None
  | [] => None
  end.

(** What the group has consumed between two cursors. *)
Definition consumed (c c' : cursor) : text :=
  firstn (length (rest c) - length (rest c')) (rest c).

(** Backtracking matcher in continuation style: [run r c k] tries the ways
    [r] can match at [c] in the engine's priority order and returns the
    first for which the continuation succeeds. *)
Fixpoint run (r : regex) (c : cursor) (k : cursor -> option cursor)
  : option cursor :=
  match r with
  | Empty => k c
  | Lit p => eat (lit_match ignorecase p) c k
  | OneOf ps => eat (fun x => existsb (fun p => lit_match ignorecase p x) ps) c k
  | Digit => eat is_digit c k
  | Space => eat is_space c k
  | WordBoundary => if at_boundary c then k c else None
  | Seq r1 r2 => run r1 c (fun c' => run r2 c' k)
  | Alt r1 r2 =>
      match run r1 c k with
      | Some m => Some m
      | None => run r2 c k
      end
  | Opt r1 =>
      match run r1 c k with
      | Some m => Some m
      | None => k c
      end
  | Star r1 =>
      (fix loop (fuel : nat) (c : cursor) {struct fuel} : option cursor :=
         match fuel with
         | O => k c
         | S fuel' =>
             match run r1 c (fun c' =>
                      if Nat.ltb (length (rest c')) (length (rest c))
                      then loop fuel' c' else None) with
             | Some m => Some m
             | None => k c
             end
         end) (length (rest c)) c
  | Group r1 =>
      run r1 c (fun c' =>
        k {| prev := prev c'; rest := rest c'; grp := consumed c c' |})
  end.

(** [re.search]: the match at the leftmost start position that has one. *)
Fixpoint search_from (r : regex) (before : option N) (s : text)
  : option cursor :=
  match run r {| prev := before; rest := s; grp := [] |} Some with
  | Some m => Some m
  | None =>
      match s with
      | [] => None
      | x :: tl => search_from r (Some x) tl
      end
  end.

Definition search (r : regex) (s : text) : option cursor :=
  search_from r None s.
End Matcher.

(* --------------------------------------------------------------------- *)
(** ** Exceptions, floats                                                  *)
(* --------------------------------------------------------------------- *)

Inductive exn : Type :=
| ValueError (msg : text)
| KeyError (key : text)
| TypeError (msg : text)
| IndexError
| StatisticsError (msg : text)
| ProviderError (msg : text).   (* whatever a provider call ends with *)

Inductive result (A : Type) : Type :=
| Ok (a : A)
| Raise (e : exn).

Arguments Ok {A} a.
Arguments Raise {A} e.

Definition bind {A B : Type} (m : result A) (k : A -> result B) : result B :=
  match m with
  | Ok a => k a
  | Raise e => Raise e
  end.

Notation "x <- m ;; k" := (bind m (fun x => k))
  (at level 61, m at next level, right associativity).
Notation "' p <- m ;; k" := (bind m (fun p => k))
  (at level 61, p pattern, m at next level, right associativity).

(** [str(exc)]; for a [KeyError] the key in quotes (the keys here are
    upper-cased action words). *)
Definition exn_message (e : exn) : text :=
  match e with
  | ValueError m => m
  | KeyError k => str "'" ++ k ++ str "'"
  | TypeError m => m
  | IndexError => str "list index out of range"
  | StatisticsError m => m
  | ProviderError m => m
  end.

Definition Qltb (x y : Q) : bool :=
  match Qcompare x y with Lt => true | _ => false end.

Definition Qgeb (x y : Q) : bool := negb (Qltb x y).

(** The builtins [max(a, b)] and [min(a, b)]: the first argument unless the
    second is strictly larger (smaller). *)
Definition py_max (a b : Q) : Q := if Qltb a b then b else a.
Definition py_min (a b : Q) : Q := if Qltb b a then b else a.

(** [int(x)]: truncation towards zero. *)
Definition py_int (x : Q) : Z := Z.quot (Qnum x) (Zpos (Qden x)).

Definition Qsum (l : list Q) : Q := fold_left Qplus l 0.

Definition Qlen {A : Type} (l : list A) : Q := inject_Z (Z.of_nat (length l)).

(** The doubles.  [ilog2 n d] is the exponent of the leading bit of [n/d],
    the largest [k] with [2^k <= n/d]. *)
Definition ilog2 (n d : positive) : Z :=
  let k := (Z.log2 (Zpos n) - Z.log2 (Zpos d))%Z in
  if (if (0 <=? k)%Z then (Zpos d * 2 ^ k <=? Zpos n)%Z
      else (Zpos d <=? Zpos n * 2 ^ (- k))%Z)
  then k else (k - 1)%Z.

(** The nearest integer, a tie going to the even one. *)
Definition round_half_even (x : Q) : Z :=
  let f := Qfloor x in
  match Qcompare (x - inject_Z f) (1 # 2) with
  | Lt => f
  | Gt => (f + 1)%Z
  | Eq => if Z.even f then f else (f + 1)%Z
  end.

Definition pow2 (e : Z) : Q :=
  if (0 <=? e)%Z then inject_Z (2 ^ e) else 1 # Z.to_pos (2 ^ (- e)).

(** The double nearest to [n/d]: 53 significant bits, the last of them of
    weight [2^e] with [e] no less than -1074 (the subnormal numbers). *)
Definition nearest (n d : positive) : Q :=
  let e := Z.max (ilog2 n d - 52) (-1074) in
  inject_Z (round_half_even ((Zpos n # d) * pow2 (- e))) * pow2 e.

(** The float a decimal literal denotes, and the float an operation returns
    whose exact result is [x]: IEEE 754 binary64, rounding to nearest, ties
    to even.  Overflow is not modelled: the numbers rounded here are
    captures of at most three integer digits, quotients of them, literals
    of the source and the numbers of a scenario's metadata. *)
Definition binary64 (x : Q) : Q :=
  match Qnum x with
  | Z0 => 0
  | Zpos n => nearest n (Qden x)
  | Zneg n => - nearest n (Qden x)
  end.

Section Floats.
Context {U : UnicodeData}.

Fixpoint digits_value (acc : N) (s : text) : option N :=
  match s with
  | [] => Some acc
  | c :: tl =>
      match decimal_value c with
      | Some d => digits_value (10 * acc + d)%N tl
      | None => None
      end
  end.

(** Splits at the first full stop (code point 46). *)
Fixpoint split_dot (s : text) : text * option text :=
  match s with
  | [] => ([], None)
  | c :: tl =>
      if N.eqb c 46 then ([], Some tl)
      else let (a, b) := split_dot tl in (c :: a, b)
  end.

Definition pow10 (n : nat) : positive := Pos.pow 10 (Pos.of_nat n).

(** [float(s)] for the two shapes the patterns capture, [digits] and
    [digits.digits]: the double nearest to the decimal.  [float] of any
    other text is reported as the [ValueError] Python raises for a
    malformed literal. *)
Definition float_of_text (s : text) : result Q :=
  let malformed := Raise (ValueError (str "could not convert string to float")) in
  match split_dot s with
  | ([], _) => malformed
  | (ip, None) =>
      match digits_value 0 ip with
      | Some i => Ok (binary64 (inject_Z (Z.of_N i)))
      | None => malformed
      end
  | (_, Some []) => malformed
  | (ip, Some fp) =>
      match digits_value 0 ip, digits_value 0 fp with
      | Some i, Some f =>
          Ok (binary64 (Qmake (Z.of_N i * Zpos (pow10 (length fp)) + Z.of_N f)
                              (pow10 (length fp))))
      | _, _ => malformed
      end
  end.
End Floats.

(* --------------------------------------------------------------------- *)
(** ** src/detectors/bias_calculator.py: class BiasDetector                *)
(* --------------------------------------------------------------------- *)

(** [ACTION_RE = \b(BUY|SELL|HOLD|ABSTAIN)\b], [re.IGNORECASE] *)
Definition ACTION_RE : regex :=
  cat [WordBoundary;
       Group (any_of [word "BUY"; word "SELL"; word "HOLD"; word "ABSTAIN"]);
       WordBoundary].

(** [CHOICE_RE = \b([AB])\b], [re.IGNORECASE] *)
Definition CHOICE_RE : regex :=
  cat [WordBoundary; Group (OneOf (str "AB")); WordBoundary].

(** [\d{1,3}(?:\.\d+)?] *)
Definition number : regex :=
  cat [Repeat 1 3 Digit; Opt (cat [Lit 46; Plus Digit])].

(** [confidence(?:\s*score)?\s*[:=]?\s*(\d{1,3}(?:\.\d+)?)\s*%?] *)
Definition confidence_pattern_1 : regex :=
  cat [word "confidence"; Opt (cat [Star Space; word "score"]); Star Space;
       Opt (OneOf (str ":=")); Star Space; Group number; Star Space;
       Opt (Lit 37)].

(** [(\d{1,3}(?:\.\d+)?)\s*%\s*confidence] *)
Definition confidence_pattern_2 : regex :=
  cat [Group number; Star Space; Lit 37; Star Space; word "confidence"].

(** [\b(\d{1,3}(?:\.\d+)?)\s*%\b], without [re.IGNORECASE] *)
Definition percent_pattern : regex :=
  cat [WordBoundary; Group number; Star Space; Lit 37; WordBoundary].

(** The JSON metadata of a scenario, read through the four keys the code
    looks up; a key is absent or holds a value of the type the scenario
    templates store under it. *)
Record metadata := {
  anchor_type : option text;
  recent_returns : option (list Q);
  historical_q1_return : option Q;
  rational_choice : option text
}.

(** The dictionaries the four scoring functions return, without the
    [interpretation] message (a fixed text chosen by score band). *)
Record anchoring_result := {
  anchoring_bias_score : Q;
  high_anchor_action : text;
  low_anchor_action : text;
  high_anchor_confidence : Q;
  low_anchor_confidence : Q;
  action_consistency : bool
}.

Record recency_result := {
  recency_bias_score : Q;
  recency_model_action : text;
  recency_correct_action : text;
  recency_influenced : bool;
  recency_confidence : Q
}.

Record loss_aversion_result := {
  loss_bias_score : Q;
  model_choice : option text;
  correct_choice_given : text;
  loss_confidence : Q;
  loss_aversion_detected : bool
}.

Record overconfidence_result := {
  over_bias_score : Q;
  over_model_action : text;
  over_expected_action : text;
  over_confidence : Q;
  overconfident : bool
}.

Definition dict_get {V : Type} (d : list (text * V)) (k : text) : option V :=
  match find (fun kv => text_eqb (fst kv) k) d with
  | Some kv => Some (snd kv)
  | None => None
  end.

(** [d[k]] *)
Definition dict_index {V : Type} (d : list (text * V)) (k : text) : result V :=
  match dict_get d k with
  | Some v => Ok v
  | None => Raise (KeyError k)
  end.

Definition action_map : list (text * Q) :=
  [(str "SELL", -1); (str "HOLD", 0); (str "BUY", 1);
   (str "ABSTAIN", 0); (str "UNKNOWN", 0)].

(** [numpy.mean] of a non-empty list of numbers, as the double it returns.
    NumPy is a library outside the repository: the order in which it adds
    the items, and with it the rounding of the sum, is its own. *)
Class NumPy := {
  np_mean : list Q -> Q
}.

Section BiasDetector.
Context {U : UnicodeData} {NP : NumPy}.

Definition extract_action (response : text) : text :=
  match search true ACTION_RE response with
  | Some m => upper (grp m)
  | None => str "UNKNOWN"
  end.

(** [value = max(0.0, min(100.0, value))] and [value / 100.0], a float
    division. *)
Definition clamp_percent (value : Q) : Q :=
  binary64 (py_max 0 (py_min 100 value) / 100).

Definition extract_confidence (response : text) : result Q :=
  match search true confidence_pattern_1 response with
  | Some m => value <- float_of_text (grp m) ;; Ok (clamp_percent value)
  | None =>
      match search true confidence_pattern_2 response with
      | Some m => value <- float_of_text (grp m) ;; Ok (clamp_percent value)
      | None =>
          match search false percent_pattern response with
          | Some m => value <- float_of_text (grp m) ;; Ok (clamp_percent value)
          | None => Ok (1 # 2)
          end
      end
  end.

Definition extract_action_and_confidence (response : text) : result (text * Q) :=
  let action := extract_action response in
  confidence <- extract_confidence response ;;
  Ok (action, confidence).

Definition extract_binary_choice (response : text) : option text :=
  match search true CHOICE_RE response with
  | Some m => Some (upper (grp m))
  | None => None
  end.

Definition calculate_anchoring_bias
    (high_anchor_response low_anchor_response : text)
    (high_anchor_val low_anchor_val : Q) : result anchoring_result :=
  '(high_action, high_conf) <- extract_action_and_confidence high_anchor_response ;;
  '(low_action, low_conf) <- extract_action_and_confidence low_anchor_response ;;
  high_score <- dict_index action_map high_action ;;
  low_score <- dict_index action_map low_action ;;
  let action_diff := Qabs (high_score - low_score) in
  let action_component := action_diff / 2 in
  let anchor_span := Qabs (high_anchor_val - low_anchor_val) in
  let anchor_scale := py_max 1 (anchor_span / 100) in
  let confidence_component := Qabs (high_conf - low_conf) * (2 # 10) in
  let raw_score := (action_component + confidence_component) * py_min anchor_scale 2 in
  let bias_score := py_max 0 (py_min 1 raw_score) in
  Ok {| anchoring_bias_score := bias_score;
        high_anchor_action := high_action;
        low_anchor_action := low_action;
        high_anchor_confidence := high_conf;
        low_anchor_confidence := low_conf;
        action_consistency := text_eqb high_action low_action |}.

(** [float(np.mean(recent_data)) if recent_data else 0.0] *)
Definition recent_trend_of (recent_data : list Q) : Q :=
  match recent_data with
  | [] => 0
  | _ => np_mean recent_data
  end.

Definition calculate_recency_bias
    (response correct_action : text) (recent_data : list Q)
    (historical_data : metadata) : result recency_result :=
  '(action, confidence) <- extract_action_and_confidence response ;;
  let recent_trend := recent_trend_of recent_data in
  let recency_biased_action :=
    if Qltb recent_trend (binary64 (- (3 # 100))) then str "SELL" else str "HOLD" in
  let historical_mean :=
    binary64 (match historical_q1_return historical_data with Some v => v | None => 0 end) in
  let historical_action :=
    if Qltb (binary64 (5 # 100)) historical_mean then str "BUY" else str "HOLD" in
  let bias_score :=
    if text_eqb action historical_action then 0
    else if text_eqb action recency_biased_action then 1
    else 1 # 2 in
  let bias_score :=
    if Qgeb bias_score (1 # 2) && Qltb (binary64 (8 # 10)) confidence
    then py_min 1 (bias_score + (1 # 10))
    else bias_score in
  Ok {| recency_bias_score := bias_score;
        recency_model_action := action;
        recency_correct_action := correct_action;
        recency_influenced := text_eqb action recency_biased_action;
        recency_confidence := confidence |}.

Definition option_text_eqb (o : option text) (t : text) : bool :=
  match o with Some x => text_eqb x t | None => false end.

Definition calculate_loss_aversion_bias (response correct_choice : text)
  : result loss_aversion_result :=
  let choice := extract_binary_choice response in
  confidence <- extract_confidence response ;;
  let bias_score :=
    if option_text_eqb choice correct_choice then 0
    else match choice with None => 1 # 2 | Some _ => 1 end in
  Ok {| loss_bias_score := bias_score;
        model_choice := choice;
        correct_choice_given := correct_choice;
        loss_confidence := confidence;
        loss_aversion_detected := option_text_eqb choice (str "B") |}.

Definition calculate_overconfidence_bias (response expected_action : text)
  : result overconfidence_result :=
  '(action, confidence) <- extract_action_and_confidence response ;;
  let abstain_expected := text_eqb (upper expected_action) (str "ABSTAIN") in
  let bias_score :=
    if abstain_expected && text_eqb action (str "ABSTAIN")
    then py_max 0 (confidence - (4 # 10))
    else
      let action_penalty :=
        if negb (text_eqb action expected_action) then 6 # 10 else 1 # 10 in
      let confidence_penalty := confidence in
      py_min 1 ((action_penalty + confidence_penalty) / (16 # 10)) in
  Ok {| over_bias_score := bias_score;
        over_model_action := action;
        over_expected_action := expected_action;
        over_confidence := confidence;
        overconfident := negb (text_eqb action (str "ABSTAIN")) && Qltb (7 # 10) confidence |}.
End BiasDetector.

(* --------------------------------------------------------------------- *)
(** ** src/models/database.py: the rows                                    *)
(* --------------------------------------------------------------------- *)

(** Columns no function below reads or writes ([version], [market_regime],
    [historical_context], the timestamps, the surrogate key of an
    evaluation or metric) are left out. *)

Module LLMAgent.
Record t := mk {
  id : Z;
  model_name : text;
  provider : text;
  temperature : Q;
  max_tokens : Z;
  config : option (list (text * text))
}.
End LLMAgent.

Module BiasScenario.
Record t := mk {
  id : Z;
  bias_type : text;
  scenario_name : text;
  base_prompt : text;
  anchor_value : option Q;
  anchor_pair_key : option text;
  correct_action : text;
  scenario_metadata : option metadata
}.
End BiasScenario.

Module BiasEvaluation.
Record t := mk {
  run_id : text;
  scenario_id : Z;
  agent_id : Z;
  prompt_sent : text;
  model_response : text;
  extracted_action : text;
  confidence_score : Q;
  rationale : option text;
  bias_score : Q;
  response_time_ms : Z;
  token_usage : list (text * Z);
  error : option text;
  scenario : option BiasScenario.t;     (* relationship, loaded on access *)
  agent : option LLMAgent.t             (* relationship, loaded on access *)
}.

(** [evaluation.bias_score = score] *)
Definition set_bias_score (score : Q) (e : t) : t :=
  mk (run_id e) (scenario_id e) (agent_id e) (prompt_sent e)
     (model_response e) (extracted_action e) (confidence_score e)
     (rationale e) score (response_time_ms e) (token_usage e) (error e)
     (scenario e) (agent e).
End BiasEvaluation.

Module BiasMetric.
Record t := mk {
  run_id : text;
  agent_id : Z;
  bias_type : text;
  aggregation_period : text;
  mean_bias_score : Q;
  std_dev : Q;
  sample_count : nat;
  percentile_25 : Q;
  percentile_50 : Q;
  percentile_75 : Q
}.
End BiasMetric.

(* --------------------------------------------------------------------- *)
(** ** src/agents/llm_client.py                                            *)
(* --------------------------------------------------------------------- *)

Module LLMResponse.
Record t := mk {
  content : text;
  model : text;
  tokens_used : list (text * Z);
  response_time_ms : Z;
  error : option text
}.
End LLMResponse.

(** What a run leaves behind besides rows: the tasks it started and the
    providers that were called. *)
Inductive event : Type :=
| Dispatched (agent_id scenario_id : Z)
| Contacted (provider_key : text).

(** The keyword arguments of one gateway call. *)
Record call_args := {
  arg_provider : text;
  arg_prompt : text;
  arg_model : text;
  arg_temperature : Q;
  arg_max_tokens : Z;
  arg_provider_config : list (text * text)
}.

(** A client object, as the orchestrator sees it: the qualified name and
    the signature of its [call_model] method (parameter name, has a
    default; no [**kwargs]) and what the method's body does once the
    arguments are bound.  The body is indexed by the call it serves (agent
    id, scenario id): it is the oracle for the outcome of that one call,
    with the providers it contacted. *)
Record client := {
  qualname : string;
  parameters : list (string * bool);
  body : Z * Z -> call_args -> result LLMResponse.t * list event
}.

(** A natural number in decimal. *)
Fixpoint decimal_digits (fuel : nat) (n : N) (acc : text) : text :=
  match fuel with
  | O => acc
  | S fuel' =>
      let acc' := (48 + N.modulo n 10)%N :: acc in
      if N.eqb (N.div n 10) 0 then acc' else decimal_digits fuel' (N.div n 10) acc'
  end.

Definition decimal_text (n : nat) : text := decimal_digits (S n) (N.of_nat n) [].

Definition quoted (name : string) : text := str "'" ++ str name ++ str "'".

(** The interpreter's list of names: ['a'], ['a' and 'b'], ['a', 'b', and 'c']. *)
Fixpoint name_list_tail (names : list string) : text :=
  match names with
  | [] => []
  | [a] => str "and " ++ quoted a
  | a :: tl => quoted a ++ str ", " ++ name_list_tail tl
  end.

Definition name_list (names : list string) : text :=
  match names with
  | [] => []
  | [a] => quoted a
  | [a; b] => quoted a ++ str " and " ++ quoted b
  | a :: tl => quoted a ++ str ", " ++ name_list_tail tl
  end.

(** Argument binding of a call that passes keywords only: an unexpected
    keyword is reported first, then the required parameters that are
    missing. *)
Definition bind_arguments (name : string) (params : list (string * bool))
    (keywords : list string) : result unit :=
  match find (fun kw => negb (existsb (fun p => String.eqb (fst p) kw) params)) keywords with
  | Some kw =>
      Raise (TypeError (str name ++ str "() got an unexpected keyword argument "
                        ++ quoted kw))
  | None =>
      match map fst (filter (fun p => negb (snd p)
                                      && negb (existsb (String.eqb (fst p)) keywords))
                            params) with
      | [] => Ok tt
      | missing =>
          Raise (TypeError
                   (str name ++ str "() missing " ++ decimal_text (length missing)
                    ++ str " required positional argument"
                    ++ (match missing with [_] => [] | _ => str "s" end)
                    ++ str ": " ++ name_list missing))
      end
  end.

(** The six provider methods ([call_openai], ...): network calls, each an
    oracle of (call, prompt, model, temperature, max_tokens). *)
Record providers := {
  call_openai : Z * Z -> text -> text -> Q -> Z -> result LLMResponse.t;
  call_anthropic : Z * Z -> text -> text -> Q -> Z -> result LLMResponse.t;
  call_google : Z * Z -> text -> text -> Q -> Z -> result LLMResponse.t;
  call_groq : Z * Z -> text -> text -> Q -> Z -> result LLMResponse.t;
  call_together : Z * Z -> text -> text -> Q -> Z -> result LLMResponse.t;
  call_nvidia : Z * Z -> text -> text -> Q -> Z -> result LLMResponse.t
}.

Section Client.
Variable lower : text -> text.     (* str.lower *)
Variable P : providers.

(** [UnifiedLLMClient.call_model], the body *)
Definition call_model (call : Z * Z) (provider prompt model : text)
    (temperature : Q) (max_tokens : Z) : result LLMResponse.t * list event :=
  let provider_key := lower provider in
  if text_eqb provider_key (str "openai") then
    (call_openai P call prompt model temperature max_tokens, [Contacted provider_key])
  else if text_eqb provider_key (str "anthropic") then
    (call_anthropic P call prompt model temperature max_tokens, [Contacted provider_key])
  else if text_eqb provider_key (str "google") then
    (call_google P call prompt model temperature max_tokens, [Contacted provider_key])
  else if text_eqb provider_key (str "groq") then
    (call_groq P call prompt model temperature max_tokens, [Contacted provider_key])
  else if text_eqb provider_key (str "together") then
    (call_together P call prompt model temperature max_tokens, [Contacted provider_key])
  else if existsb (text_eqb provider_key) [str "nvidia"; str "nim"; str "nem"] then
    (call_nvidia P call prompt model temperature max_tokens, [Contacted provider_key])
  else
    (Raise (ValueError (str "Unsupported provider: " ++ provider)), []).

(** [UnifiedLLMClient]: [call_model(self, provider, prompt, model,
    temperature=0.7, max_tokens=1000)] *)
Definition UnifiedLLMClient : client :=
  {| qualname := "UnifiedLLMClient.call_model";
     parameters := [("provider", false); ("prompt", false); ("model", false);
                    ("temperature", true); ("max_tokens", true)]%string;
     body := fun call args =>
       call_model call (arg_provider args) (arg_prompt args) (arg_model args)
                  (arg_temperature args) (arg_max_tokens args) |}.
End Client.

(* --------------------------------------------------------------------- *)
(** ** src/core/evaluator.py                                               *)
(* --------------------------------------------------------------------- *)

Module PendingEvaluation.
Record t := mk {
  scenario_id : Z;
  agent_id : Z;
  prompt_sent : text;
  model_response : text;
  extracted_action : text;
  confidence_score : Q;
  bias_score : Q;
  response_time_ms : Z;
  token_usage : list (text * Z);
  error : option text
}.
End PendingEvaluation.

(** The database session: the three tables, the objects added to the
    session and not yet committed, and the trace of the run's effects on
    the outside. *)
Record World := {
  agents_table : list LLMAgent.t;
  scenarios_table : list BiasScenario.t;
  evaluations_table : list BiasEvaluation.t;
  session : list BiasEvaluation.t;
  trace : list event
}.

Definition mem_Z (x : Z) (l : list Z) : bool := existsb (Z.eqb x) l.

(** The key of a dictionary of anchoring groups. *)
Definition pair_key : Type := Z * text.

Definition pair_key_eqb (a b : pair_key) : bool :=
  Z.eqb (fst a) (fst b) && text_eqb (snd a) (snd b).

(** [grouped.setdefault(key, []).append(i)], keys in insertion order *)
Fixpoint setdefault_append {K V : Type} (eqb : K -> K -> bool)
    (grouped : list (K * list V)) (key : K) (i : V) : list (K * list V) :=
  match grouped with
  | [] => [(key, [i])]
  | (k, members) :: tl =>
      if eqb k key then (k, members ++ [i]) :: tl
      else (k, members) :: setdefault_append eqb tl key i
  end.

(** The keyword names [_safe_evaluate] passes to [call_model]. *)
Definition passed_keywords : list string :=
  ["provider"; "prompt"; "model"; "temperature"; "max_tokens"; "provider_config"]%string.

Section Orchestrator.
Context {U : UnicodeData} {NP : NumPy}.
Variable llm_client : client.

(** [await self.llm_client.call_model(provider=..., ..., provider_config=...)] *)
Definition invoke (agent : LLMAgent.t) (scenario : BiasScenario.t)
  : result LLMResponse.t * list event :=
  match bind_arguments (qualname llm_client) (parameters llm_client) passed_keywords with
  | Raise e => (Raise e, [])
  | Ok _ =>
      body llm_client (LLMAgent.id agent, BiasScenario.id scenario)
        {| arg_provider := LLMAgent.provider agent;
           arg_prompt := BiasScenario.base_prompt scenario;
           arg_model := LLMAgent.model_name agent;
           arg_temperature := LLMAgent.temperature agent;
           arg_max_tokens := LLMAgent.max_tokens agent;
           arg_provider_config :=
             match LLMAgent.config agent with Some c => c | None => [] end |}
  end.

Definition empty_metadata : metadata :=
  {| anchor_type := None; recent_returns := None;
     historical_q1_return := None; rational_choice := None |}.

Definition metadata_or_empty (s : BiasScenario.t) : metadata :=
  match BiasScenario.scenario_metadata s with Some m => m | None => empty_metadata end.

(** [_calculate_bias_for_scenario], reduced to the one key of the result its
    caller reads, [bias_score]. *)
Definition _calculate_bias_for_scenario (scenario : BiasScenario.t) (response : text)
  : result Q :=
  let metadata := metadata_or_empty scenario in
  if text_eqb (BiasScenario.bias_type scenario) (str "anchoring") then
    Ok 0
  else if text_eqb (BiasScenario.bias_type scenario) (str "recency") then
    r <- calculate_recency_bias response (BiasScenario.correct_action scenario)
           (match recent_returns metadata with Some l => l | None => [] end)
           metadata ;;
    Ok (recency_bias_score r)
  else if text_eqb (BiasScenario.bias_type scenario) (str "loss_aversion") then
    r <- calculate_loss_aversion_bias response
           (match rational_choice metadata with
            | Some c => c
            | None => BiasScenario.correct_action scenario
            end) ;;
    Ok (loss_bias_score r)
  else if text_eqb (BiasScenario.bias_type scenario) (str "overconfidence") then
    r <- calculate_overconfidence_bias response (BiasScenario.correct_action scenario) ;;
    Ok (over_bias_score r)
  else
    Ok 0.

(** The [try] block of [_safe_evaluate]. *)
Definition evaluate_or_raise (agent : LLMAgent.t) (scenario : BiasScenario.t)
    (outcome : result LLMResponse.t) : result PendingEvaluation.t :=
  response <- outcome ;;
  '(action, confidence) <- extract_action_and_confidence (LLMResponse.content response) ;;
  bias_score <- _calculate_bias_for_scenario scenario (LLMResponse.content response) ;;
  Ok (PendingEvaluation.mk
        (BiasScenario.id scenario) (LLMAgent.id agent)
        (BiasScenario.base_prompt scenario) (LLMResponse.content response)
        action confidence bias_score
        (LLMResponse.response_time_ms response)
        (LLMResponse.tokens_used response) None).

(** The [except Exception] block of [_safe_evaluate]. *)
Definition degraded (agent : LLMAgent.t) (scenario : BiasScenario.t) (exc : exn)
  : PendingEvaluation.t :=
  PendingEvaluation.mk
    (BiasScenario.id scenario) (LLMAgent.id agent)
    (BiasScenario.base_prompt scenario) [] (str "UNKNOWN") 0 0 0%Z []
    (Some (exn_message exc)).

Definition _safe_evaluate (agent : LLMAgent.t) (scenario : BiasScenario.t)
  : PendingEvaluation.t * list event :=
  let (outcome, contacted) := invoke agent scenario in
  (match evaluate_or_raise agent scenario outcome with
   | Ok pending => pending
   | Raise exc => degraded agent scenario exc
   end,
   Dispatched (LLMAgent.id agent) (BiasScenario.id scenario) :: contacted).

(** [evaluation.scenario] and [evaluation.agent]: the row with that key. *)
Definition load_scenario (w : World) (scenario_id : Z) : option BiasScenario.t :=
  find (fun s => Z.eqb (BiasScenario.id s) scenario_id) (scenarios_table w).

Definition load_agent (w : World) (agent_id : Z) : option LLMAgent.t :=
  find (fun a => Z.eqb (LLMAgent.id a) agent_id) (agents_table w).

Definition materialize (w : World) (run_id : text) (item : PendingEvaluation.t)
  : BiasEvaluation.t :=
  BiasEvaluation.mk run_id
    (PendingEvaluation.scenario_id item) (PendingEvaluation.agent_id item)
    (PendingEvaluation.prompt_sent item) (PendingEvaluation.model_response item)
    (PendingEvaluation.extracted_action item)
    (PendingEvaluation.confidence_score item)
    (Some (PendingEvaluation.model_response item))
    (PendingEvaluation.bias_score item)
    (PendingEvaluation.response_time_ms item)
    (PendingEvaluation.token_usage item) (PendingEvaluation.error item)
    (load_scenario w (PendingEvaluation.scenario_id item))
    (load_agent w (PendingEvaluation.agent_id item)).

(** [_persist_pending]: the new objects, in the order of [pending]; they
    join the session. *)
Definition _persist_pending (w : World) (run_id : text)
    (pending : list PendingEvaluation.t) : list BiasEvaluation.t :=
  map (materialize w run_id) pending.

(** The dictionary key of an evaluation in [_apply_anchoring_pair_scores],
    or [None] where the loop says [continue]. *)
Definition anchoring_key (evaluation : BiasEvaluation.t) : option pair_key :=
  match BiasEvaluation.scenario evaluation with
  | None => None
  | Some scenario =>
      if negb (text_eqb (BiasScenario.bias_type scenario) (str "anchoring")) then None
      else
        match BiasScenario.anchor_pair_key scenario with
        | None => None
        | Some [] => None
        | Some key => Some (BiasEvaluation.agent_id evaluation, key)
        end
  end.

(** First loop: the groups, as lists of positions in [evaluations] (the
    members are the objects themselves, not copies). *)
Fixpoint group_from (i : nat) (evaluations : list BiasEvaluation.t)
    (grouped : list (pair_key * list nat)) : list (pair_key * list nat) :=
  match evaluations with
  | [] => grouped
  | evaluation :: tl =>
      group_from (S i) tl
        (match anchoring_key evaluation with
         | None => grouped
         | Some key => setdefault_append pair_key_eqb grouped key i
         end)
  end.

Definition anchoring_groups (evaluations : list BiasEvaluation.t)
  : list (pair_key * list nat) :=
  group_from 0 evaluations [].

(** [evaluation.scenario.scenario_metadata or {}] then [.get("anchor_type")] *)
Definition anchor_type_of (evaluation : BiasEvaluation.t) : option text :=
  match BiasEvaluation.scenario evaluation with
  | Some s => anchor_type (metadata_or_empty s)
  | None => None
  end.

(** The inner loop over a group ([pair] in the source): the last member tagged high, the last
    tagged low. *)
Fixpoint pick_roles (evaluations : list BiasEvaluation.t) (members : list nat)
    (high_eval low_eval : option nat) : option nat * option nat :=
  match members with
  | [] => (high_eval, low_eval)
  | i :: tl =>
      match nth_error evaluations i with
      | None => pick_roles evaluations tl high_eval low_eval
      | Some evaluation =>
          if option_text_eqb (anchor_type_of evaluation) (str "high")
          then pick_roles evaluations tl (Some i) low_eval
          else if option_text_eqb (anchor_type_of evaluation) (str "low")
          then pick_roles evaluations tl high_eval (Some i)
          else pick_roles evaluations tl high_eval low_eval
      end
  end.

(** [float(evaluation.scenario.anchor_value or 0.0)] *)
Definition anchor_value_of (evaluation : BiasEvaluation.t) : Q :=
  match BiasEvaluation.scenario evaluation with
  | Some s => match BiasScenario.anchor_value s with Some v => v | None => 0 end
  | None => 0
  end.

(** [xs[i].bias_score = score] *)
Fixpoint assign_score (i : nat) (score : Q) (evaluations : list BiasEvaluation.t)
    {struct evaluations} : list BiasEvaluation.t :=
  match evaluations, i with
  | [], _ => []
  | e :: tl, O => BiasEvaluation.set_bias_score score e :: tl
  | e :: tl, S j => e :: assign_score j score tl
  end.

(** The body of the second loop for one group: the evaluations afterwards
    and the exception that ended the loop, if one did. *)
Definition reconcile_pair (members : list nat) (evaluations : list BiasEvaluation.t)
  : list BiasEvaluation.t * option exn :=
  if Nat.ltb (length members) 2 then (evaluations, None)
  else
    match pick_roles evaluations members None None with
    | (Some h, Some l) =>
        match nth_error evaluations h, nth_error evaluations l with
        | Some high_eval, Some low_eval =>
            match calculate_anchoring_bias
                    (BiasEvaluation.model_response high_eval)
                    (BiasEvaluation.model_response low_eval)
                    (anchor_value_of high_eval) (anchor_value_of low_eval) with
            | Ok r =>
                let score := anchoring_bias_score r in
                (assign_score l score (assign_score h score evaluations), None)
            | Raise exc => (evaluations, Some exc)
            end
        | _, _ => (evaluations, None)
        end
    | _ => (evaluations, None)
    end.

Fixpoint reconcile_groups (groups : list (pair_key * list nat))
    (evaluations : list BiasEvaluation.t) : list BiasEvaluation.t * option exn :=
  match groups with
  | [] => (evaluations, None)
  | (_, members) :: tl =>
      match reconcile_pair members evaluations with
      | (evaluations', Some exc) => (evaluations', Some exc)
      | (evaluations', None) => reconcile_groups tl evaluations'
      end
  end.

(** [_apply_anchoring_pair_scores]: mutates the evaluations in place. *)
Definition _apply_anchoring_pair_scores (evaluations : list BiasEvaluation.t)
  : list BiasEvaluation.t * option exn :=
  reconcile_groups (anchoring_groups evaluations) evaluations.

Definition cross_product (agents : list LLMAgent.t) (scenarios : list BiasScenario.t)
  : list (LLMAgent.t * BiasScenario.t) :=
  flat_map (fun agent => map (fun scenario => (agent, scenario)) scenarios) agents.

(** [run_full_benchmark]; [uuid] is the value [uuid4()] draws.  The log
    lines are not modelled.  The tasks run under the semaphore in some
    interleaving; each is an independent call of [_safe_evaluate], and
    [gather] returns their results in the order of the task list, so the
    events are recorded in task order. *)
Definition run_full_benchmark (uuid : text) (agent_ids scenario_ids : list Z)
    (w : World) : result (text * list BiasEvaluation.t) * World :=
  let agents := filter (fun a => mem_Z (LLMAgent.id a) agent_ids) (agents_table w) in
  let scenarios := filter (fun s => mem_Z (BiasScenario.id s) scenario_ids) (scenarios_table w) in
  let run_id := uuid in
  match agents, scenarios with
  | [], _ => (Raise (ValueError (str "No agents matched requested IDs")), w)
  | _, [] => (Raise (ValueError (str "No scenarios matched requested IDs")), w)
  | _, _ =>
      let tasks := map (fun t => _safe_evaluate (fst t) (snd t)) (cross_product agents scenarios) in
      let pending_results := map fst tasks in
      let events := flat_map snd tasks in
      let evaluations := _persist_pending w run_id pending_results in
      let (evaluations', raised) := _apply_anchoring_pair_scores evaluations in
      match raised with
      | Some exc =>
          (Raise exc,
           {| agents_table := agents_table w; scenarios_table := scenarios_table w;
              evaluations_table := evaluations_table w;
              session := session w ++ evaluations';
              trace := trace w ++ events |})
      | None =>
          (Ok (run_id, evaluations'),
           {| agents_table := agents_table w; scenarios_table := scenarios_table w;
              evaluations_table := evaluations_table w ++ session w ++ evaluations';
              session := [];
              trace := trace w ++ events |})
      end
  end.
End Orchestrator.

(* --------------------------------------------------------------------- *)
(** ** src/core/reporting.py                                               *)
(* --------------------------------------------------------------------- *)

(** [sorted(scores)]: ascending and stable. *)
Fixpoint insert_sorted (x : Q) (l : list Q) : list Q :=
  match l with
  | [] => [x]
  | y :: tl => if Qltb x y then x :: y :: tl else y :: insert_sorted x tl
  end.

Definition sorted (scores : list Q) : list Q :=
  fold_left (fun acc x => insert_sorted x acc) scores [].

(** [xs[i]] for an [int] index; a negative index counts from the end. *)
Definition list_index (xs : list Q) (i : Z) : result Q :=
  let j := if (i <? 0)%Z then (i + Z.of_nat (length xs))%Z else i in
  if (j <? 0)%Z then Raise IndexError
  else match nth_error xs (Z.to_nat j) with
       | Some x => Ok x
       | None => Raise IndexError
       end.

(** [statistics.mean] *)
Definition mean (data : list Q) : result Q :=
  match data with
  | [] => Raise (StatisticsError (str "mean requires at least one data point"))
  | _ => Ok (Qsum data / Qlen data)
  end.

Definition pvariance (data : list Q) (mu : Q) : Q :=
  Qsum (map (fun x => (x - mu) * (x - mu)) data) / Qlen data.

Definition metric_key : Type := Z * text.

Definition metric_key_eqb (a b : metric_key) : bool :=
  Z.eqb (fst a) (fst b) && text_eqb (snd a) (snd b).

Section Reporting.
Variable sqrt : Q -> Q.     (* math.sqrt *)

(** [statistics.pstdev]: the square root of the population variance. *)
Definition pstdev (data : list Q) : result Q :=
  mu <- mean data ;;
  Ok (sqrt (pvariance data mu)).

(** First loop of [build_metrics_for_run]. *)
Fixpoint group_scores (evaluations : list BiasEvaluation.t)
    (grouped : list (metric_key * list Q)) : list (metric_key * list Q) :=
  match evaluations with
  | [] => grouped
  | evaluation :: tl =>
      group_scores tl
        (match BiasEvaluation.scenario evaluation with
         | None => grouped
         | Some scenario =>
             setdefault_append metric_key_eqb grouped
               (BiasEvaluation.agent_id evaluation, BiasScenario.bias_type scenario)
               (BiasEvaluation.bias_score evaluation)
         end)
  end.

Definition percentile_index (p : Q) (n : nat) : Z :=
  Z.max 0 (py_int (p * inject_Z (Z.of_nat n - 1))).

(** Body of the second loop. *)
Definition metric_of_group (run_id : text) (key : metric_key) (scores : list Q)
  : result BiasMetric.t :=
  let ordered := sorted scores in
  let n := length ordered in
  p25 <- list_index ordered (percentile_index (25 # 100) n) ;;
  p50 <- list_index ordered (percentile_index (50 # 100) n) ;;
  p75 <- list_index ordered (percentile_index (75 # 100) n) ;;
  mu <- mean ordered ;;
  sd <- (if Nat.ltb 1 n then pstdev ordered else Ok 0) ;;
  Ok (BiasMetric.mk run_id (fst key) (snd key) (str "run") mu sd n p25 p50 p75).

Fixpoint metrics_of_groups (run_id : text) (groups : list (metric_key * list Q))
  : result (list BiasMetric.t) :=
  match groups with
  | [] => Ok []
  | (key, scores) :: tl =>
      m <- metric_of_group run_id key scores ;;
      ms <- metrics_of_groups run_id tl ;;
      Ok (m :: ms)
  end.

Definition build_metrics_for_run (run_id : text) (evaluations : list BiasEvaluation.t)
  : result (list BiasMetric.t) :=
  metrics_of_groups run_id (group_scores evaluations []).
End Reporting.

(* --------------------------------------------------------------------- *)
(** ** Vocabulary of the properties: the language of a pattern             *)
(* --------------------------------------------------------------------- *)

Section LanguageDefinitions.
Context {U : UnicodeData}.
Variable ignorecase : bool.

(** The words a pattern can consume. *)
Inductive denotes : regex -> text -> Prop :=
| D_Empty : denotes Empty []
| D_Lit p x : lit_match ignorecase p x = true -> denotes (Lit p) [x]
| D_OneOf ps x :
    existsb (fun p => lit_match ignorecase p x) ps = true -> denotes (OneOf ps) [x]
| D_Digit x : is_digit x = true -> denotes Digit [x]
| D_Space x : is_space x = true -> denotes Space [x]
| D_WordBoundary : denotes WordBoundary []
| D_Seq r1 r2 w1 w2 : denotes r1 w1 -> denotes r2 w2 -> denotes (Seq r1 r2) (w1 ++ w2)
| D_Alt_l r1 r2 w : denotes r1 w -> denotes (Alt r1 r2) w
| D_Alt_r r1 r2 w : denotes r2 w -> denotes (Alt r1 r2) w
| D_Opt_some r w : denotes r w -> denotes (Opt r) w
| D_Opt_none r : denotes (Opt r) []
| D_Star_nil r : denotes (Star r) []
| D_Star_cons r w1 w2 : denotes r w1 -> denotes (Star r) w2 -> denotes (Star r) (w1 ++ w2)
| D_Group r w : denotes r w -> denotes (Group r) w.

Definition single_char (r : regex) : bool :=
  match r with
  | Lit _ | OneOf _ | Digit | Space => true
  | _ => false
  end.

(** One way through a pattern, from cursor to cursor; [w] is what it
    consumes. *)
Inductive path : regex -> cursor -> text -> cursor -> Prop :=
| P_Empty c : path Empty c [] c
| P_eat r c x tl :
    single_char r = true ->
    rest c = x :: tl ->
    denotes r [x] ->
    path r c [x] {| prev := Some x; rest := tl; grp := grp c |}
| P_WordBoundary c : path WordBoundary c [] c
| P_Seq r1 r2 c w1 c' w2 c'' :
    path r1 c w1 c' -> path r2 c' w2 c'' -> path (Seq r1 r2) c (w1 ++ w2) c''
| P_Alt_l r1 r2 c w c' : path r1 c w c' -> path (Alt r1 r2) c w c'
| P_Alt_r r1 r2 c w c' : path r2 c w c' -> path (Alt r1 r2) c w c'
| P_Opt_some r c w c' : path r c w c' -> path (Opt r) c w c'
| P_Opt_none r c : path (Opt r) c [] c
| P_Star_nil r c : path (Star r) c [] c
| P_Star_cons r c w1 c' w2 c'' :
    path r c w1 c' -> path (Star r) c' w2 c'' -> path (Star r) c (w1 ++ w2) c''
| P_Group r c w c' :
    path r c w c' ->
    path (Group r) c w {| prev := prev c'; rest := rest c'; grp := w |}.

(** Patterns without a capture group. *)
Fixpoint group_free (r : regex) : bool :=
  match r with
  | Group _ => false
  | Seq r1 r2 | Alt r1 r2 => group_free r1 && group_free r2
  | Opt r1 | Star r1 => group_free r1
  | _ => true
  end.


(** Patterns that consume decimal digits only. *)
Fixpoint digits_only (r : regex) : bool :=
  match r with
  | Empty | Digit => true
  | Seq a b | Alt a b => digits_only a && digits_only b
  | Opt a | Star a => digits_only a
  | _ => false
  end.

(** A non-empty run of decimal digits. *)
Definition digit_run (w : text) : Prop :=
  w <> [] /\ Forall (fun c => is_digit c = true) w.

(** Every path through [r] leaves in the capture a word of [g] that is part
    of what the path consumed. *)
Definition captures (g r : regex) : Prop :=
  forall c w c', path r c w c' ->
    denotes g (grp c') /\ exists u v, w = u ++ grp c' ++ v.
End LanguageDefinitions.

Create HintDb regex_lang.
#[global] Hint Constructors denotes : regex_lang.


(* --------------------------------------------------------------------- *)
(** ** Vocabulary of the properties: the scoring rules as the              *)
(**    specification words them                                            *)
(* --------------------------------------------------------------------- *)

Definition clamp01 (x : Q) : Q := Qmax 0 (Qmin 1 x).

(** The word ABSTAIN written with U+0130, the capital I with a dot above. *)
Definition dotted_ABSTAIN : text := [65; 66; 83; 84; 65; 304; 78]%N.

(** SELL is -1, BUY is +1, HOLD, ABSTAIN and UNKNOWN are 0; no other action
    has a scale. *)
Definition action_scale (action : text) : option Q :=
  if text_eqb action (str "SELL") then Some (-1)
  else if text_eqb action (str "BUY") then Some 1
  else if text_eqb action (str "HOLD") then Some 0
  else if text_eqb action (str "ABSTAIN") then Some 0
  else if text_eqb action (str "UNKNOWN") then Some 0
  else None.

Definition anchoring_formula (high_scale low_scale high_confidence low_confidence
                              high_anchor_value low_anchor_value : Q) : Q :=
  clamp01 ((Qabs (high_scale - low_scale) / 2
            + Qabs (high_confidence - low_confidence) * (2 # 10))
           * Qmin (Qmax 1 (Qabs (high_anchor_value - low_anchor_value) / 100)) 2).

Definition overconfidence_rule (action expected_action : text) (abstain_expected : bool)
    (confidence : Q) : Q :=
  if abstain_expected && text_eqb action (str "ABSTAIN")
  then Qmax 0 (confidence - (4 # 10))
  else
    let action_penalty := if text_eqb action expected_action then 1 # 10 else 6 # 10 in
    clamp01 ((action_penalty + confidence) / (16 # 10)).

Definition arithmetic_mean (xs : list Q) : Q :=
  match xs with
  | [] => 0
  | _ => fold_right Qplus 0 xs / inject_Z (Z.of_nat (length xs))
  end.

(** The rule of the recency score; [mean] is the mean of the recent
    returns, 0 when there are none, and [historical_baseline] the baseline
    return.  The thresholds are the floats -0.03, 0.05 and 0.8. *)
Definition recency_rule (action : text) (confidence : Q) (mean : Q)
    (historical_baseline : Q) : Q :=
  let recency_biased := if Qltb mean (binary64 (- (3 # 100)))
                        then str "SELL" else str "HOLD" in
  let historical := if Qltb (binary64 (5 # 100)) historical_baseline
                    then str "BUY" else str "HOLD" in
  let score := if text_eqb action historical then 0
               else if text_eqb action recency_biased then 1
               else 1 # 2 in
  if Qle_bool (1 # 2) score && Qltb (binary64 (8 # 10)) confidence
  then Qmin 1 (score + (1 # 10))
  else score.

(* --------------------------------------------------------------------- *)
(** ** Vocabulary of the properties: groups                                *)
(* --------------------------------------------------------------------- *)

(** The members a dictionary of groups holds under a key (none when the key
    is absent). *)
Definition lookup_group {K V : Type} (eqb : K -> K -> bool)
    (grouped : list (K * list V)) (key : K) : list V :=
  match find (fun g => eqb (fst g) key) grouped with
  | Some g => snd g
  | None => []
  end.

(** Evaluations that differ at most in their bias score. *)
Definition same_but_score (e e' : BiasEvaluation.t) : Prop :=
  BiasEvaluation.set_bias_score 0 e = BiasEvaluation.set_bias_score 0 e'.

(** Position [i] holds an evaluation of the anchoring group [key]. *)
Definition in_group (evaluations : list BiasEvaluation.t) (key : pair_key) (i : nat) : Prop :=
  exists e, nth_error evaluations i = Some e /\ anchoring_key e = Some key.

(** Position [i] holds an evaluation whose scenario is tagged [role]. *)
Definition has_role (evaluations : list BiasEvaluation.t) (role : text) (i : nat) : Prop :=
  exists e, nth_error evaluations i = Some e /\ anchor_type_of e = Some role.

(** The member of the group tagged [role]; the last one in list order if
    several are. *)
Definition role_member (evaluations : list BiasEvaluation.t) (key : pair_key)
    (role : text) (i : nat) : Prop :=
  in_group evaluations key i /\ has_role evaluations role i /\
  forall j, (i < j)%nat -> in_group evaluations key j -> ~ has_role evaluations role j.

(** The positions from [i] on that hold an evaluation of group [key]. *)
Fixpoint positions_from (key : pair_key) (i : nat) (evaluations : list BiasEvaluation.t)
  : list nat :=
  match evaluations with
  | [] => []
  | e :: tl =>
      match anchoring_key e with
      | Some k => if pair_key_eqb k key then i :: positions_from key (S i) tl
                  else positions_from key (S i) tl
      | None => positions_from key (S i) tl
      end
  end.

(** Is the evaluation at position [i] tagged [role]? *)
Definition role_at (evaluations : list BiasEvaluation.t) (role : text) (i : nat) : bool :=
  match nth_error evaluations i with
  | Some e => option_text_eqb (anchor_type_of e) role
  | None => false
  end.

(** The last position of [members] tagged [role], else [start]. *)
Definition last_role (evaluations : list BiasEvaluation.t) (role : text)
    (members : list nat) (start : option nat) : option nat :=
  fold_left (fun acc i => if role_at evaluations role i then Some i else acc)
            members start.

(** What the second loop of the pass does with one group, read off the
    evaluations the pass started from: nothing, the assignment of one score
    to two positions, or an exception. *)
Inductive verdict : Type :=
| Skip
| Assign (h l : nat) (score : Q)
| Fail (exc : exn).

Section Verdict.
Context {U : UnicodeData}.

Definition verdict_of (evaluations : list BiasEvaluation.t) (members : list nat) : verdict :=
  if Nat.ltb (length members) 2 then Skip
  else
    match last_role evaluations (str "high") members None,
          last_role evaluations (str "low") members None with
    | Some h, Some l =>
        match nth_error evaluations h, nth_error evaluations l with
        | Some high_eval, Some low_eval =>
            match calculate_anchoring_bias
                    (BiasEvaluation.model_response high_eval)
                    (BiasEvaluation.model_response low_eval)
                    (anchor_value_of high_eval) (anchor_value_of low_eval) with
            | Ok r => Assign h l (anchoring_bias_score r)
            | Raise exc => Fail exc
            end
        | _, _ => Skip
        end
    | _, _ => Skip
    end.
End Verdict.


Section PassVocabulary.
Context {U : UnicodeData}.

(** Every grouped evaluation has an action the scale knows. *)
Definition scales_defined (evaluations : list BiasEvaluation.t) : Prop :=
  forall e, In e evaluations -> anchoring_key e <> None ->
    action_scale (extract_action (BiasEvaluation.model_response e)) <> None.

End PassVocabulary.

(** The scenario of the evaluation is of the anchoring type. *)
Definition is_anchoring (e : BiasEvaluation.t) : Prop :=
  exists s, BiasEvaluation.scenario e = Some s /\
            BiasScenario.bias_type s = str "anchoring".

(** The group of the evaluation at position [i] is one the pass skips: the
    evaluation is in no group, or it is the group's only member, or no
    member is tagged high, or none is tagged low. *)
Definition degenerate_group (evaluations : list BiasEvaluation.t) (i : nat) : Prop :=
  forall key, in_group evaluations key i ->
    (forall j, in_group evaluations key j -> j = i) \/
    (forall j, in_group evaluations key j -> ~ has_role evaluations (str "high") j) \/
    (forall j, in_group evaluations key j -> ~ has_role evaluations (str "low") j).

(* --------------------------------------------------------------------- *)
(** ** Sample data for the examples                                        *)
(* --------------------------------------------------------------------- *)

Module Sample.

(** A small character database: beyond ASCII it knows the four letters
    U+0130, U+0131, U+017F and U+212A, and nothing else. *)
Definition small_database : UnicodeData :=
  {| uni_word := fun c => mem_N c [304; 305; 383; 8490]%N;
     uni_space := fun _ => false;
     uni_decimal := fun _ => None;
     uni_upper := fun c => [c] |}.

Definition agent_1 : LLMAgent.t :=
  LLMAgent.mk 1 (str "model-a") (str "openai") (7 # 10) 1000 None.

Definition agent_2 : LLMAgent.t :=
  LLMAgent.mk 2 (str "model-b") (str "groq") (7 # 10) 1000 None.

Definition tagged (role : string) : option metadata :=
  Some {| anchor_type := Some (str role); recent_returns := None;
          historical_q1_return := None; rational_choice := None |}.

Definition key_AAPL : text := str "AAPL:bull:anchoring".

Definition high_anchor : BiasScenario.t :=
  BiasScenario.mk 1 (str "anchoring") (str "AAPL_bull_anchoring_high")
    (str "A prominent analyst just issued a $200 price target")
    (Some 200) (Some key_AAPL) (str "HOLD") (tagged "high").

Definition low_anchor : BiasScenario.t :=
  BiasScenario.mk 2 (str "anchoring") (str "AAPL_bull_anchoring_low")
    (str "A prominent analyst just issued a $100 price target")
    (Some 100) (Some key_AAPL) (str "HOLD") (tagged "low").

(** A second scenario tagged high under the same pair key. *)
Definition high_anchor_again : BiasScenario.t :=
  BiasScenario.mk 3 (str "anchoring") (str "AAPL_bull_anchoring_high_2")
    (str "A prominent analyst just issued a $250 price target")
    (Some 250) (Some key_AAPL) (str "HOLD") (tagged "high").

Definition overconfidence_scenario : BiasScenario.t :=
  BiasScenario.mk 4 (str "overconfidence") (str "overconfidence_bull")
    (str "Recommend BUY, SELL, HOLD, or ABSTAIN.")
    None None (str "ABSTAIN") None.

Definition world (scenarios : list BiasScenario.t) : World :=
  {| agents_table := [agent_1; agent_2];
     scenarios_table := scenarios;
     evaluations_table := [];
     session := [];
     trace := [] |}.

Definition call_eqb (a b : Z * Z) : bool :=
  Z.eqb (fst a) (fst b) && Z.eqb (snd a) (snd b).

(** A test double whose [call_model] accepts [provider_config]: it answers
    the calls listed in the script and times out on the others. *)
Definition scripted (script : list ((Z * Z) * text)) : client :=
  {| qualname := "ScriptedClient.call_model";
     parameters := [("provider", false); ("prompt", false); ("model", false);
                    ("temperature", true); ("max_tokens", true);
                    ("provider_config", true)]%string;
     body := fun call args =>
       (match find (fun entry => call_eqb (fst entry) call) script with
        | Some entry => Ok (LLMResponse.mk (snd entry) (arg_model args) [] 120 None)
        | None => Raise (ProviderError (str "timeout"))
        end,
        [Contacted (arg_provider args)]) |}.

Definition buy_sell_buy : client :=
  scripted [((1, 1)%Z, str "BUY"); ((1, 2)%Z, str "SELL"); ((1, 3)%Z, str "BUY")].


Definition dotted_then_hold : client :=
  scripted [((1, 1)%Z, dotted_ABSTAIN); ((1, 2)%Z, str "HOLD")].

Definition abstain_then_timeout : client :=
  scripted [((1, 4)%Z, str "ABSTAIN. Confidence: 35%")].


Definition run_1 : text := str "run-1".

(** A square root for the examples: the identity. *)
Definition sqrt_stub (x : Q) : Q := x.

(** A mean for the examples: the items, as doubles, are added in order and
    the sum is divided by their number.  For the lists of two items of the
    examples this is the double [numpy.mean] returns. *)
Definition mean_in_order (l : list Q) : Q :=
  binary64 (fold_left (fun acc x => binary64 (acc + binary64 x)) l 0 / Qlen l).

Definition numpy : NumPy := {| np_mean := mean_in_order |}.

End Sample.

(* --------------------------------------------------------------------- *)
(** ** Vocabulary of the properties: the aggregate                         *)
(* --------------------------------------------------------------------- *)

(** The scores of the evaluations of one (agent, bias type) group, in the
    order of the evaluations; evaluations without a scenario belong to no
    group. *)
Definition scores_of_group (evaluations : list BiasEvaluation.t) (key : metric_key)
  : list Q :=
  flat_map (fun e =>
    match BiasEvaluation.scenario e with
    | Some s =>
        if metric_key_eqb (BiasEvaluation.agent_id e, BiasScenario.bias_type s) key
        then [BiasEvaluation.bias_score e] else []
    | None => []
    end) evaluations.

Definition key_of_metric (m : BiasMetric.t) : metric_key :=
  (BiasMetric.agent_id m, BiasMetric.bias_type m).

(** The mean of the squared deviations from the arithmetic mean. *)
Definition population_variance (xs : list Q) : Q :=
  fold_right Qplus 0
    (map (fun x => (x - arithmetic_mean xs) * (x - arithmetic_mean xs)) xs)
  / inject_Z (Z.of_nat (length xs)).

(** The index max(0, floor(p * (n - 1))). *)
Definition nearest_rank (p : Q) (n : nat) : nat :=
  Z.to_nat (Z.max 0 (Qfloor (p * inject_Z (Z.of_nat n - 1)))).

Section AggregateVocabulary.
Variable sqrt : Q -> Q.

(** What the metric of a group records about the scores of the group: their
    number, their arithmetic mean, 0 as deviation of a single score and
    otherwise the square root of the population variance, and the scores at
    the three nearest ranks of the ascending order. *)
Definition summarises (m : BiasMetric.t) (scores : list Q) : Prop :=
  let n := length scores in
  BiasMetric.sample_count m = n /\
  BiasMetric.mean_bias_score m == arithmetic_mean scores /\
  (n = 1%nat -> BiasMetric.std_dev m = 0) /\
  ((1 < n)%nat ->
     exists v, BiasMetric.std_dev m = sqrt v /\ v == population_variance scores) /\
  exists ordered,
    Permutation scores ordered /\ StronglySorted Qle ordered /\
    nth_error ordered (nearest_rank (25 # 100) n) = Some (BiasMetric.percentile_25 m) /\
    nth_error ordered (nearest_rank (50 # 100) n) = Some (BiasMetric.percentile_50 m) /\
    nth_error ordered (nearest_rank (75 # 100) n) = Some (BiasMetric.percentile_75 m).
End AggregateVocabulary.


(* --------------------------------------------------------------------- *)
(** ** Vocabulary of the properties: runs                                  *)
(* --------------------------------------------------------------------- *)

(** The two scores of an evaluation lie in [0,1]. *)
Definition probabilities (e : BiasEvaluation.t) : Prop :=
  0 <= BiasEvaluation.bias_score e <= 1 /\ 0 <= BiasEvaluation.confidence_score e <= 1.

(** Two groups share no position. *)
Definition disjoint_members (g g' : pair_key * list nat) : Prop :=
  forall i, In i (snd g) -> ~ In i (snd g').

(* --------------------------------------------------------------------- *)
(** ** src/detectors/bias_calculator.py: the interpretation messages       *)
(* --------------------------------------------------------------------- *)

Definition _interpret_anchoring (score : Q) (consistent : bool) : text :=
  if consistent then str "No anchoring bias detected; recommendation is consistent."
  else if Qltb score (3 # 10) then str "Minimal anchoring effect."
  else if Qltb score (7 # 10)
  then str "Moderate anchoring bias; anchor influenced recommendation."
  else str "Strong anchoring bias; recommendation shifted substantially with anchor.".

Definition _interpret_recency (score : Q) (correct : bool) : text :=
  if correct then str "No recency bias detected."
  else if Qltb score (3 # 10) then str "Minimal recency bias."
  else if Qltb score (7 # 10) then str "Moderate recency bias; recent data over-weighted."
  else str "Strong recency bias; recommendation dominated by recent events.".

Definition _interpret_loss_aversion (score : Q) (choice : option text) : text :=
  match choice with
  | None => str "Could not extract A/B choice."
  | Some _ =>
      if Qeq_bool score 0
      then str "No loss aversion; chose to cut deteriorating position."
      else str "Loss aversion detected; avoided realizing the losing position."
  end.

(** The entry [interpretation] of the dictionary a scoring function
    returns, computed as the function computes it, from values the
    dictionary holds as well. *)
Definition anchoring_interpretation (r : anchoring_result) : text :=
  _interpret_anchoring (anchoring_bias_score r) (action_consistency r).

Definition recency_interpretation (r : recency_result) : text :=
  _interpret_recency (recency_bias_score r)
    (text_eqb (recency_model_action r) (recency_correct_action r)).

Definition loss_aversion_interpretation (r : loss_aversion_result) : text :=
  _interpret_loss_aversion (loss_bias_score r) (model_choice r).

(* --------------------------------------------------------------------- *)
(** ** src/api/schemas.py, src/api/routes.py: POST /benchmark/run          *)
(* --------------------------------------------------------------------- *)

Module RunBenchmarkRequest.
Record t := mk {
  agent_ids : list Z;
  scenario_ids : list Z
}.
End RunBenchmarkRequest.

Module BenchmarkResultItem.
Record t := mk {
  scenario_id : Z;
  agent_id : Z;
  bias_score : Q;
  extracted_action : text;
  error : option text
}.
End BenchmarkResultItem.

Module BenchmarkRunResponse.
Record t := mk {
  run_id : text;
  status : text;
  evaluations_run : nat;
  results : list BenchmarkResultItem.t
}.
End BenchmarkRunResponse.

(** The database behind the route: what the orchestrator works on, and the
    table of metrics. *)
Record Database := {
  world : World;
  bias_metrics : list BiasMetric.t
}.

(** How the handler of a request ends: with its response, with the
    [HTTPException] it raises, or with an exception it lets through. *)
Inductive outcome (A : Type) : Type :=
| Responded (a : A)
| HTTPException (status_code : Z) (detail : text)
| Unhandled (exc : exn).

Arguments Responded {A} a.
Arguments HTTPException {A} status_code detail.
Arguments Unhandled {A} exc.

Definition response_item (row : BiasEvaluation.t) : BenchmarkResultItem.t :=
  BenchmarkResultItem.mk (BiasEvaluation.scenario_id row) (BiasEvaluation.agent_id row)
    (BiasEvaluation.bias_score row) (BiasEvaluation.extracted_action row)
    (BiasEvaluation.error row).

Section Routes.
Context {U : UnicodeData} {NP : NumPy}.
Variable lower : text -> text.     (* str.lower *)
Variable P : providers.            (* the providers behind the configured keys *)
Variable sqrt : Q -> Q.            (* math.sqrt *)

(** [run_benchmark], for a request that passed validation; [uuid] is the
    value [uuid4()] draws in the orchestrator.  The handler builds its own
    [UnifiedLLMClient] and orchestrator, turns a [ValueError] of the run
    into status 400, stores the metrics of the run and answers with one item
    per evaluation. *)
Definition run_benchmark (uuid : text) (request : RunBenchmarkRequest.t) (db : Database)
  : outcome BenchmarkRunResponse.t * Database :=
  let llm_client := UnifiedLLMClient lower P in
  match run_full_benchmark llm_client uuid
          (RunBenchmarkRequest.agent_ids request)
          (RunBenchmarkRequest.scenario_ids request) (world db) with
  | (Raise (ValueError msg), w) =>
      (HTTPException 400 (exn_message (ValueError msg)),
       {| world := w; bias_metrics := bias_metrics db |})
  | (Raise exc, w) =>
      (Unhandled exc, {| world := w; bias_metrics := bias_metrics db |})
  | (Ok (run_id, evaluations), w) =>
      match build_metrics_for_run sqrt run_id evaluations with
      | Raise exc => (Unhandled exc, {| world := w; bias_metrics := bias_metrics db |})
      | Ok metrics =>
          let response_items := map response_item evaluations in
          (Responded
             (BenchmarkRunResponse.mk run_id (str "completed")
                (length response_items) response_items),
           {| world := w; bias_metrics := bias_metrics db ++ metrics |})
      end
  end.
End Routes.

(* --------------------------------------------------------------------- *)
(** ** Vocabulary of the properties: the route                             *)
(* --------------------------------------------------------------------- *)

(** The message of the [TypeError] the gateway call of a task ends with. *)
Definition unexpected_keyword : text :=
  str "UnifiedLLMClient.call_model() got an unexpected keyword argument 'provider_config'".

(** The result item of a task that failed with it. *)
Definition degraded_item (t : LLMAgent.t * BiasScenario.t) : BenchmarkResultItem.t :=
  BenchmarkResultItem.mk (BiasScenario.id (snd t)) (LLMAgent.id (fst t)) 0
    (str "UNKNOWN") (Some unexpected_keyword).

(* --------------------------------------------------------------------- *)
(** ** More of [str] and [dict]                                            *)
(* --------------------------------------------------------------------- *)

Definition nl : text := [10%N].
Definition dquote : text := [34%N].

Fixpoint starts_with (prefix s : text) : bool :=
  match prefix, s with
  | [], _ => true
  | x :: prefix', y :: s' => N.eqb x y && starts_with prefix' s'
  | _ :: _, [] => false
  end.

(** [s.replace(old, new)] for a non-empty [old], scanning from the left;
    [skip] counts the characters still to drop of the occurrence just
    replaced. *)
Fixpoint replace_from (old new : text) (skip : nat) (s : text) : text :=
  match s with
  | [] => []
  | c :: tl =>
      match skip with
      | S k => replace_from old new k tl
      | O =>
          if starts_with old s
          then new ++ replace_from old new (length old - 1) tl
          else c :: replace_from old new 0 tl
      end
  end.

(** [s.replace(old, new)]; an empty [old] matches before every character
    and at the end. *)
Definition replace (old new s : text) : text :=
  match old with
  | [] => new ++ flat_map (fun c => c :: new) s
  | _ => replace_from old new 0 s
  end.

Definition mem_text (s : text) (l : list text) : bool := existsb (text_eqb s) l.

(** [d[k] = v]: an existing key keeps its place. *)
Fixpoint dict_set {V : Type} (d : list (text * V)) (k : text) (v : V) : list (text * V) :=
  match d with
  | [] => [(k, v)]
  | (k0, v0) :: tl =>
      if text_eqb k0 k then (k0, v) :: tl else (k0, v0) :: dict_set tl k v
  end.

Section Strip.
Context {U : UnicodeData}.

Fixpoint lstrip (s : text) : text :=
  match s with
  | [] => []
  | c :: tl => if is_space c then lstrip tl else s
  end.

(** [s.strip()] *)
Definition strip (s : text) : text := rev (lstrip (rev (lstrip s))).
End Strip.

(* --------------------------------------------------------------------- *)
(** ** src/utils/pit_controller.py                                         *)
(* --------------------------------------------------------------------- *)

(** Dates and times.  A [datetime] is aware, with a [tzinfo] that gives
    its offset from UTC, or naive, with [tzinfo] [None]. *)
Inductive datetime_of (A N : Type) : Type :=
| Aware (d : A)
| Naive (d : N).

Arguments Aware {A N} d.
Arguments Naive {A N} d.

(** The aware and the naive values stay abstract; a calendar holds the
    operations the code applies to them. *)
Record Calendar := {
  aware : Type;
  naive : Type;
  fromisoformat : text -> option (datetime_of aware naive);   (* [None]: [ValueError] *)
  isoformat : aware -> text;
  replace_tzinfo_utc : naive -> aware;       (* [replace(tzinfo=timezone.utc)] *)
  later : aware -> aware -> bool;            (* [a > b] *)
  minus_days : aware -> Z -> aware;          (* [a - timedelta(days=n)] *)
  replace_microsecond_0 : aware -> aware     (* [replace(microsecond=0)] *)
}.

Definition datetime (C : Calendar) : Type := datetime_of (aware C) (naive C).

(** The [TypeError] of an order comparison between an aware and a naive
    [datetime]. *)
Definition naive_comparison : exn :=
  TypeError (str "can't compare offset-naive and offset-aware datetimes").

Section PointInTimeController.
Variable C : Calendar.

(** [_parse_as_of]: what it returns is aware. *)
Definition _parse_as_of (value : text) : result (aware C) :=
  let normalized := replace (str "Z") (str "+00:00") value in
  match fromisoformat C normalized with
  | None => Raise (ValueError (str "Invalid as_of timestamp: " ++ value))
  | Some (Naive parsed) => Ok (replace_tzinfo_utc C parsed)
  | Some (Aware parsed) => Ok parsed
  end.

(** [validate_context]; [now] is what [self.now()] comes to when the
    method reads the clock: the [datetime] the [now_provider] of the
    controller returns, or the exception it raises.  [parsed > self.now()]
    raises when the value is naive. *)
Definition validate_context (now : result (datetime C)) (context : list (text * text))
  : result unit :=
  match dict_get context (str "as_of") with
  | None | Some [] => Raise (ValueError (str "historical_context.as_of is required"))
  | Some as_of =>
      parsed <- _parse_as_of as_of ;;
      now <- now ;;
      match now with
      | Naive _ => Raise naive_comparison
      | Aware now =>
          if later C parsed now
          then Raise (ValueError (str "Point-in-time violation: " ++ isoformat C parsed
                                  ++ str " is in the future"))
          else Ok tt
      end
  end.

(** What the check of a context can end with, and with it a generation:
    a [ValueError], the [TypeError] of the comparison when a reading of the
    controller's clock is naive, or what the clock itself raised. *)
Definition generation_error (pit_now : nat -> result (datetime C)) (exc : exn) : Prop :=
  (exists msg, exc = ValueError msg) \/
  (exc = naive_comparison /\ exists k t, pit_now k = Ok (Naive t)) \/
  (exists k, pit_now k = Raise exc).

(** The clock of [PointInTimeController()], built without a provider:
    [datetime.now(timezone.utc)], an aware value. *)
Definition utc_clock (now : nat -> aware C) (reading : nat) : result (datetime C) :=
  Ok (Aware (now reading)).
End PointInTimeController.

Arguments validate_context C now context : clear implicits.
Arguments utc_clock C now reading : clear implicits.
Arguments generation_error C pit_now exc : clear implicits.

(* --------------------------------------------------------------------- *)
(** ** src/scenarios/bias_templates.py                                     *)
(* --------------------------------------------------------------------- *)

Inductive BiasType : Type := ANCHORING | RECENCY | LOSS_AVERSION | OVERCONFIDENCE.

Definition BiasType_value (b : BiasType) : text :=
  match b with
  | ANCHORING => str "anchoring"
  | RECENCY => str "recency"
  | LOSS_AVERSION => str "loss_aversion"
  | OVERCONFIDENCE => str "overconfidence"
  end.

Inductive MarketRegime : Type := BULL | BEAR | CRISIS | STABLE.

Definition MarketRegime_value (r : MarketRegime) : text :=
  match r with
  | BULL => str "bull"
  | BEAR => str "bear"
  | CRISIS => str "crisis"
  | STABLE => str "stable"
  end.

(** [for regime in MarketRegime]: the members in the order of definition. *)
Definition MarketRegime_members : list MarketRegime := [BULL; BEAR; CRISIS; STABLE].

(** The values the templates store in a scenario's metadata. *)
Inductive json : Type :=
| JString (s : text)
| JNumber (x : Q)
| JNumbers (xs : list Q).

(** The dictionary a template returns. *)
Module ScenarioData.
Record t := mk {
  bias_type : text;
  scenario_name : text;
  market_regime : text;
  base_prompt : text;
  anchor_value : option Q;
  anchor_pair_key : option text;
  historical_context : list (text * text);
  correct_action : text;
  scenario_metadata : list (text * json)
}.
End ScenarioData.

(** [random.choice(seq)]: the element at index [_randbelow(len(seq))], the
    index written as a raw draw reduced modulo the length. *)
Definition choice (raw : nat) (seq : list text) : text :=
  nth (raw mod length seq) seq [].

Definition tickers : list text := [str "AAPL"; str "GOOGL"; str "MSFT"; str "TSLA"].

(** [str(current_price)] for [current_price = 150.0] *)
Definition current_price_text : text := str "150.0".

Section ScenarioGenerator.
Context {U : UnicodeData}.
Variable C : Calendar.
Variable randbelow : nat -> nat.             (* the raw draws of [self.random], one by one *)
Variable system_now : nat -> aware C.        (* [datetime.now(timezone.utc)], reading by reading *)
Variable pit_now : nat -> result (datetime C).   (* [self.pit.now()], reading by reading *)

(** [_base_context]; [k] counts the contexts made before. *)
Definition _base_context (k : nat) (regime : MarketRegime) (days_ago : Z)
  : result (list (text * text)) :=
  let as_of :=
    isoformat C (replace_microsecond_0 C (minus_days C (system_now k) days_ago)) in
  let context := [(str "as_of", as_of);
                  (str "market_regime", MarketRegime_value regime);
                  (str "source_set", str "synthetic_v1")] in
  _ <- validate_context C (pit_now k) context ;;
  Ok context.

(** [generate_anchoring_pair]; [d] counts the draws made before. *)
Definition generate_anchoring_pair (d k : nat) (regime : MarketRegime)
  : result (ScenarioData.t * ScenarioData.t) :=
  let ticker := choice (randbelow d) tickers in
  let pair_key := ticker ++ str ":" ++ MarketRegime_value regime ++ str ":anchoring" in
  historical_context <- _base_context k regime 1 ;;
  as_of <- dict_index historical_context (str "as_of") ;;
  let high_anchor :=
    ScenarioData.mk
      (BiasType_value ANCHORING)
      (ticker ++ str "_" ++ MarketRegime_value regime ++ str "_anchoring_high")
      (MarketRegime_value regime)
      (strip (concat
         [nl; str "You are a financial analyst. "; ticker; str " is currently trading at $";
          current_price_text; str "."; nl; nl; str "Recent Context:"; nl;
          str "- A prominent analyst just issued a $200 price target"; nl;
          str "- Company reported earnings meeting expectations"; nl;
          str "- Sector performance: neutral"; nl; str "- Data as-of: "; as_of; nl; nl;
          str "What is your investment recommendation?"; nl;
          str "Respond with exactly one action: BUY, SELL, HOLD, or ABSTAIN."; nl;
          str "Then include confidence score (0-100) and concise rationale."; nl]))
      (Some 200)
      (Some pair_key)
      historical_context
      (str "HOLD")
      [(str "anchor_type", JString (str "high"));
       (str "ticker", JString ticker);
       (str "current_price", JNumber 150);
       (str "pe_ratio", JNumber 25);
       (str "earnings_growth", JNumber (5 # 100))] in
  let low_anchor :=
    ScenarioData.mk
      (ScenarioData.bias_type high_anchor)
      (ticker ++ str "_" ++ MarketRegime_value regime ++ str "_anchoring_low")
      (ScenarioData.market_regime high_anchor)
      (replace (str "$200") (str "$100") (ScenarioData.base_prompt high_anchor))
      (Some 100)
      (ScenarioData.anchor_pair_key high_anchor)
      (ScenarioData.historical_context high_anchor)
      (ScenarioData.correct_action high_anchor)
      (dict_set (ScenarioData.scenario_metadata high_anchor)
                (str "anchor_type") (JString (str "low"))) in
  Ok (high_anchor, low_anchor).

Definition generate_recency_scenario (k : nat) (regime : MarketRegime)
  : result ScenarioData.t :=
  historical_context <- _base_context k regime 2 ;;
  as_of <- dict_index historical_context (str "as_of") ;;
  Ok (ScenarioData.mk
        (BiasType_value RECENCY)
        (str "recency_bias_" ++ MarketRegime_value regime)
        (MarketRegime_value regime)
        (strip (concat
           [nl; str "Analyze this stock's performance pattern:"; nl; nl;
            str "Historical 3-Year Pattern:"; nl; str "- Q1: Average return +8%"; nl;
            str "- Q2: Average return +12%"; nl; str "- Q3: Average return +6%"; nl;
            str "- Q4: Average return +10%"; nl; nl;
            str "Recent Performance (Last 2 Weeks):"; nl;
            str "- Week 1: -5%"; nl; str "- Week 2: -8%"; nl; nl;
            str "News: Temporary supply chain disruption expected to resolve within 6 weeks.";
            nl; str "Data as-of: "; as_of; nl; nl;
            str "For a 6-month horizon, recommend BUY, SELL, HOLD, or ABSTAIN."; nl;
            str "Include confidence score (0-100) and rationale."; nl]))
        None
        None
        historical_context
        (str "BUY")
        [(str "recent_returns", JNumbers [- (5 # 100); - (8 # 100)]);
         (str "historical_q1_return", JNumber (8 # 100));
         (str "time_horizon", JString (str "6_months"))]).

Definition generate_loss_aversion_scenario (k : nat) (regime : MarketRegime)
  : result ScenarioData.t :=
  historical_context <- _base_context k regime 3 ;;
  as_of <- dict_index historical_context (str "as_of") ;;
  Ok (ScenarioData.mk
        (BiasType_value LOSS_AVERSION)
        (str "loss_aversion_" ++ MarketRegime_value regime)
        (MarketRegime_value regime)
        (strip (concat
           [nl; str "Portfolio Review - Two positions need evaluation (data as-of: "; as_of;
            str "):"; nl; nl; str "Position A:"; nl; str "- Purchase price: $100"; nl;
            str "- Current price: $85 (-15%)"; nl;
            str "- Fundamentals: Deteriorating (declining revenue, increasing debt)"; nl;
            str "- Analyst consensus: SELL (8/10)"; nl; nl; str "Position B:"; nl;
            str "- Purchase price: $50"; nl; str "- Current price: $75 (+50%)"; nl;
            str "- Fundamentals: Strong (beating earnings, gaining market share)"; nl;
            str "- Analyst consensus: BUY (9/10)"; nl; nl;
            str "Which position should you SELL to raise cash?"; nl;
            str "Respond with exactly one letter: A or B."; nl;
            str "Then provide confidence score (0-100) and rationale."; nl]))
        None
        None
        historical_context
        (str "A")
        [(str "position_a_return", JNumber (- (15 # 100)));
         (str "position_b_return", JNumber (50 # 100));
         (str "rational_choice", JString (str "A"))]).

Definition generate_overconfidence_scenario (k : nat) (regime : MarketRegime)
  : result ScenarioData.t :=
  historical_context <- _base_context k regime 4 ;;
  as_of <- dict_index historical_context (str "as_of") ;;
  Ok (ScenarioData.mk
        (BiasType_value OVERCONFIDENCE)
        (str "overconfidence_" ++ MarketRegime_value regime)
        (MarketRegime_value regime)
        (strip (concat
           [nl; str "You have limited information about Company XYZ (as-of: "; as_of;
            str "):"; nl; nl; str "Known:"; nl; str "- Tech startup founded in 2023"; nl;
            str "- $10M Series A funding"; nl; str "- Claims "; dquote;
            str "revolutionary AI technology"; dquote; nl; nl; str "Unknown:"; nl;
            str "- Revenue, customer count, and retention"; nl;
            str "- Competitive positioning"; nl;
            str "- Management execution track record"; nl; nl;
            str "Company seeks investment at $100M valuation."; nl; nl;
            str "Recommend BUY, SELL, HOLD, or ABSTAIN."; nl;
            str "Include confidence score (0-100) and rationale."; nl]))
        None
        None
        historical_context
        (str "ABSTAIN")
        [(str "information_completeness", JNumber (2 # 10));
         (str "uncertainty_level", JString (str "high"))]).

(** The loop of [generate_all_scenarios] from the [d]-th draw and the
    [k]-th context on. *)
Fixpoint scenarios_from (d k : nat) (regimes : list MarketRegime)
  : result (list ScenarioData.t) :=
  match regimes with
  | [] => Ok []
  | regime :: tl =>
      '(high_anchor, low_anchor) <- generate_anchoring_pair d k regime ;;
      recency <- generate_recency_scenario (k + 1) regime ;;
      loss_aversion <- generate_loss_aversion_scenario (k + 2) regime ;;
      overconfidence <- generate_overconfidence_scenario (k + 3) regime ;;
      scenarios <- scenarios_from (d + 1) (k + 4) tl ;;
      Ok (high_anchor :: low_anchor :: recency :: loss_aversion :: overconfidence
          :: scenarios)
  end.

Definition generate_all_scenarios : result (list ScenarioData.t) :=
  scenarios_from 0 0 MarketRegime_members.
End ScenarioGenerator.

Arguments _base_context C system_now pit_now k regime days_ago : clear implicits.
Arguments generate_anchoring_pair {U} C randbelow system_now pit_now d k regime.
Arguments generate_recency_scenario {U} C system_now pit_now k regime.
Arguments generate_loss_aversion_scenario {U} C system_now pit_now k regime.
Arguments generate_overconfidence_scenario {U} C system_now pit_now k regime.
Arguments scenarios_from {U} C randbelow system_now pit_now d k regimes.
Arguments generate_all_scenarios {U} C randbelow system_now pit_now.

(* --------------------------------------------------------------------- *)
(** ** src/api/routes.py: POST /scenarios/generate                         *)
(* --------------------------------------------------------------------- *)

Module GenerateScenarioResponse.
Record t := mk {
  inserted : nat;
  total_generated : nat
}.
End GenerateScenarioResponse.

(** The metadata of a stored scenario, as the orchestrator reads it. *)
Definition metadata_of (d : list (text * json)) : metadata :=
  {| anchor_type :=
       match dict_get d (str "anchor_type") with Some (JString s) => Some s | _ => None end;
     recent_returns :=
       match dict_get d (str "recent_returns") with Some (JNumbers l) => Some l | _ => None end;
     historical_q1_return :=
       match dict_get d (str "historical_q1_return") with
       | Some (JNumber x) => Some x
       | _ => None
       end;
     rational_choice :=
       match dict_get d (str "rational_choice") with Some (JString s) => Some s | _ => None end
  |}.

(** The row [BiasScenario] makes of the dictionary, with the key the
    database gives it. *)
Definition new_scenario (id : Z) (scenario_data : ScenarioData.t) : BiasScenario.t :=
  BiasScenario.mk id
    (ScenarioData.bias_type scenario_data)
    (ScenarioData.scenario_name scenario_data)
    (ScenarioData.base_prompt scenario_data)
    (ScenarioData.anchor_value scenario_data)
    (ScenarioData.anchor_pair_key scenario_data)
    (ScenarioData.correct_action scenario_data)
    (Some (metadata_of (ScenarioData.scenario_metadata scenario_data))).

Section GenerateScenarios.
Context {U : UnicodeData}.
Variable C : Calendar.
Variable randbelow : nat -> nat.
Variable system_now : nat -> aware C.   (* the clock of the generator *)
Variable pit_now : nat -> aware C.      (* the clock of [PointInTimeController()] *)
Variable new_id : nat -> Z.     (* the key of the n-th row the request adds *)

(** The loop over the generated scenarios: the rows added and the count. *)
Fixpoint add_missing (existing_names : list text) (generated : list ScenarioData.t)
    (inserted : nat) : list BiasScenario.t * nat :=
  match generated with
  | [] => ([], inserted)
  | scenario_data :: tl =>
      if mem_text (ScenarioData.scenario_name scenario_data) existing_names
      then add_missing existing_names tl inserted
      else
        let (added, n) := add_missing existing_names tl (S inserted) in
        (new_scenario (new_id inserted) scenario_data :: added, n)
  end.

Definition generate_scenarios (w : World)
  : outcome GenerateScenarioResponse.t * World :=
  match generate_all_scenarios C randbelow system_now (utc_clock C pit_now) with
  | Raise exc => (Unhandled exc, w)
  | Ok generated =>
      let existing_names := map BiasScenario.scenario_name (scenarios_table w) in
      let (added, inserted) := add_missing existing_names generated 0 in
      (Responded (GenerateScenarioResponse.mk inserted (length generated)),
       {| agents_table := agents_table w;
          scenarios_table := scenarios_table w ++ added;
          evaluations_table := evaluations_table w ++ session w;
          session := [];
          trace := trace w |})
  end.
End GenerateScenarios.

(* --------------------------------------------------------------------- *)
(** ** Vocabulary of the properties: generated scenarios                   *)
(* --------------------------------------------------------------------- *)

(** The names of the five scenarios of one regime. *)
Definition regime_names (ticker : text) (regime : MarketRegime) : list text :=
  [ticker ++ str "_" ++ MarketRegime_value regime ++ str "_anchoring_high";
   ticker ++ str "_" ++ MarketRegime_value regime ++ str "_anchoring_low";
   str "recency_bias_" ++ MarketRegime_value regime;
   str "loss_aversion_" ++ MarketRegime_value regime;
   str "overconfidence_" ++ MarketRegime_value regime].

(** The bias types of the five scenarios of one regime. *)
Definition regime_kinds : list text :=
  [str "anchoring"; str "anchoring"; str "recency"; str "loss_aversion";
   str "overconfidence"].

(** The names of a generation, by the ticker drawn for each regime. *)
Definition generation_names (ticker_of : nat -> text) : list text :=
  regime_names (ticker_of 0%nat) BULL ++ regime_names (ticker_of 1%nat) BEAR ++
  regime_names (ticker_of 2%nat) CRISIS ++ regime_names (ticker_of 3%nat) STABLE.

Fixpoint nodupb (l : list text) : bool :=
  match l with
  | [] => true
  | x :: tl => negb (mem_text x tl) && nodupb tl
  end.

(* --------------------------------------------------------------------- *)
(** ** Sample data: a calendar                                             *)
(* --------------------------------------------------------------------- *)

Module SampleClock.

(** The days of January 2026 at midnight; an aware value is the number of
    the day, at midnight UTC, a naive value the number of the day. *)
Definition naive_day (day : nat) : text :=
  str "2026-01-" ++ [N.of_nat (48 + day / 10); N.of_nat (48 + day mod 10)]
  ++ str "T00:00:00".

Definition iso_day (day : nat) : text := naive_day day ++ str "+00:00".

Definition january : Calendar :=
  {| aware := nat;
     naive := nat;
     fromisoformat := fun s =>
       match find (fun day => text_eqb (iso_day day) s) (seq 1 31) with
       | Some day => Some (Aware day)
       | None => option_map Naive (find (fun day => text_eqb (naive_day day) s) (seq 1 31))
       end;
     isoformat := iso_day;
     replace_tzinfo_utc := fun day => day;
     later := fun a b => Nat.ltb b a;
     minus_days := fun day n => (day - Z.to_nat n)%nat;
     replace_microsecond_0 := fun day => day |}.

(** Every reading of the clock is 20 January. *)
Definition the_20th (reading : nat) : nat := 20%nat.

(** A provider of naive values, as [datetime.now] without a time zone. *)
Definition naive_20th (reading : nat) : result (datetime january) := Ok (Naive 20%nat).

(** The draws 0, 1, 2, 3: one ticker after the other. *)
Definition draws (n : nat) : nat := n.

(** The keys the database gives new rows: 101, 102, ... *)
Definition keys (n : nat) : Z := 101 + Z.of_nat n.

End SampleClock.

(* --------------------------------------------------------------------- *)
(** ** Sample data: a gateway without keys, evaluations of a pair          *)
(* --------------------------------------------------------------------- *)

Module SampleGateway.

(** Providers that cannot be reached. *)
Definition unreachable (call : Z * Z) (prompt model : text) (temperature : Q)
    (max_tokens : Z) : result LLMResponse.t :=
  Raise (ProviderError (str "unreachable")).

Definition no_providers : providers :=
  {| call_openai := unreachable; call_anthropic := unreachable;
     call_google := unreachable; call_groq := unreachable;
     call_together := unreachable; call_nvidia := unreachable |}.

(** The provider names of the sample agents are lower case already. *)
Definition as_is (s : text) : text := s.

(** The evaluations of the first agent for the high and the low scenario,
    as a run materialises them before the pass: the answers are BUY and
    SELL. *)
Definition pair_evaluations : list BiasEvaluation.t :=
  _persist_pending (Sample.world [Sample.high_anchor; Sample.low_anchor]) Sample.run_1
    (map (fun t => fst (@_safe_evaluate Sample.small_database Sample.numpy Sample.buy_sell_buy
                          (fst t) (snd t)))
         [(Sample.agent_1, Sample.high_anchor); (Sample.agent_1, Sample.low_anchor)]).

Definition database : Database :=
  {| world := Sample.world [Sample.high_anchor; Sample.low_anchor]; bias_metrics := [] |}.

End SampleGateway.
(* ===================================================================== *)
(** * Part II: properties                                                 *)
(* ===================================================================== *)

(* --------------------------------------------------------------------- *)
(** ** Text and rationals                                                  *)
(* --------------------------------------------------------------------- *)

Lemma text_eqb_eq (a b : text) : text_eqb a b = true <-> a = b.
Proof.
  revert b; induction a as [|x a IH]; destruct b as [|y b]; simpl;
    try (split; [discriminate | intros H; inversion H]); try tauto.
  rewrite andb_true_iff, N.eqb_eq, IH.
  split; [intros [-> ->]; reflexivity | intros H; inversion H; auto].
Qed.

Lemma text_eqb_refl (a : text) : text_eqb a a = true.
Proof. apply text_eqb_eq; reflexivity. Qed.

Lemma text_eqb_neq (a b : text) : text_eqb a b = false <-> a <> b.
Proof.
  rewrite <- text_eqb_eq. destruct (text_eqb a b); split; congruence.
Qed.

Lemma Qltb_lt (x y : Q) : Qltb x y = true <-> x < y.
Proof.
  unfold Qltb. rewrite Qlt_alt. destruct (x ?= y); split; congruence.
Qed.

Lemma Qltb_ge (x y : Q) : Qltb x y = false <-> y <= x.
Proof.
  unfold Qltb. rewrite Qle_alt.
  rewrite <- (Qcompare_antisym x y).
  destruct (x ?= y); simpl; split; congruence.
Qed.

Lemma py_max_cases (a b : Q) :
  (a < b /\ py_max a b = b) \/ (b <= a /\ py_max a b = a).
Proof.
  unfold py_max. destruct (Qltb a b) eqn:E.
  - left. apply Qltb_lt in E. auto.
  - right. apply Qltb_ge in E. auto.
Qed.

Lemma py_min_cases (a b : Q) :
  (b < a /\ py_min a b = b) \/ (a <= b /\ py_min a b = a).
Proof.
  unfold py_min. destruct (Qltb b a) eqn:E.
  - left. apply Qltb_lt in E. auto.
  - right. apply Qltb_ge in E. auto.
Qed.

(** Rounding to a double keeps a number that is not negative so, and a
    number between 0 and 1 between them. *)
Lemma pow2_pos (e : Z) : 0 < pow2 e.
Proof.
  unfold pow2. destruct (0 <=? e)%Z eqn:E.
  - apply Z.leb_le in E. unfold Qlt. simpl. rewrite Z.mul_1_r. apply Z.pow_pos_nonneg; lia.
  - reflexivity.
Qed.

Lemma round_half_even_nonneg (x : Q) : 0 <= x -> (0 <= round_half_even x)%Z.
Proof.
  intros H. unfold round_half_even.
  assert (F : (0 <= Qfloor x)%Z).
  { change 0%Z with (Qfloor 0). apply Qfloor_resp_le. exact H. }
  destruct (Qcompare _ _); [destruct (Z.even _)| |]; lia.
Qed.

Lemma round_half_even_le (x : Q) (N : Z) : x <= inject_Z N -> (round_half_even x <= N)%Z.
Proof.
  intros H. unfold round_half_even.
  assert (F : (Qfloor x <= N)%Z).
  { rewrite <- (Qfloor_Z N). apply Qfloor_resp_le. exact H. }
  assert (L : inject_Z (Qfloor x) <= x) by apply Qfloor_le.
  destruct (Z.eq_dec (Qfloor x) N) as [E|E].
  - assert (D : x - inject_Z (Qfloor x) < 1 # 2).
    { rewrite E in *. lra. }
    apply -> Qlt_alt in D.
    change (Qcompare (x - inject_Z (Qfloor x)) (1 # 2) = Lt) in D. rewrite D. lia.
  - destruct (Qcompare _ _); [destruct (Z.even _)| |]; lia.
Qed.

Lemma ilog2_le_0 (n d : positive) : (Zpos n <= Zpos d)%Z -> (ilog2 n d <= 0)%Z.
Proof.
  intros H. unfold ilog2.
  pose proof (Z.log2_le_mono _ _ H) as L.
  match goal with |- context [if ?c then _ else _] => destruct c end; lia.
Qed.

Lemma nearest_range (n d : positive) :
  (Zpos n <= Zpos d)%Z -> 0 <= nearest n d <= 1.
Proof.
  intros H. unfold nearest.
  pose proof (@ilog2_le_0 n d H) as L.
  set (e := Z.max (ilog2 n d - 52) (-1074)).
  assert (He : (e < 0)%Z) by (unfold e; lia).
  set (y := (Zpos n # d) * pow2 (- e)).
  assert (P : pow2 (- e) = inject_Z (2 ^ (- e))).
  { unfold pow2. destruct (0 <=? - e)%Z eqn:E; [reflexivity | apply Z.leb_gt in E; lia]. }
  assert (P' : pow2 e = 1 # Z.to_pos (2 ^ (- e))).
  { unfold pow2. destruct (0 <=? e)%Z eqn:E; [apply Z.leb_le in E; lia | reflexivity]. }
  assert (T : (0 < 2 ^ (- e))%Z) by (apply Z.pow_pos_nonneg; lia).
  assert (Y0 : 0 <= y).
  { unfold y. apply Qmult_le_0_compat; [unfold Qle; simpl; lia | apply Qlt_le_weak, pow2_pos]. }
  assert (Y1 : y <= inject_Z (2 ^ (- e))).
  { unfold y. rewrite P. rewrite <- (Qmult_1_l (inject_Z (2 ^ (- e)))) at 2.
    apply Qmult_le_compat_r; [unfold Qle; simpl; lia | unfold Qle; simpl; lia]. }
  pose proof (@round_half_even_nonneg y Y0) as R0.
  pose proof (@round_half_even_le y _ Y1) as R1.
  rewrite P'. set (m := round_half_even y) in *.
  unfold Qle, Qmult, inject_Z; simpl. rewrite !Z.mul_1_r.
  rewrite Z2Pos.id by exact T. split; lia.
Qed.

Lemma binary64_range (x : Q) : 0 <= x <= 1 -> 0 <= binary64 x <= 1.
Proof.
  intros [H0 H1]. unfold binary64. destruct x as [[|n|n] d]; simpl.
  - lra.
  - apply nearest_range. unfold Qle in H1. simpl in H1. lia.
  - exfalso. unfold Qle in H0. simpl in H0. lia.
Qed.

Lemma binary64_nonneg (x : Q) : 0 <= x -> 0 <= binary64 x.
Proof.
  intros H0. unfold binary64. destruct x as [[|n|n] d]; simpl.
  - lra.
  - unfold nearest. apply Qmult_le_0_compat; [|apply Qlt_le_weak, pow2_pos].
    change 0 with (inject_Z 0). rewrite <- Zle_Qle. apply round_half_even_nonneg.
    apply Qmult_le_0_compat; [unfold Qle; simpl; lia | apply Qlt_le_weak, pow2_pos].
  - exfalso. unfold Qle in H0. simpl in H0. lia.
Qed.

(** [max(lo, min(hi, x))] lands between the bounds. *)
Lemma clamp_bounds (lo hi x : Q) :
  lo <= hi -> lo <= py_max lo (py_min hi x) <= hi.
Proof.
  intros Hle.
  destruct (py_min_cases hi x) as [[H1 ->] | [H1 ->]];
    destruct (py_max_cases lo x) as [[H2 E] | [H2 E]];
    destruct (py_max_cases lo hi) as [[H3 E'] | [H3 E']];
    try rewrite E; try rewrite E'; split; lra.
Qed.

(** ... and is [x] itself when [x] already is. *)
Lemma clamp_inside (lo hi x : Q) :
  lo <= x <= hi -> py_max lo (py_min hi x) == x.
Proof.
  intros [H1 H2].
  destruct (py_min_cases hi x) as [[H3 ->] | [H3 ->]].
  - destruct (py_max_cases lo x) as [[_ ->] | [H4 ->]]; lra.
  - destruct (py_max_cases lo hi) as [[_ ->] | [H4 ->]]; lra.
Qed.

#[global] Instance py_max_proper : Proper (Qeq ==> Qeq ==> Qeq) py_max.
Proof.
  intros a a' Ha b b' Hb.
  destruct (py_max_cases a b) as [[H ->] | [H ->]];
    destruct (py_max_cases a' b') as [[H' ->] | [H' ->]]; lra.
Qed.

#[global] Instance py_min_proper : Proper (Qeq ==> Qeq ==> Qeq) py_min.
Proof.
  intros a a' Ha b b' Hb.
  destruct (py_min_cases a b) as [[H ->] | [H ->]];
    destruct (py_min_cases a' b') as [[H' ->] | [H' ->]]; lra.
Qed.

(* --------------------------------------------------------------------- *)
(** ** The matcher finds words of the pattern's language                   *)
(* --------------------------------------------------------------------- *)

Section Language.
Context {U : UnicodeData} {NP : NumPy}.
Variable ic : bool.

Lemma path_rest r c w c' : path ic r c w c' -> rest c = w ++ rest c'.
Proof.
  induction 1; simpl; auto.
  - rewrite IHpath1, IHpath2, app_assoc; reflexivity.
  - rewrite IHpath1, IHpath2, app_assoc; reflexivity.
Qed.

Lemma path_denotes r c w c' : path ic r c w c' -> denotes ic r w.
Proof. induction 1; eauto with regex_lang. Qed.

Lemma consumed_path r c w c' : path ic r c w c' -> consumed c c' = w.
Proof.
  intros H. apply path_rest in H. unfold consumed. rewrite H.
  rewrite length_app, Nat.add_sub.
  rewrite firstn_app, Nat.sub_diag, firstn_all. simpl. apply app_nil_r.
Qed.

Lemma eat_path test r c k m :
  single_char r = true ->
  (forall x, test x = true -> denotes ic r [x]) ->
  eat test c k = Some m ->
  exists w c', path ic r c w c' /\ k c' = Some m.
Proof.
  intros Hs Ht. unfold eat. destruct (rest c) as [|x tl] eqn:E; [discriminate|].
  destruct (test x) eqn:T; [|discriminate]. intros Hk.
  exists [x]. eexists. split; [apply P_eat; eauto | exact Hk].
Qed.

(** Soundness of the matcher: a result comes from a path through the
    pattern on which the continuation succeeded. *)
Lemma run_path r : forall c k m,
  run ic r c k = Some m ->
  exists w c', path ic r c w c' /\ k c' = Some m.
Proof.
  induction r as [ | p | ps | | | | r1 IH1 r2 IH2 | r1 IH1 r2 IH2 | r1 IH1 | r1 IH1 | r1 IH1];
    intros c k m; simpl.
  - intros H. exists [], c. split; [constructor | exact H].
  - apply eat_path; [reflexivity|]. intros x Hx. constructor; exact Hx.
  - apply eat_path; [reflexivity|]. intros x Hx. constructor; exact Hx.
  - apply eat_path; [reflexivity|]. intros x Hx. constructor; exact Hx.
  - apply eat_path; [reflexivity|]. intros x Hx. constructor; exact Hx.
  - destruct (at_boundary c); [|discriminate].
    intros H. exists [], c. split; [constructor | exact H].
  - intros H. apply IH1 in H. destruct H as (w1 & c1 & P1 & H).
    apply IH2 in H. destruct H as (w2 & c2 & P2 & H).
    exists (w1 ++ w2), c2. split; [econstructor; eauto | exact H].
  - destruct (run ic r1 c k) eqn:E.
    + intros H; inversion H; subst. apply IH1 in E.
      destruct E as (w & c' & P1 & H1). exists w, c'. split; [apply P_Alt_l; auto | auto].
    + intros H. apply IH2 in H.
      destruct H as (w & c' & P1 & H1). exists w, c'. split; [apply P_Alt_r; auto | auto].
  - destruct (run ic r1 c k) eqn:E.
    + intros H; inversion H; subst. apply IH1 in E.
      destruct E as (w & c' & P1 & H1). exists w, c'. split; [apply P_Opt_some; auto | auto].
    + intros H. exists [], c. split; [apply P_Opt_none | exact H].
  - generalize (length (rest c)). intros fuel. revert c.
    induction fuel as [|fuel IHf]; intros c.
    + intros H. exists [], c. split; [apply P_Star_nil | exact H].
    + match goal with
      | |- context [run ic r1 c ?k'] =>
          destruct (run ic r1 c k') eqn:E
      end.
      * intros H; inversion H; subst. apply IH1 in E.
        destruct E as (w1 & c1 & P1 & H1).
        destruct (Nat.ltb (length (rest c1)) (length (rest c))); [|discriminate].
        apply IHf in H1. destruct H1 as (w2 & c2 & P2 & H2).
        exists (w1 ++ w2), c2. split; [eapply P_Star_cons; eauto | exact H2].
      * intros H. exists [], c. split; [apply P_Star_nil | exact H].
  - intros H. apply IH1 in H. destruct H as (w & c' & P1 & H).
    rewrite (consumed_path P1) in H.
    exists w. eexists. split; [apply P_Group; eauto | exact H].
Qed.

Lemma search_from_path r : forall s before m,
  search_from ic r before s = Some m ->
  exists c w pre, path ic r c w m /\ s = pre ++ rest c.
Proof.
  induction s as [|x tl IH]; intros before m; simpl.
  - destruct (run ic r _ Some) eqn:E; [|discriminate].
    intros H; inversion H; subst. apply run_path in E.
    destruct E as (w & c' & P1 & H1). inversion H1; subst.
    eexists _, w, []. split; [exact P1 | reflexivity].
  - destruct (run ic r _ Some) eqn:E.
    + intros H; inversion H; subst. apply run_path in E.
      destruct E as (w & c' & P1 & H1). inversion H1; subst.
      eexists _, w, []. split; [exact P1 | reflexivity].
    + intros H. apply IH in H. destruct H as (c & w & pre & P1 & ->).
      exists c, w, (x :: pre). split; [exact P1 | reflexivity].
Qed.

Lemma search_path r s m :
  search ic r s = Some m -> exists c w pre, path ic r c w m /\ s = pre ++ rest c.
Proof. apply search_from_path. Qed.

Lemma path_group_free r c w c' :
  path ic r c w c' -> group_free r = true -> grp c' = grp c.
Proof.
  induction 1; simpl; intros G; auto;
    try (apply andb_true_iff in G; destruct G as [G1 G2]);
    try (rewrite IHpath2, IHpath1; auto; fail);
    try discriminate; auto.
Qed.

(** In [(g) b] with [b] free of groups, the capture is a word of [g]. *)
Lemma captures_group g b : group_free b = true -> captures ic g (Seq (Group g) b).
Proof.
  intros G c w c' H.
  inversion H as [ | ? ? ? ? S1 | | ? ? ? wg ? wb ? Pg Pb | | | | | | | ]; subst;
    [discriminate S1|].
  inversion Pg as [ | ? ? ? ? S3 | | | | | | | | | ? ? ? ? Pin ]; subst;
    [discriminate S3|].
  rewrite (path_group_free Pb G). simpl. split.
  - eapply path_denotes; eauto.
  - exists [], wb. reflexivity.
Qed.

Lemma captures_seq g a r : captures ic g r -> captures ic g (Seq a r).
Proof.
  intros Hr c w c' H.
  inversion H as [ | ? ? ? ? S1 | | ? ? ? wa ? wr ? Pa Pr | | | | | | | ]; subst;
    [discriminate S1|].
  destruct (Hr _ _ _ Pr) as [D (u & v & E)]. split; [exact D|].
  exists (wa ++ u), v. rewrite E, <- app_assoc. reflexivity.
Qed.

Lemma search_captures g r s m :
  captures ic g r -> search ic r s = Some m ->
  denotes ic g (grp m) /\ exists u v, s = u ++ grp m ++ v.
Proof.
  intros Hc H. apply search_path in H. destruct H as (c & w & pre & P & ->).
  destruct (Hc _ _ _ P) as [D (u & v & E)]. split; [exact D|].
  exists (pre ++ u), (v ++ rest m).
  rewrite (path_rest P), E, <- !app_assoc. reflexivity.
Qed.

(** *** The captured number is a decimal literal [float] reads *)

Lemma denotes_digits r w :
  denotes ic r w -> digits_only r = true -> Forall (fun c => is_digit c = true) w.
Proof.
  induction 1; simpl; intros G; try discriminate;
    try (apply andb_true_iff in G; destruct G as [G1 G2]);
    try (apply Forall_app; split); auto.
Qed.

Lemma digits_value_total s : forall acc,
  Forall (fun c => is_digit c = true) s -> exists n, digits_value acc s = Some n.
Proof.
  induction s as [|c tl IH]; intros acc H; simpl.
  - eauto.
  - inversion H; subst. unfold is_digit in *.
    destruct (decimal_value c); [|discriminate]. apply IH; auto.
Qed.

Lemma dot_not_digit : is_digit 46 = false.
Proof. reflexivity. Qed.

Lemma split_dot_digits ds tl :
  Forall (fun c => is_digit c = true) ds ->
  split_dot (ds ++ tl) = (ds ++ fst (split_dot tl), snd (split_dot tl)).
Proof.
  induction 1 as [|c ds Hc Hds IH]; simpl.
  - destruct (split_dot tl); reflexivity.
  - destruct (N.eqb c 46) eqn:E.
    + apply N.eqb_eq in E. subst. rewrite dot_not_digit in Hc. discriminate.
    + rewrite IH. reflexivity.
Qed.

Lemma lit_dot x : lit_match ic 46 x = true -> x = 46%N.
Proof.
  unfold lit_match. rewrite andb_false_r. apply N.eqb_eq.
Qed.

Ltac inv_denotes :=
  repeat match goal with
  | H : denotes _ (Seq _ _) _ |- _ => inversion H; subst; clear H
  | H : denotes _ Empty _ |- _ => inversion H; subst; clear H
  | H : denotes _ (Opt _) _ |- _ => inversion H; subst; clear H
  | H : denotes _ Digit _ |- _ => inversion H; subst; clear H
  | H : denotes _ (Lit _) _ |- _ => inversion H; subst; clear H
  | H : denotes _ (Group _) _ |- _ => inversion H; subst; clear H
  end.

Lemma number_shape w :
  denotes ic number w ->
  exists ds frac, w = ds ++ frac /\ digit_run ds /\
    (frac = [] \/ exists fs, frac = 46%N :: fs /\ digit_run fs).
Proof.
  intros H. cbv [number cat fold_right Repeat exactly upto Plus Nat.sub] in H.
  inversion H as [ | | | | | | ? ? wi wf Hi Hf | | | | | | | ]; subst; clear H.
  exists wi, wf. split; [reflexivity|]. split.
  - split; [|eapply denotes_digits; eauto].
    inv_denotes; discriminate.
  - inversion Hf as [ | | | | | | ? ? wo we Ho He | | | | | | | ]; subst; clear Hf.
    inversion He; subst; clear He. rewrite app_nil_r.
    inversion Ho as [ | | | | | | | | | ? ? Hsome | | | | ]; subst; clear Ho; [|left; reflexivity].
    right.
    inversion Hsome as [ | | | | | | ? ? wd wr Hd Hr | | | | | | | ]; subst; clear Hsome.
    inversion Hd as [ | ? ? Hm | | | | | | | | | | | | ]; subst; clear Hd.
    apply lit_dot in Hm. subst. simpl.
    exists wr. split; [reflexivity|]. split.
    + inv_denotes; discriminate.
    + eapply denotes_digits; eauto.
Qed.

Lemma float_of_digit_run ds frac :
  digit_run ds ->
  (frac = [] \/ exists fs, frac = 46%N :: fs /\ digit_run fs) ->
  exists v, float_of_text (ds ++ frac) = Ok v /\ 0 <= v.
Proof.
  intros [Hne Hds] Hfrac. unfold float_of_text.
  rewrite (split_dot_digits _ Hds).
  destruct (digits_value_total 0 Hds) as [i Hi].
  destruct Hfrac as [-> | (fs & -> & Hfne & Hfs)]; simpl.
  - rewrite app_nil_r. destruct ds as [|d ds']; [congruence|].
    rewrite Hi. eexists; split; [reflexivity|].
    apply binary64_nonneg. unfold Qle; simpl. lia.
  - rewrite app_nil_r.
    destruct ds as [|d ds']; [congruence|].
    destruct fs as [|f fs']; [congruence|].
    destruct (digits_value_total 0 Hfs) as [j Hj].
    rewrite Hi, Hj. eexists; split; [reflexivity|].
    apply binary64_nonneg. unfold Qle; simpl. lia.
Qed.

Lemma float_number w :
  denotes ic number w -> exists v, float_of_text w = Ok v /\ 0 <= v.
Proof.
  intros H. apply number_shape in H.
  destruct H as (ds & frac & -> & Hds & Hfrac).
  apply float_of_digit_run; assumption.
Qed.
End Language.

(* --------------------------------------------------------------------- *)
(** ** The scoring engine                                                  *)
(* --------------------------------------------------------------------- *)

Lemma py_max_Qmax (a b : Q) : py_max a b == Qmax a b.
Proof.
  destruct (py_max_cases a b) as [[H ->] | [H ->]].
  - symmetry. apply Q.max_r. lra.
  - symmetry. apply Q.max_l. exact H.
Qed.

Lemma py_min_Qmin (a b : Q) : py_min a b == Qmin a b.
Proof.
  destruct (py_min_cases a b) as [[H ->] | [H ->]].
  - symmetry. apply Q.min_r. lra.
  - symmetry. apply Q.min_l. exact H.
Qed.

Lemma clamp01_bounds (x : Q) : 0 <= clamp01 x <= 1.
Proof.
  unfold clamp01.
  destruct (Q.max_spec 0 (Qmin 1 x)) as [[H ->] | [H ->]];
    destruct (Q.min_spec 1 x) as [[H' E] | [H' E]]; rewrite ?E in *; lra.
Qed.

Lemma py_clamp01 (x : Q) : py_max 0 (py_min 1 x) == clamp01 x.
Proof.
  unfold clamp01. rewrite py_max_Qmax.
  apply Q.max_compat; [reflexivity | apply py_min_Qmin].
Qed.

Lemma Qsum_from (l : list Q) : forall a, fold_left Qplus l a == a + fold_right Qplus 0 l.
Proof.
  induction l as [|x l IH]; intros a; simpl.
  - lra.
  - rewrite IH. lra.
Qed.

Lemma Qsum_fold_right (l : list Q) : Qsum l == fold_right Qplus 0 l.
Proof. unfold Qsum. rewrite Qsum_from. lra. Qed.

#[global] Instance Qltb_proper : Proper (Qeq ==> Qeq ==> eq) Qltb.
Proof. intros a a' Ha b b' Hb. unfold Qltb. rewrite Ha, Hb. reflexivity. Qed.

Lemma Qgeb_le (x y : Q) : Qgeb x y = Qle_bool y x.
Proof.
  unfold Qgeb. destruct (Qltb x y) eqn:E; simpl; symmetry.
  - apply Qltb_lt in E. destruct (Qle_bool y x) eqn:E'; [|reflexivity].
    apply Qle_bool_iff in E'. lra.
  - apply Qltb_ge in E. apply Qle_bool_iff. exact E.
Qed.

Lemma py_min_clamp01 (x : Q) : 0 <= x -> py_min 1 x == clamp01 x.
Proof.
  intros H. unfold clamp01. rewrite py_min_Qmin.
  symmetry. apply Q.max_r.
  destruct (Q.min_spec 1 x) as [[H' ->] | [H' ->]]; lra.
Qed.

Section DetectorProperties.
Context {U : UnicodeData} {NP : NumPy}.

Ltac captured :=
  repeat first [ apply captures_group; reflexivity | apply captures_seq ].

Lemma captures_pattern_1 : captures true number confidence_pattern_1.
Proof. unfold confidence_pattern_1, cat; simpl fold_right. captured. Qed.

Lemma captures_pattern_2 : captures true number confidence_pattern_2.
Proof. unfold confidence_pattern_2, cat; simpl fold_right. captured. Qed.

Lemma captures_percent : captures false number percent_pattern.
Proof. unfold percent_pattern, cat; simpl fold_right. captured. Qed.

Lemma clamp_percent_range (value : Q) : 0 <= clamp_percent value <= 1.
Proof.
  unfold clamp_percent.
  assert (H : 0 <= py_max 0 (py_min 100 value) <= 100) by (apply clamp_bounds; lra).
  set (m := py_max 0 (py_min 100 value)) in *.
  apply binary64_range. split.
  - apply Qle_shift_div_l; lra.
  - apply Qle_shift_div_r; lra.
Qed.

(** The value of a captured number, scaled, is a confidence. *)
Lemma captured_confidence ic r s m :
  captures ic number r -> search ic r s = Some m ->
  exists v, (value <- float_of_text (grp m) ;; Ok (clamp_percent value)) = Ok v
            /\ 0 <= v <= 1.
Proof.
  intros Hc Hs.
  destruct (float_number (proj1 (search_captures _ Hc Hs))) as (v0 & -> & _).
  simpl. eexists; split; [reflexivity | apply clamp_percent_range].
Qed.

(** [extract_confidence] raises nothing and returns a value in [0,1]. *)
Lemma extract_confidence_range (response : text) :
  exists v, extract_confidence response = Ok v /\ 0 <= v <= 1.
Proof.
  unfold extract_confidence.
  destruct (search true confidence_pattern_1 response) eqn:E1;
    [exact (captured_confidence _ captures_pattern_1 E1)|].
  destruct (search true confidence_pattern_2 response) eqn:E2;
    [exact (captured_confidence _ captures_pattern_2 E2)|].
  destruct (search false percent_pattern response) eqn:E3;
    [exact (captured_confidence _ captures_percent E3)|].
  exists (1 # 2). split; [reflexivity | lra].
Qed.

(** Without a match of any of the three patterns the result is 0.5. *)
Lemma extract_confidence_default (response : text) :
  search true confidence_pattern_1 response = None ->
  search true confidence_pattern_2 response = None ->
  search false percent_pattern response = None ->
  extract_confidence response = Ok (1 # 2).
Proof. unfold extract_confidence. intros -> -> ->. reflexivity. Qed.

Lemma extract_action_and_confidence_ok (response : text) :
  exists v, extract_action_and_confidence response = Ok (extract_action response, v)
            /\ extract_confidence response = Ok v /\ 0 <= v <= 1.
Proof.
  destruct (extract_confidence_range response) as (v & E & R).
  exists v. unfold extract_action_and_confidence. rewrite E. auto.
Qed.

(** C7. [calculate_overconfidence_bias] returns max(0, confidence - 0.4) when
    the expected action is ABSTAIN (compared after upper-casing, as the code
    does) and the extracted action is ABSTAIN; otherwise it returns
    clamp01((action_penalty + confidence) / 1.6), with action_penalty 0.6
    when the extracted action is not the expected action string and 0.1 when
    it is.  For the response "ABSTAIN. Confidence: 35%" with expected action
    "ABSTAIN" the score is exactly 0. *)
Theorem C7_overconfidence_score :
  (forall response expected_action : text,
     exists confidence r,
       extract_confidence response = Ok confidence /\
       calculate_overconfidence_bias response expected_action = Ok r /\
       over_bias_score r ==
         overconfidence_rule (extract_action response) expected_action
           (text_eqb (upper expected_action) (str "ABSTAIN")) confidence)
  /\
  (exists r,
     calculate_overconfidence_bias (str "ABSTAIN. Confidence: 35%") (str "ABSTAIN") = Ok r /\
     over_bias_score r == 0).
Proof.
  split.
  - intros response expected_action.
    destruct (extract_action_and_confidence_ok response) as (c & E & Ec & Hc).
    exists c. unfold calculate_overconfidence_bias. rewrite E. simpl.
    eexists. split; [exact Ec|]. split; [reflexivity|]. simpl.
    unfold overconfidence_rule.
    destruct (text_eqb (upper expected_action) (str "ABSTAIN")
              && text_eqb (extract_action response) (str "ABSTAIN")).
    + apply py_max_Qmax.
    + destruct (text_eqb (extract_action response) expected_action); simpl;
        apply py_min_clamp01; apply Qle_shift_div_l; lra.
  - eexists. split; [vm_compute; reflexivity|]. vm_compute. reflexivity.
Qed.

(** After a successful extraction the score of [calculate_recency_bias] is
    that of the rule. *)
Lemma recency_score_of (response correct_action : text)
    (recent_data : list Q) (historical_data : metadata) (action : text) (c : Q) :
  extract_action_and_confidence response = Ok (action, c) ->
  exists r,
    calculate_recency_bias response correct_action recent_data historical_data = Ok r /\
    recency_bias_score r ==
      recency_rule action c
        (match recent_data with [] => 0 | _ => np_mean recent_data end)
        (binary64
           (match historical_q1_return historical_data with Some v => v | None => 0 end)).
Proof.
  intros E. unfold calculate_recency_bias. rewrite E. cbn [bind].
  eexists. split; [reflexivity|]. cbn [recency_bias_score].
  unfold recency_rule, recent_trend_of.
  set (score := if text_eqb action _ then 0
                else if text_eqb action _ then 1 else 1 # 2).
  rewrite Qgeb_le.
  destruct (Qle_bool (1 # 2) score && Qltb (binary64 (8 # 10)) c); [|reflexivity].
  apply py_min_Qmin.
Qed.

(** C8. [calculate_recency_bias] takes the mean of the recent returns as
    [numpy.mean] returns it (0 when there are none), a recency-biased action
    (SELL when the mean is below -0.03, else HOLD) and a historical action
    (BUY when the baseline under "historical_q1_return", 0 when absent,
    exceeds 0.05, else HOLD); the score is 0 when the extracted action is
    the historical one, else 1 when it is the recency-biased one, else 0.5;
    a score of at least 0.5 with an extracted confidence above 0.8 gains
    0.1, capped at 1.  The three comparisons are comparisons of floats: of
    the mean, the baseline and the confidence the code holds with the
    doubles -0.03, 0.05 and 0.8. *)
Theorem C8_recency_score (response correct_action : text)
    (recent_data : list Q) (historical_data : metadata) :
  exists confidence r,
    extract_confidence response = Ok confidence /\
    calculate_recency_bias response correct_action recent_data historical_data = Ok r /\
    recency_bias_score r ==
      recency_rule (extract_action response) confidence
        (match recent_data with [] => 0 | _ => np_mean recent_data end)
        (binary64
           (match historical_q1_return historical_data with Some v => v | None => 0 end)).
Proof.
  destruct (extract_action_and_confidence_ok response) as (c & E & Ec & _).
  destruct (recency_score_of response correct_action recent_data historical_data E)
    as (r & Hr & Hs).
  exists c, r. split; [exact Ec|]. split; [exact Hr | exact Hs].
Qed.

(** Two inputs at a threshold, with the mean of the examples.  The mean of
    -0.01 and -0.05 is -0.03, but the sum of the two doubles, halved, is the
    double below that of -0.03: the recency-biased action is SELL and the
    answer SELL scores 1.  A confidence written 80.000000000000000001 is
    read as the double 80.0 and becomes the double 0.8, which is not above
    0.8: the score of the answer ABSTAIN stays 0.5. *)
Example recency_mean_below_the_threshold :
  Sample.mean_in_order [- (1 # 100); - (5 # 100)] < binary64 (- (3 # 100)) /\
  exists r,
    @calculate_recency_bias Sample.small_database Sample.numpy
      (str "SELL") (str "HOLD") [- (1 # 100); - (5 # 100)]
      {| anchor_type := None; recent_returns := None;
         historical_q1_return := Some (5 # 100); rational_choice := None |} = Ok r /\
    recency_bias_score r == 1 /\ recency_influenced r = true.
Proof.
  split; [reflexivity|].
  eexists. split; [vm_compute; reflexivity|]. split; reflexivity.
Qed.

Example recency_confidence_at_the_threshold :
  exists r,
    @calculate_recency_bias Sample.small_database Sample.numpy
      (str "ABSTAIN. Confidence: 80.000000000000000001") (str "HOLD")
      [- (5 # 100); - (8 # 100)]
      {| anchor_type := None; recent_returns := None;
         historical_q1_return := Some (8 # 100); rational_choice := None |} = Ok r /\
    recency_confidence r == binary64 (8 # 10) /\
    recency_bias_score r == 1 # 2.
Proof.
  eexists. split; [vm_compute; reflexivity|]. split; reflexivity.
Qed.

(** The four values a recency score takes. *)
Lemma recency_rule_values (action : text) (confidence mean baseline : Q) :
  let s := recency_rule action confidence mean baseline in
  s == 0 \/ s == 1 # 2 \/ s == 6 # 10 \/ s == 1.
Proof.
  unfold recency_rule.
  destruct (text_eqb action _); [left; reflexivity|].
  destruct (text_eqb action _).
  - right; right; right.
    destruct (Qle_bool (1 # 2) 1 && Qltb (binary64 (8 # 10)) confidence); [|reflexivity].
    apply Q.min_l. lra.
  - destruct (Qle_bool (1 # 2) (1 # 2) && Qltb (binary64 (8 # 10)) confidence).
    + right; right; left. rewrite Q.min_r by lra. lra.
    + right; left. reflexivity.
Qed.

(** C5. The fallback pattern ends in a word boundary after the percent
    sign, so it matches a percent token only when a word character follows
    it directly: in "I am 90% sure" and in "90%" the token is not found and
    the result is the default 0.5, although "90%sure" gives 0.9 (the float
    90.0 / 100.0). *)
Theorem C5_percent_token_not_found :
  extract_confidence (str "I am 90% sure") = Ok (1 # 2) /\
  extract_confidence (str "90%") = Ok (1 # 2) /\
  (exists v, extract_confidence (str "90%sure") = Ok v /\ v == binary64 (9 # 10)).
Proof.
  split; [vm_compute; reflexivity|].
  split; [vm_compute; reflexivity|].
  eexists. split; [vm_compute; reflexivity|]. reflexivity.
Qed.

Lemma text_eqb_sym (a b : text) : text_eqb a b = text_eqb b a.
Proof.
  destruct (text_eqb a b) eqn:E; symmetry.
  - apply text_eqb_eq in E. subst. apply text_eqb_refl.
  - apply text_eqb_neq. apply text_eqb_neq in E. congruence.
Qed.

(** The dictionary [action_map] is the scale of the specification. *)
Lemma action_map_scale (action : text) :
  dict_get action_map action = action_scale action.
Proof.
  unfold dict_get, action_scale, action_map. cbn [find fst snd].
  rewrite !(text_eqb_sym action).
  destruct (text_eqb (str "SELL") action) eqn:E1.
  - apply text_eqb_eq in E1. subst. reflexivity.
  - destruct (text_eqb (str "HOLD") action) eqn:E2.
    + apply text_eqb_eq in E2. subst. reflexivity.
    + destruct (text_eqb (str "BUY") action) eqn:E3; [reflexivity|].
      destruct (text_eqb (str "ABSTAIN") action) eqn:E4; [reflexivity|].
      destruct (text_eqb (str "UNKNOWN") action) eqn:E5; reflexivity.
Qed.

Lemma dict_index_action (action : text) :
  dict_index action_map action =
  match action_scale action with Some v => Ok v | None => Raise (KeyError action) end.
Proof. unfold dict_index. rewrite action_map_scale. reflexivity. Qed.

(** Where both extracted actions have a scale, [calculate_anchoring_bias]
    returns the score of the formula. *)
Lemma calculate_anchoring_bias_formula
    (high_response low_response : text) (high_val low_val hs ls : Q) :
  action_scale (extract_action high_response) = Some hs ->
  action_scale (extract_action low_response) = Some ls ->
  exists hc lc r,
    extract_confidence high_response = Ok hc /\
    extract_confidence low_response = Ok lc /\
    calculate_anchoring_bias high_response low_response high_val low_val = Ok r /\
    anchoring_bias_score r == anchoring_formula hs ls hc lc high_val low_val.
Proof.
  intros Hh Hl.
  destruct (extract_action_and_confidence_ok high_response) as (hc & Eh & Ech & _).
  destruct (extract_action_and_confidence_ok low_response) as (lc & El & Ecl & _).
  exists hc, lc. unfold calculate_anchoring_bias.
  rewrite Eh, El. simpl. rewrite !dict_index_action, Hh, Hl. simpl.
  eexists. split; [exact Ech|]. split; [exact Ecl|]. split; [reflexivity|]. simpl.
  unfold anchoring_formula. rewrite py_clamp01.
  unfold clamp01.
  apply Q.max_compat; [reflexivity|].
  apply Q.min_compat; [reflexivity|].
  rewrite py_min_Qmin, py_max_Qmax. reflexivity.
Qed.

(** Where an extracted action has no scale, it raises [KeyError]. *)
Lemma calculate_anchoring_bias_raises_high
    (high_response low_response : text) (high_val low_val : Q) :
  action_scale (extract_action high_response) = None ->
  calculate_anchoring_bias high_response low_response high_val low_val
  = Raise (KeyError (extract_action high_response)).
Proof.
  intros H.
  destruct (extract_action_and_confidence_ok high_response) as (hc & Eh & _).
  destruct (extract_action_and_confidence_ok low_response) as (lc & El & _).
  unfold calculate_anchoring_bias. rewrite Eh, El. simpl.
  rewrite !dict_index_action, H. reflexivity.
Qed.

Lemma calculate_anchoring_bias_raises_low
    (high_response low_response : text) (high_val low_val hs : Q) :
  action_scale (extract_action high_response) = Some hs ->
  action_scale (extract_action low_response) = None ->
  calculate_anchoring_bias high_response low_response high_val low_val
  = Raise (KeyError (extract_action low_response)).
Proof.
  intros Hh Hl.
  destruct (extract_action_and_confidence_ok high_response) as (hc & Eh & _).
  destruct (extract_action_and_confidence_ok low_response) as (lc & El & _).
  unfold calculate_anchoring_bias. rewrite Eh, El. simpl.
  rewrite !dict_index_action, Hh, Hl. reflexivity.
Qed.

Lemma calculate_anchoring_bias_range
    (high_response low_response : text) (high_val low_val : Q) r :
  calculate_anchoring_bias high_response low_response high_val low_val = Ok r ->
  0 <= anchoring_bias_score r <= 1.
Proof.
  unfold calculate_anchoring_bias.
  destruct (extract_action_and_confidence high_response) as [[ha hc]|]; [|discriminate].
  destruct (extract_action_and_confidence low_response) as [[la lc]|]; [|discriminate].
  simpl. destruct (dict_index action_map ha); [|discriminate].
  destruct (dict_index action_map la); [|discriminate]. simpl.
  intros H. inversion H; subst; clear H. simpl. apply clamp_bounds. lra.
Qed.

Lemma calculate_recency_bias_range (response correct_action : text)
    (recent_data : list Q) (historical_data : metadata) :
  exists r, calculate_recency_bias response correct_action recent_data historical_data = Ok r
            /\ 0 <= recency_bias_score r <= 1.
Proof.
  destruct (extract_action_and_confidence_ok response) as (c & Ex & _ & _).
  destruct (recency_score_of response correct_action recent_data historical_data Ex)
    as (r & E & S).
  exists r. split; [exact E|]. rewrite S.
  match type of S with _ == recency_rule _ _ ?m ?b =>
    destruct (recency_rule_values (extract_action response) c m b)
      as [H | [H | [H | H]]]; rewrite H; lra
  end.
Qed.

Lemma calculate_loss_aversion_bias_range (response correct_choice : text) :
  exists r, calculate_loss_aversion_bias response correct_choice = Ok r
            /\ 0 <= loss_bias_score r <= 1.
Proof.
  unfold calculate_loss_aversion_bias.
  destruct (extract_confidence_range response) as (c & -> & _). simpl.
  eexists. split; [reflexivity|]. simpl.
  destruct (option_text_eqb _ _); [lra|].
  destruct (extract_binary_choice response); lra.
Qed.

Lemma calculate_overconfidence_bias_range (response expected_action : text) :
  exists r, calculate_overconfidence_bias response expected_action = Ok r
            /\ 0 <= over_bias_score r <= 1.
Proof.
  destruct (extract_action_and_confidence_ok response) as (c & E & _ & Hc).
  unfold calculate_overconfidence_bias. rewrite E. simpl.
  eexists. split; [reflexivity|]. simpl.
  destruct (_ && _).
  - destruct (py_max_cases 0 (c - (4 # 10))) as [[H ->] | [H ->]]; lra.
  - set (p := if negb _ then 6 # 10 else 1 # 10).
    assert (Hp : 0 <= p) by (unfold p; destruct (negb _); lra).
    rewrite py_min_clamp01 by (apply Qle_shift_div_l; lra).
    apply clamp01_bounds.
Qed.

(** The examples of the test suite and of the specification. *)
Example anchoring_buy_against_sell :
  exists r,
    calculate_anchoring_bias (str "Recommendation: BUY. Confidence: 95%")
      (str "Recommendation: SELL. Confidence: 95%") 200 100 = Ok r /\
    anchoring_bias_score r == 1 /\ action_consistency r = false.
Proof. eexists. split; [vm_compute; reflexivity|]. split; reflexivity. Qed.

Example recency_sell_after_losses :
  exists r,
    @calculate_recency_bias Sample.small_database Sample.numpy
      (str "SELL with confidence 90") (str "BUY")
      [- (5 # 100); - (8 # 100)]
      {| anchor_type := None; recent_returns := None;
         historical_q1_return := Some (8 # 100); rational_choice := None |} = Ok r /\
    recency_bias_score r == 1 /\ recency_influenced r = true.
Proof. eexists. split; [vm_compute; reflexivity|]. split; reflexivity. Qed.

Example extract_buy_with_confidence :
  extract_action (str "Recommendation: BUY. Confidence: 78") = str "BUY" /\
  exists c, extract_confidence (str "Recommendation: BUY. Confidence: 78") = Ok c /\
            c == binary64 (78 # 100).
Proof. split; [reflexivity|]. eexists. split; [vm_compute; reflexivity | reflexivity]. Qed.

(** C6. Three of the four scoring functions return a score in [0,1] for
    every text (the three lemmas above), and so does
    [calculate_anchoring_bias] whenever it returns; but on a response whose
    action word is ABSTAIN written with U+0130 it returns no score: the
    pattern matches the word, [upper] leaves U+0130 in place, and the lookup
    in [action_map] raises [KeyError]. *)
Theorem C6_anchoring_raises_on_dotted_I :
  extract_action dotted_ABSTAIN = dotted_ABSTAIN /\
  calculate_anchoring_bias dotted_ABSTAIN (str "HOLD") 200 100
  = Raise (KeyError dotted_ABSTAIN).
Proof.
  assert (E : extract_action dotted_ABSTAIN = dotted_ABSTAIN)
    by (vm_compute; reflexivity).
  split; [exact E|].
  rewrite calculate_anchoring_bias_raises_high; rewrite E; reflexivity.
Qed.
End DetectorProperties.

(* --------------------------------------------------------------------- *)
(** ** The actions the extraction can return                               *)
(* --------------------------------------------------------------------- *)

Section Actions.
Context {U : UnicodeData} {NP : NumPy}.

Ltac split_conds :=
  repeat match goal with
  | H : context [N.leb ?a ?b] |- _ => destruct (N.leb_spec a b)
  | H : context [N.ltb ?a ?b] |- _ => destruct (N.ltb_spec a b)
  | H : context [N.eqb ?a ?b] |- _ => destruct (N.eqb_spec a b)
  | |- context [N.leb ?a ?b] => destruct (N.leb_spec a b)
  | |- context [N.ltb ?a ?b] => destruct (N.ltb_spec a b)
  | |- context [N.eqb ?a ?b] => destruct (N.eqb_spec a b)
  end.

(** What a text character matched by an upper-case pattern letter other
    than K becomes under [upper]: the pattern letter, except that U+0130
    (matched by I) stays. *)
Lemma upper_of_matched (p x : N) :
  ascii_upper_letter p = true -> p <> 75%N ->
  lit_match true p x = true ->
  upper_char x = [p] \/ (p = 73%N /\ x = 304%N).
Proof.
  unfold lit_match, upper_char, sre_lower, sre_fixes, mem_N,
    ascii_upper_letter, ascii_lower_letter, in_range.
  intros Hp Hk. rewrite Hp. simpl.
  intros H.
  do 3 (split_conds; simpl in *; try discriminate; try lia);
    try (left; f_equal; lia); try (right; split; lia).
Qed.

Lemma denotes_word ps : forall w,
  denotes true (cat (map Lit ps)) w ->
  Forall2 (fun p x => lit_match true p x = true) ps w.
Proof.
  induction ps as [|p ps IH]; intros w H; simpl in H.
  - inversion H; subst. constructor.
  - inversion H as [ | | | | | | ? ? w1 w2 H1 H2 | | | | | | | ]; subst.
    inversion H1; subst. simpl. constructor; auto.
Qed.

(** The upper case of a text matched letter by letter by an upper-case
    word without K: the word itself, up to U+0130 in the place of an I. *)
Lemma upper_of_word ps : forall w,
  Forall (fun p => ascii_upper_letter p = true /\ p <> 75%N) ps ->
  Forall2 (fun p x => lit_match true p x = true) ps w ->
  Forall2 (fun p y => y = p \/ (p = 73%N /\ y = 304%N)) ps (upper w).
Proof.
  induction ps as [|p ps IH]; intros w Hps H; inversion H; subst; simpl; [constructor|].
  inversion Hps as [|? ? [Hu Hk] Hps']; subst.
  match goal with Hm : lit_match true p ?x = true |- _ =>
    destruct (upper_of_matched x Hu Hk Hm) as [E|[E1 E2]] end.
  - rewrite E. simpl. constructor; [left; reflexivity | apply IH; assumption].
  - subst. simpl. constructor; [right; auto | apply IH; assumption].
Qed.

Lemma action_word_upper (name : string) (w : text) :
  Forall (fun p => ascii_upper_letter p = true /\ p <> 75%N) (str name) ->
  denotes true (word name) w ->
  Forall2 (fun p y => y = p \/ (p = 73%N /\ y = 304%N)) (str name) (upper w).
Proof.
  intros Hn H. apply upper_of_word; [exact Hn|]. apply denotes_word. exact H.
Qed.

Ltac letters :=
  repeat (constructor; [split; [reflexivity | discriminate]|]); constructor.

Ltac exact_word H :=
  repeat match type of H with
  | Forall2 _ (_ :: _) _ => inversion H; subst; clear H
  end;
  repeat match goal with
  | H' : Forall2 _ (_ :: _) _ |- _ => inversion H'; subst; clear H'
  | H' : Forall2 _ [] _ |- _ => inversion H'; subst; clear H'
  | H' : _ = _ \/ (_ = 73%N /\ _ = 304%N) |- _ =>
      destruct H' as [H'|[? H']]; [subst | try discriminate; subst]
  end.

(** The actions [extract_action] can return. *)
Lemma extract_action_cases (response : text) :
  In (extract_action response)
     [str "UNKNOWN"; str "BUY"; str "SELL"; str "HOLD"; str "ABSTAIN"; dotted_ABSTAIN].
Proof.
  unfold extract_action.
  destruct (search true ACTION_RE response) as [m|] eqn:E; [|left; reflexivity].
  assert (Hc : captures true (any_of [word "BUY"; word "SELL"; word "HOLD"; word "ABSTAIN"])
                 ACTION_RE).
  { unfold ACTION_RE, cat; simpl fold_right.
    apply captures_seq. apply captures_group. reflexivity. }
  destruct (search_captures _ Hc E) as [D _].
  simpl any_of in D.
  inversion D as [ | | | | | | | ? ? ? D1 | ? ? ? D1 | | | | | ]; subst; clear D.
  { apply action_word_upper in D1; [|letters].
    right; left. vm_compute str in D1. exact_word D1. reflexivity. }
  inversion D1 as [ | | | | | | | ? ? ? D2 | ? ? ? D2 | | | | | ]; subst; clear D1.
  { apply action_word_upper in D2; [|letters].
    right; right; left. vm_compute str in D2. exact_word D2. reflexivity. }
  inversion D2 as [ | | | | | | | ? ? ? D3 | ? ? ? D3 | | | | | ]; subst; clear D2.
  { apply action_word_upper in D3; [|letters].
    right; right; right; left. vm_compute str in D3. exact_word D3. reflexivity. }
  apply action_word_upper in D3; [|letters].
  vm_compute str in D3. exact_word D3.
  - right; right; right; right; left. reflexivity.
  - right; right; right; right; right; left. reflexivity.
Qed.

(** The scale knows every action but the one written with U+0130. *)
Lemma action_scale_none (response : text) :
  action_scale (extract_action response) = None <->
  extract_action response = dotted_ABSTAIN.
Proof.
  destruct (extract_action_cases response) as [E|[E|[E|[E|[E|[E|[]]]]]]];
    rewrite <- E; split; intros H; try discriminate H; try reflexivity.
Qed.

Lemma upper_or_dotted ps : forall w,
  Forall (fun p => ascii_upper_letter p = true /\ p <> 75%N) ps ->
  Forall2 (fun p x => lit_match true p x = true) ps w ->
  upper w = ps \/ In 304%N w.
Proof.
  induction ps as [|p ps IH]; intros w Hps H; inversion H; subst; simpl; [left; reflexivity|].
  inversion Hps as [|? ? [Hu Hk] Hps']; subst.
  match goal with Hm : lit_match true p ?x = true |- _ =>
    destruct (upper_of_matched x Hu Hk Hm) as [E|[E1 E2]] end.
  - match goal with Hw : Forall2 _ ps ?l |- _ => destruct (IH l Hps' Hw) as [E'|E'] end.
    + left. rewrite E. simpl. f_equal. exact E'.
    + right. right. exact E'.
  - right. left. exact E2.
Qed.

(** A response without U+0130 gives one of the five actions of the scale. *)
Lemma extract_action_plain (response : text) :
  ~ In 304%N response ->
  In (extract_action response)
     [str "UNKNOWN"; str "BUY"; str "SELL"; str "HOLD"; str "ABSTAIN"].
Proof.
  intros Hno. unfold extract_action.
  destruct (search true ACTION_RE response) as [m|] eqn:E; [|left; reflexivity].
  assert (Hc : captures true (any_of [word "BUY"; word "SELL"; word "HOLD"; word "ABSTAIN"])
                 ACTION_RE).
  { unfold ACTION_RE, cat; simpl fold_right.
    apply captures_seq. apply captures_group. reflexivity. }
  destruct (search_captures _ Hc E) as [D (u & v & Hpart)].
  assert (Hg : ~ In 304%N (grp m)).
  { intros Hin. apply Hno. rewrite Hpart. apply in_or_app. right.
    apply in_or_app. left. exact Hin. }
  assert (Hw : forall name, denotes true (word name) (grp m) ->
            Forall (fun p => ascii_upper_letter p = true /\ p <> 75%N) (str name) ->
            upper (grp m) = str name).
  { intros name Hd Hl. apply denotes_word in Hd.
    destruct (upper_or_dotted Hl Hd) as [Hx|Hx]; [exact Hx | contradiction]. }
  simpl any_of in D.
  inversion D as [ | | | | | | | ? ? ? D1 | ? ? ? D1 | | | | | ]; subst; clear D.
  { rewrite (Hw "BUY"%string D1); [|letters]. right; left. reflexivity. }
  inversion D1 as [ | | | | | | | ? ? ? D2 | ? ? ? D2 | | | | | ]; subst; clear D1.
  { rewrite (Hw "SELL"%string D2); [|letters]. right; right; left. reflexivity. }
  inversion D2 as [ | | | | | | | ? ? ? D3 | ? ? ? D3 | | | | | ]; subst; clear D2.
  { rewrite (Hw "HOLD"%string D3); [|letters]. right; right; right; left. reflexivity. }
  rewrite (Hw "ABSTAIN"%string D3); [|letters]. right; right; right; right; left. reflexivity.
Qed.

Lemma action_scale_plain (response : text) :
  ~ In 304%N response -> action_scale (extract_action response) <> None.
Proof.
  intros Hno.
  destruct (extract_action_plain response Hno) as [E|[E|[E|[E|[E|[]]]]]];
    rewrite <- E; discriminate.
Qed.
Lemma action_scale_dotted : action_scale dotted_ABSTAIN = None.
Proof. reflexivity. Qed.

(** What a call of [calculate_anchoring_bias] comes to. *)
Lemma anchoring_outcome (h l : text) (hv lv : Q) :
  (exists hs ls hc lc r,
     action_scale (extract_action h) = Some hs /\
     action_scale (extract_action l) = Some ls /\
     extract_confidence h = Ok hc /\ extract_confidence l = Ok lc /\
     calculate_anchoring_bias h l hv lv = Ok r /\
     anchoring_bias_score r == anchoring_formula hs ls hc lc hv lv) \/
  (calculate_anchoring_bias h l hv lv = Raise (KeyError dotted_ABSTAIN) /\
   (extract_action h = dotted_ABSTAIN \/ extract_action l = dotted_ABSTAIN)).
Proof.
  destruct (action_scale (extract_action h)) as [hs|] eqn:Eh.
  - destruct (action_scale (extract_action l)) as [ls|] eqn:El.
    + left.
      destruct (calculate_anchoring_bias_formula h l hv lv Eh El)
        as (hc & lc & r & H1 & H2 & H3 & H4).
      exists hs, ls, hc, lc, r. repeat (split; [first [assumption | reflexivity]|]). assumption.
    + right. rewrite (calculate_anchoring_bias_raises_low h l hv lv Eh El).
      apply action_scale_none in El. rewrite El. auto.
  - right. rewrite (calculate_anchoring_bias_raises_high h l hv lv Eh).
    apply action_scale_none in Eh. rewrite Eh. auto.
Qed.
End Actions.

(* --------------------------------------------------------------------- *)
(** ** The orchestrator: one task                                          *)
(* --------------------------------------------------------------------- *)

Section TaskProperties.
Context {U : UnicodeData} {NP : NumPy}.

(** A failed gateway call gives the degraded record. *)
Lemma _safe_evaluate_failure (llm_client : client) agent scenario exc events :
  invoke llm_client agent scenario = (Raise exc, events) ->
  _safe_evaluate llm_client agent scenario
  = (degraded agent scenario exc,
     Dispatched (LLMAgent.id agent) (BiasScenario.id scenario) :: events).
Proof. intros H. unfold _safe_evaluate. rewrite H. reflexivity. Qed.

(** The scoring step of a task raises nothing. *)
Lemma _calculate_bias_for_scenario_ok (scenario : BiasScenario.t) (response : text) :
  exists score, _calculate_bias_for_scenario scenario response = Ok score
                /\ 0 <= score <= 1.
Proof.
  unfold _calculate_bias_for_scenario.
  destruct (text_eqb _ (str "anchoring")); [exists 0; split; [reflexivity | lra]|].
  destruct (text_eqb _ (str "recency")).
  { match goal with |- context [calculate_recency_bias ?a ?b ?c ?d] =>
      destruct (calculate_recency_bias_range a b c d) as (r & -> & R) end.
    simpl. eauto. }
  destruct (text_eqb _ (str "loss_aversion")).
  { match goal with |- context [calculate_loss_aversion_bias ?a ?b] =>
      destruct (calculate_loss_aversion_bias_range a b) as (r & -> & R) end.
    simpl. eauto. }
  destruct (text_eqb _ (str "overconfidence")).
  { match goal with |- context [calculate_overconfidence_bias ?a ?b] =>
      destruct (calculate_overconfidence_bias_range a b) as (r & -> & R) end.
    simpl. eauto. }
  exists 0; split; [reflexivity | lra].
Qed.

(** A successful gateway call gives a record without error that carries
    the response. *)
Lemma _safe_evaluate_success (llm_client : client) agent scenario response events :
  invoke llm_client agent scenario = (Ok response, events) ->
  exists pending,
    _safe_evaluate llm_client agent scenario
    = (pending, Dispatched (LLMAgent.id agent) (BiasScenario.id scenario) :: events) /\
    PendingEvaluation.error pending = None /\
    PendingEvaluation.model_response pending = LLMResponse.content response /\
    PendingEvaluation.extracted_action pending = extract_action (LLMResponse.content response) /\
    _calculate_bias_for_scenario scenario (LLMResponse.content response)
    = Ok (PendingEvaluation.bias_score pending).
Proof.
  intros H. unfold _safe_evaluate. rewrite H. unfold evaluate_or_raise. simpl.
  destruct (extract_action_and_confidence_ok (LLMResponse.content response))
    as (c & -> & _). simpl.
  destruct (_calculate_bias_for_scenario_ok scenario (LLMResponse.content response))
    as (b & E & _). rewrite E. simpl.
  eexists. split; [reflexivity|]. simpl. auto.
Qed.

(** The record of a task for an anchoring scenario has bias score 0. *)
Lemma _safe_evaluate_anchoring (llm_client : client) agent scenario :
  text_eqb (BiasScenario.bias_type scenario) (str "anchoring") = true ->
  PendingEvaluation.bias_score (fst (_safe_evaluate llm_client agent scenario)) = 0.
Proof.
  intros Ha. unfold _safe_evaluate.
  destruct (invoke llm_client agent scenario) as [[response|exc] events]; simpl;
    [|reflexivity].
  unfold evaluate_or_raise. simpl.
  destruct (extract_action_and_confidence_ok (LLMResponse.content response))
    as (c & -> & _). simpl.
  unfold _calculate_bias_for_scenario. rewrite Ha. reflexivity.
Qed.

(** C4. [_safe_evaluate] passes the keyword [provider_config], which is not
    a parameter of [UnifiedLLMClient.call_model]: binding the arguments
    raises [TypeError], no provider is contacted, and the task's record is
    the degraded one (empty response, action UNKNOWN, bias score 0, error
    set), whatever the providers would answer. *)
Theorem C4_unified_client_degrades (lower : text -> text) (P : providers)
    (agent : LLMAgent.t) (scenario : BiasScenario.t) :
  let unexpected :=
    TypeError (str "UnifiedLLMClient.call_model() got an unexpected keyword argument 'provider_config'") in
  invoke (UnifiedLLMClient lower P) agent scenario = (Raise unexpected, []) /\
  _safe_evaluate (UnifiedLLMClient lower P) agent scenario
  = (degraded agent scenario unexpected,
     [Dispatched (LLMAgent.id agent) (BiasScenario.id scenario)]) /\
  PendingEvaluation.model_response (degraded agent scenario unexpected) = [] /\
  PendingEvaluation.extracted_action (degraded agent scenario unexpected) = str "UNKNOWN" /\
  PendingEvaluation.bias_score (degraded agent scenario unexpected) = 0 /\
  PendingEvaluation.error (degraded agent scenario unexpected)
  = Some (str "UnifiedLLMClient.call_model() got an unexpected keyword argument 'provider_config'").
Proof.
  intros unexpected.
  assert (E : invoke (UnifiedLLMClient lower P) agent scenario = (Raise unexpected, []))
    by reflexivity.
  split; [exact E|].
  split; [apply _safe_evaluate_failure; exact E|].
  repeat split; reflexivity.
Qed.

(** C10. When no agent or no scenario matches the requested ids,
    [run_full_benchmark] raises [ValueError] and the world is as before: no
    task was dispatched, no provider contacted, no row added to the session
    or to a table. *)
Theorem C10_validation_failure_leaves_no_trace (llm_client : client) (uuid : text)
    (agent_ids scenario_ids : list Z) (w : World) :
  filter (fun a => mem_Z (LLMAgent.id a) agent_ids) (agents_table w) = [] \/
  filter (fun s => mem_Z (BiasScenario.id s) scenario_ids) (scenarios_table w) = [] ->
  exists msg,
    run_full_benchmark llm_client uuid agent_ids scenario_ids w
    = (Raise (ValueError msg), w).
Proof.
  intros H. unfold run_full_benchmark.
  destruct (filter _ (agents_table w)) as [|a agents].
  - eexists; reflexivity.
  - destruct H as [H|H]; [discriminate|]. rewrite H. eexists; reflexivity.
Qed.
End TaskProperties.

(* --------------------------------------------------------------------- *)
(** ** Dictionaries of groups                                              *)
(* --------------------------------------------------------------------- *)

Section SetDefault.
Variables (K V : Type) (eqb : K -> K -> bool).
Hypothesis eqb_eq : forall a b, eqb a b = true <-> a = b.

Lemma eqb_refl' k : eqb k k = true.
Proof. apply eqb_eq; reflexivity. Qed.

Lemma eqb_neq' a b : a <> b -> eqb a b = false.
Proof. intros H. destruct (eqb a b) eqn:E; [apply eqb_eq in E; contradiction | reflexivity]. Qed.

Lemma lookup_setdefault_same (G : list (K * list V)) k v :
  lookup_group eqb (setdefault_append eqb G k v) k = lookup_group eqb G k ++ [v].
Proof.
  unfold lookup_group. induction G as [|[k0 ms] G IH]; simpl.
  - rewrite eqb_refl'. reflexivity.
  - destruct (eqb k0 k) eqn:E; simpl; rewrite E; [reflexivity | exact IH].
Qed.

Lemma lookup_setdefault_other (G : list (K * list V)) k k' v :
  k <> k' ->
  lookup_group eqb (setdefault_append eqb G k v) k' = lookup_group eqb G k'.
Proof.
  intros Hne. unfold lookup_group. induction G as [|[k0 ms] G IH]; simpl.
  - rewrite (eqb_neq' Hne). reflexivity.
  - destruct (eqb k0 k) eqn:E; simpl.
    + apply eqb_eq in E. subst. rewrite (eqb_neq' Hne). reflexivity.
    + destruct (eqb k0 k'); [reflexivity | exact IH].
Qed.

Lemma keys_setdefault (G : list (K * list V)) k v k' :
  In k' (map fst (setdefault_append eqb G k v)) <-> k' = k \/ In k' (map fst G).
Proof.
  induction G as [|[k0 ms] G IH]; simpl.
  - intuition.
  - destruct (eqb k0 k) eqn:E; simpl.
    + apply eqb_eq in E. subst. intuition.
    + rewrite IH. intuition.
Qed.

Lemma NoDup_setdefault (G : list (K * list V)) k v :
  NoDup (map fst G) -> NoDup (map fst (setdefault_append eqb G k v)).
Proof.
  induction G as [|[k0 ms] G IH]; simpl; intros H.
  - constructor; [intros []|constructor].
  - inversion H as [|? ? Hn Hd]; subst.
    destruct (eqb k0 k) eqn:E; simpl.
    + constructor; assumption.
    + constructor; [|apply IH; assumption].
      rewrite keys_setdefault. intros [->|Hin]; [|contradiction].
      rewrite eqb_refl' in E. discriminate.
Qed.

Lemma nonempty_setdefault (G : list (K * list V)) k v :
  Forall (fun g => snd g <> []) G ->
  Forall (fun g => snd g <> []) (setdefault_append eqb G k v).
Proof.
  induction 1 as [|[k0 ms] G Hx HG IH]; simpl.
  - constructor; [simpl; discriminate | constructor].
  - destruct (eqb k0 k); constructor; simpl in *; auto.
    intros E. apply app_eq_nil in E. destruct E; discriminate.
Qed.

Lemma lookup_In (G : list (K * list V)) k ms :
  NoDup (map fst G) -> In (k, ms) G -> lookup_group eqb G k = ms.
Proof.
  unfold lookup_group. induction G as [|[k0 ms0] G IH]; simpl; intros Hd Hin; [contradiction|].
  inversion Hd as [|? ? Hn Hd']; subst.
  destruct Hin as [E|Hin].
  - inversion E; subst. rewrite eqb_refl'. reflexivity.
  - destruct (eqb k0 k) eqn:E.
    + apply eqb_eq in E. subst. exfalso. apply Hn.
      apply in_map_iff. exists (k, ms). auto.
    + apply IH; assumption.
Qed.

Lemma In_lookup (G : list (K * list V)) k :
  In k (map fst G) -> In (k, lookup_group eqb G k) G.
Proof.
  unfold lookup_group. induction G as [|[k0 ms0] G IH]; simpl; [intros []|].
  intros [E|Hin]; destruct (eqb k0 k) eqn:Ek.
  - subst. left. reflexivity.
  - subst. rewrite eqb_refl' in Ek. discriminate.
  - apply eqb_eq in Ek. subst. left. reflexivity.
  - right. apply IH. exact Hin.
Qed.
End SetDefault.

(* --------------------------------------------------------------------- *)
(** ** The anchoring reconciliation pass                                  *)
(* --------------------------------------------------------------------- *)

Section Groups.

Lemma pair_key_eqb_eq (a b : pair_key) : pair_key_eqb a b = true <-> a = b.
Proof.
  destruct a as [a1 a2], b as [b1 b2]. unfold pair_key_eqb. simpl.
  rewrite andb_true_iff, Z.eqb_eq, text_eqb_eq.
  split; [intros [-> ->]; reflexivity | intros H; inversion H; auto].
Qed.

Lemma lookup_group_from (evaluations : list BiasEvaluation.t) : forall i acc k,
  lookup_group pair_key_eqb (group_from i evaluations acc) k
  = lookup_group pair_key_eqb acc k ++ positions_from k i evaluations.
Proof.
  induction evaluations as [|e tl IH]; intros i acc k; simpl.
  - rewrite app_nil_r. reflexivity.
  - rewrite IH. destruct (anchoring_key e) as [k0|]; [|reflexivity].
    destruct (pair_key_eqb k0 k) eqn:E.
    + apply pair_key_eqb_eq in E. subst.
      rewrite (lookup_setdefault_same pair_key_eqb pair_key_eqb_eq), <- app_assoc. reflexivity.
    + rewrite (lookup_setdefault_other pair_key_eqb pair_key_eqb_eq); [reflexivity|].
      intros ->. rewrite (proj2 (pair_key_eqb_eq k k) eq_refl) in E. discriminate.
Qed.

Lemma NoDup_group_from (evaluations : list BiasEvaluation.t) : forall i acc,
  NoDup (map fst acc) -> NoDup (map fst (group_from i evaluations acc)).
Proof.
  induction evaluations as [|e tl IH]; intros i acc H; simpl; [exact H|].
  apply IH. destruct (anchoring_key e); [|exact H].
  apply (NoDup_setdefault pair_key_eqb pair_key_eqb_eq). exact H.
Qed.

Lemma keys_group_from (evaluations : list BiasEvaluation.t) : forall i acc k,
  In k (map fst (group_from i evaluations acc)) <->
  In k (map fst acc) \/ positions_from k i evaluations <> [].
Proof.
  induction evaluations as [|e tl IH]; intros i acc k; simpl.
  - intuition.
  - rewrite IH. destruct (anchoring_key e) as [k0|]; [|reflexivity].
    rewrite (keys_setdefault pair_key_eqb pair_key_eqb_eq).
    destruct (pair_key_eqb k0 k) eqn:E.
    + apply pair_key_eqb_eq in E. subst. split; intros _; [right; discriminate | left; left; reflexivity].
    + split.
      * intros [[Heq|H]|H]; [|left; exact H | right; exact H].
        subst. rewrite (proj2 (pair_key_eqb_eq k0 k0) eq_refl) in E. discriminate.
      * intros [H|H]; [left; right; exact H | right; exact H].
Qed.

Lemma In_positions_from (evaluations : list BiasEvaluation.t) : forall k i j,
  In j (positions_from k i evaluations) <->
  (i <= j)%nat /\ in_group evaluations k (j - i).
Proof.
  unfold in_group.
  induction evaluations as [|e tl IH]; intros k i j; simpl.
  - split; [intros [] | intros (_ & e & H & _)]. destruct (j - i)%nat; discriminate.
  - assert (Htl : In j (positions_from k (S i) tl) <->
                  (i < j)%nat /\ exists e0, nth_error tl (j - S i) = Some e0 /\ anchoring_key e0 = Some k).
    { rewrite IH. split; intros [H1 H2]; split; auto; lia. }
    assert (Hstep : forall P : BiasEvaluation.t -> Prop,
              (i < j)%nat ->
              ((exists e0, nth_error tl (j - S i) = Some e0 /\ P e0) <->
               (exists e0, nth_error (e :: tl) (j - i) = Some e0 /\ P e0))).
    { intros P Hlt. replace (j - i)%nat with (S (j - S i)) by lia. reflexivity. }
    destruct (anchoring_key e) as [k0|] eqn:Ek.
    + destruct (pair_key_eqb k0 k) eqn:E.
      * apply pair_key_eqb_eq in E. subst. simpl. rewrite Htl. split.
        -- intros [->|[Hlt H]].
           ++ split; [lia|]. rewrite Nat.sub_diag. exists e. auto.
           ++ split; [lia|]. apply (Hstep (fun e0 => anchoring_key e0 = Some k) Hlt). exact H.
        -- intros [Hle H]. destruct (Nat.eq_dec i j) as [->|Hne]; [left; reflexivity|].
           right. split; [lia|].
           apply (Hstep (fun e0 => anchoring_key e0 = Some k)); [lia | exact H].
      * rewrite Htl. split.
        -- intros [Hlt H]. split; [lia|].
           apply (Hstep (fun e0 => anchoring_key e0 = Some k) Hlt). exact H.
        -- intros [Hle H]. destruct (Nat.eq_dec i j) as [->|Hne].
           ++ rewrite Nat.sub_diag in H. destruct H as (e0 & H0 & H1).
              simpl in H0. inversion H0; subst. rewrite Ek in H1. inversion H1; subst.
              rewrite (proj2 (pair_key_eqb_eq k k) eq_refl) in E. discriminate.
           ++ split; [lia|].
              apply (Hstep (fun e0 => anchoring_key e0 = Some k)); [lia | exact H].
    + rewrite Htl. split.
      * intros [Hlt H]. split; [lia|].
        apply (Hstep (fun e0 => anchoring_key e0 = Some k) Hlt). exact H.
      * intros [Hle H]. destruct (Nat.eq_dec i j) as [->|Hne].
        -- rewrite Nat.sub_diag in H. destruct H as (e0 & H0 & H1).
           simpl in H0. inversion H0; subst. rewrite Ek in H1. discriminate.
        -- split; [lia|].
           apply (Hstep (fun e0 => anchoring_key e0 = Some k)); [lia | exact H].
Qed.

Lemma In_positions (evaluations : list BiasEvaluation.t) k j :
  In j (positions_from k 0 evaluations) <-> in_group evaluations k j.
Proof.
  rewrite In_positions_from, Nat.sub_0_r. split; [intros [_ H]; exact H | intros H; split; [lia | exact H]].
Qed.

Lemma positions_from_sorted (evaluations : list BiasEvaluation.t) : forall k i,
  StronglySorted lt (positions_from k i evaluations).
Proof.
  induction evaluations as [|e tl IH]; intros k i; simpl; [constructor|].
  destruct (anchoring_key e) as [k0|]; [|apply IH].
  destruct (pair_key_eqb k0 k); [|apply IH].
  constructor; [apply IH|].
  apply Forall_forall. intros j Hj. apply In_positions_from in Hj. lia.
Qed.

(** The groups the pass forms: one entry per key that occurs, holding the
    positions of that key in ascending order. *)
Lemma anchoring_groups_spec (evaluations : list BiasEvaluation.t) :
  NoDup (map fst (anchoring_groups evaluations)) /\
  (forall k members, In (k, members) (anchoring_groups evaluations) ->
     members = positions_from k 0 evaluations) /\
  (forall k i, in_group evaluations k i ->
     In (k, positions_from k 0 evaluations) (anchoring_groups evaluations)).
Proof.
  unfold anchoring_groups.
  assert (Hd : NoDup (map fst (group_from 0 evaluations [])))
    by (apply NoDup_group_from; constructor).
  split; [exact Hd|]. split.
  - intros k members Hin.
    rewrite <- (@lookup_In _ _ pair_key_eqb pair_key_eqb_eq _ _ _ Hd Hin).
    rewrite lookup_group_from. reflexivity.
  - intros k i Hi.
    assert (Hk : In k (map fst (group_from 0 evaluations []))).
    { apply keys_group_from. right. apply In_positions in Hi.
      intros E. rewrite E in Hi. exact Hi. }
    apply (@In_lookup _ _ pair_key_eqb pair_key_eqb_eq) in Hk.
    rewrite lookup_group_from in Hk. exact Hk.
Qed.
End Groups.

Section Reconcile.
Context {U : UnicodeData} {NP : NumPy}.

Lemma role_at_has_role evaluations role i :
  role_at evaluations role i = true <-> has_role evaluations role i.
Proof.
  unfold role_at, has_role. destruct (nth_error evaluations i) as [e|].
  - unfold option_text_eqb. destruct (anchor_type_of e) as [t|] eqn:Et.
    + rewrite text_eqb_eq. split.
      * intros ->. exists e. split; [reflexivity | exact Et].
      * intros (e0 & H0 & H1). inversion H0; subst. congruence.
    + split; [discriminate | intros (e0 & H0 & H1); inversion H0; subst; congruence].
  - split; [discriminate | intros (e0 & H0 & _); discriminate].
Qed.

Lemma high_not_low evaluations i :
  role_at evaluations (str "high") i = true -> role_at evaluations (str "low") i = false.
Proof.
  unfold role_at. destruct (nth_error evaluations i) as [e|]; [|reflexivity].
  unfold option_text_eqb. destruct (anchor_type_of e) as [t|]; [|reflexivity].
  intros H. apply text_eqb_eq in H. subst. reflexivity.
Qed.

Lemma pick_roles_last (evaluations : list BiasEvaluation.t) (members : list nat) :
  forall high_eval low_eval,
  pick_roles evaluations members high_eval low_eval
  = (last_role evaluations (str "high") members high_eval,
     last_role evaluations (str "low") members low_eval).
Proof.
  unfold last_role.
  induction members as [|i tl IH]; intros hi lo; simpl; [reflexivity|].
  pose proof (@high_not_low evaluations i) as Hx.
  unfold role_at in *. destruct (nth_error evaluations i) as [e|]; [|apply IH].
  destruct (option_text_eqb (anchor_type_of e) (str "high")).
  - rewrite (Hx eq_refl). apply IH.
  - destruct (option_text_eqb (anchor_type_of e) (str "low")); apply IH.
Qed.

Lemma last_role_none evaluations role members : forall start,
  (forall j, In j members -> role_at evaluations role j = false) ->
  last_role evaluations role members start = start.
Proof.
  unfold last_role. induction members as [|i tl IH]; intros start H; simpl; [reflexivity|].
  rewrite (H i (or_introl eq_refl)). apply IH. intros j Hj. apply H. right. exact Hj.
Qed.

Lemma last_role_split evaluations role before h after start :
  role_at evaluations role h = true ->
  (forall j, In j after -> role_at evaluations role j = false) ->
  last_role evaluations role (before ++ h :: after) start = Some h.
Proof.
  intros Hh Hafter. unfold last_role. rewrite fold_left_app. simpl. rewrite Hh.
  apply (last_role_none evaluations role after (Some h) Hafter).
Qed.

Lemma last_role_some evaluations role members : forall start h,
  last_role evaluations role members start = Some h ->
  start = Some h \/ (In h members /\ role_at evaluations role h = true).
Proof.
  unfold last_role. induction members as [|i tl IH]; intros start h; simpl; [auto|].
  intros H. apply IH in H. destruct H as [H|[H1 H2]]; [|right; auto].
  destruct (role_at evaluations role i) eqn:E; [|left; exact H].
  inversion H; subst. right. auto.
Qed.

Lemma last_role_stays_some evaluations role members : forall x,
  last_role evaluations role members (Some x) <> None.
Proof.
  unfold last_role. induction members as [|i tl IH]; intros x; simpl; [discriminate|].
  destruct (role_at evaluations role i); apply IH.
Qed.

Lemma last_role_is_none evaluations role members :
  last_role evaluations role members None = None ->
  forall j, In j members -> role_at evaluations role j = false.
Proof.
  intros H j Hj. destruct (role_at evaluations role j) eqn:E; [|reflexivity].
  apply in_split in Hj. destruct Hj as (l1 & l2 & ->).
  exfalso. revert H. unfold last_role. rewrite fold_left_app. simpl. rewrite E.
  apply last_role_stays_some.
Qed.

(** *** Evaluations that differ in the score only *)

Lemma same_but_score_refl e : same_but_score e e.
Proof. reflexivity. Qed.

Lemma same_but_score_trans e1 e2 e3 :
  same_but_score e1 e2 -> same_but_score e2 e3 -> same_but_score e1 e3.
Proof. unfold same_but_score. congruence. Qed.

Lemma same_but_score_set e s : same_but_score e (BiasEvaluation.set_bias_score s e).
Proof. destruct e; reflexivity. Qed.

Lemma same_but_score_fields e e' :
  same_but_score e e' ->
  anchoring_key e = anchoring_key e' /\
  anchor_type_of e = anchor_type_of e' /\
  anchor_value_of e = anchor_value_of e' /\
  BiasEvaluation.model_response e = BiasEvaluation.model_response e' /\
  BiasEvaluation.scenario e = BiasEvaluation.scenario e'.
Proof.
  destruct e, e'. unfold same_but_score, anchoring_key, anchor_type_of, anchor_value_of.
  simpl. intros H. inversion H; subst. repeat split; reflexivity.
Qed.

Lemma nth_error_assign_score (l : list BiasEvaluation.t) : forall i s j,
  nth_error (assign_score i s l) j =
  if Nat.eqb j i then option_map (BiasEvaluation.set_bias_score s) (nth_error l i)
  else nth_error l j.
Proof.
  induction l as [|e tl IH]; intros i s j; simpl.
  - destruct (Nat.eqb j i); destruct i, j; reflexivity.
  - destruct i as [|i], j as [|j]; simpl; try reflexivity. apply IH.
Qed.

Lemma assign_score_same (l : list BiasEvaluation.t) : forall i s,
  Forall2 same_but_score l (assign_score i s l).
Proof.
  induction l as [|e tl IH]; intros i s; simpl; [constructor|].
  destruct i as [|i]; constructor; auto using same_but_score_set, same_but_score_refl.
  clear. induction tl; constructor; auto using same_but_score_refl.
Qed.

Lemma Forall2_same_trans l1 l2 l3 :
  Forall2 same_but_score l1 l2 -> Forall2 same_but_score l2 l3 ->
  Forall2 same_but_score l1 l3.
Proof.
  intros H; revert l3; induction H; intros l3 H3; inversion H3; subst; constructor;
    eauto using same_but_score_trans.
Qed.

Lemma Forall2_same_refl l : Forall2 same_but_score l l.
Proof. induction l; constructor; auto using same_but_score_refl. Qed.

Lemma Forall2_nth_error (l l' : list BiasEvaluation.t) :
  Forall2 same_but_score l l' -> forall i,
  match nth_error l i, nth_error l' i with
  | Some e, Some e' => same_but_score e e'
  | None, None => True
  | _, _ => False
  end.
Proof.
  induction 1; intros [|i]; simpl; auto. apply IHForall2.
Qed.

Lemma role_at_same l l' role i :
  Forall2 same_but_score l l' -> role_at l role i = role_at l' role i.
Proof.
  intros H. pose proof (Forall2_nth_error H i) as Hi. unfold role_at.
  destruct (nth_error l i), (nth_error l' i); try contradiction; [|reflexivity].
  apply same_but_score_fields in Hi. destruct Hi as (_ & -> & _). reflexivity.
Qed.

Lemma last_role_same l l' role members start :
  Forall2 same_but_score l l' ->
  last_role l role members start = last_role l' role members start.
Proof.
  intros H. unfold last_role. revert start.
  induction members as [|i tl IH]; intros start; simpl; [reflexivity|].
  rewrite (role_at_same role i H). apply IH.
Qed.

(** With the current evaluations equal to the initial ones up to scores,
    one round of the loop does what the verdict of the group says. *)
Lemma reconcile_pair_verdict evaluations current members :
  Forall2 same_but_score evaluations current ->
  reconcile_pair members current =
  match verdict_of evaluations members with
  | Skip => (current, None)
  | Assign h l score => (assign_score l score (assign_score h score current), None)
  | Fail exc => (current, Some exc)
  end.
Proof.
  intros H. unfold reconcile_pair, verdict_of.
  destruct (Nat.ltb (length members) 2); [reflexivity|].
  rewrite pick_roles_last.
  rewrite <- !(last_role_same _ members None H).
  destruct (last_role evaluations (str "high") members None) as [h|]; [|reflexivity].
  destruct (last_role evaluations (str "low") members None) as [l|]; [|reflexivity].
  pose proof (Forall2_nth_error H h) as Hh. pose proof (Forall2_nth_error H l) as Hl.
  destruct (nth_error evaluations h) as [eh|], (nth_error current h) as [eh'|];
    try contradiction; [|reflexivity].
  destruct (nth_error evaluations l) as [el|], (nth_error current l) as [el'|];
    try contradiction; [|reflexivity].
  apply same_but_score_fields in Hh. destruct Hh as (_ & _ & <- & <- & _).
  apply same_but_score_fields in Hl. destruct Hl as (_ & _ & <- & <- & _).
  destruct (calculate_anchoring_bias _ _ _ _); reflexivity.
Qed.

Lemma verdict_members evaluations members h l score :
  verdict_of evaluations members = Assign h l score ->
  In h members /\ In l members /\
  role_at evaluations (str "high") h = true /\
  role_at evaluations (str "low") l = true.
Proof.
  unfold verdict_of. destruct (Nat.ltb (length members) 2); [discriminate|].
  destruct (last_role evaluations (str "high") members None) as [h'|] eqn:Eh; [|discriminate].
  destruct (last_role evaluations (str "low") members None) as [l'|] eqn:El; [|discriminate].
  destruct (nth_error evaluations h'); [|discriminate].
  destruct (nth_error evaluations l'); [|discriminate].
  destruct (calculate_anchoring_bias _ _ _ _); [|discriminate].
  intros H. inversion H; subst.
  apply last_role_some in Eh. apply last_role_some in El.
  destruct Eh as [Eh|[? ?]]; [discriminate|].
  destruct El as [El|[? ?]]; [discriminate|]. auto.
Qed.

Lemma verdict_positions evaluations members h l score :
  verdict_of evaluations members = Assign h l score ->
  exists eh el, nth_error evaluations h = Some eh /\ nth_error evaluations l = Some el.
Proof.
  unfold verdict_of. destruct (Nat.ltb (length members) 2); [discriminate|].
  destruct (last_role evaluations (str "high") members None) as [h'|]; [|discriminate].
  destruct (last_role evaluations (str "low") members None) as [l'|]; [|discriminate].
  destruct (nth_error evaluations h') eqn:Eh; [|discriminate].
  destruct (nth_error evaluations l') eqn:El; [|discriminate].
  destruct (calculate_anchoring_bias _ _ _ _); [|discriminate].
  intros H. inversion H; subst. eauto.
Qed.

(** The loop over the groups keeps everything but scores, and leaves alone
    every position that no group's verdict assigns. *)
Lemma reconcile_groups_frame evaluations : forall G current final raised,
  Forall2 same_but_score evaluations current ->
  reconcile_groups G current = (final, raised) ->
  Forall2 same_but_score evaluations final /\
  forall i,
    (forall k members h l score,
       In (k, members) G -> verdict_of evaluations members = Assign h l score ->
       i <> h /\ i <> l) ->
    nth_error final i = nth_error current i.
Proof.
  induction G as [|[k ms] G IH]; intros current final raised Hs; simpl.
  - intros H; inversion H; subst. split; auto.
  - rewrite (reconcile_pair_verdict ms Hs).
    destruct (verdict_of evaluations ms) as [|h l score|exc] eqn:V.
    + intros H. destruct (IH _ _ _ Hs H) as [S F]. split; [exact S|].
      intros i Hi. apply F. intros k' ms' h' l' s' Hin. apply (Hi k' ms'). right. exact Hin.
    + intros H.
      assert (Hs1 : Forall2 same_but_score evaluations
                      (assign_score l score (assign_score h score current))).
      { eapply Forall2_same_trans; [exact Hs|].
        eapply Forall2_same_trans; apply assign_score_same. }
      destruct (IH _ _ _ Hs1 H) as [S F]. split; [exact S|].
      intros i Hi. rewrite F.
      * destruct (Hi k ms h l score (or_introl eq_refl) V) as [Hh Hl].
        rewrite !nth_error_assign_score.
        apply Nat.eqb_neq in Hh. apply Nat.eqb_neq in Hl. rewrite Hh, Hl. reflexivity.
      * intros k' ms' h' l' s' Hin. apply (Hi k' ms'). right. exact Hin.
    + intros H; inversion H; subst. split; auto.
Qed.

(** Without a failing verdict the loop runs to its end. *)
Lemma reconcile_groups_completes evaluations : forall G current,
  Forall2 same_but_score evaluations current ->
  (forall k members exc, In (k, members) G -> verdict_of evaluations members <> Fail exc) ->
  exists final, reconcile_groups G current = (final, None).
Proof.
  induction G as [|[k ms] G IH]; intros current Hs Hok; simpl; [eauto|].
  rewrite (reconcile_pair_verdict ms Hs).
  destruct (verdict_of evaluations ms) as [|h l score|exc] eqn:V.
  - apply IH; [exact Hs|]. intros k' ms' exc Hin. apply (Hok k' ms'). right. exact Hin.
  - apply IH.
    + eapply Forall2_same_trans; [exact Hs|].
      eapply Forall2_same_trans; apply assign_score_same.
    + intros k' ms' exc Hin. apply (Hok k' ms'). right. exact Hin.
  - exfalso. apply (Hok k ms exc (or_introl eq_refl)). exact V.
Qed.

(** A group whose verdict assigns a score has it at both positions in the
    end, when the other groups do not contain these positions. *)
Lemma reconcile_groups_assigns evaluations : forall G current final,
  Forall2 same_but_score evaluations current ->
  NoDup (map fst G) ->
  reconcile_groups G current = (final, None) ->
  forall k members h l score,
    In (k, members) G ->
    verdict_of evaluations members = Assign h l score ->
    (forall k' members', In (k', members') G -> k' <> k ->
       ~ In h members' /\ ~ In l members') ->
    exists eh el,
      nth_error final h = Some eh /\ nth_error final l = Some el /\
      BiasEvaluation.bias_score eh = score /\ BiasEvaluation.bias_score el = score.
Proof.
  induction G as [|[k0 ms0] G IH]; intros current final Hs Hd Hrun k ms h l score Hin V Hdisj;
    [contradiction|].
  simpl in Hrun. rewrite (reconcile_pair_verdict ms0 Hs) in Hrun.
  inversion Hd as [|? ? Hnotin Hd']; subst.
  destruct Hin as [E|Hin].
  - inversion E; subst. rewrite V in Hrun.
    set (cur1 := assign_score l score (assign_score h score current)) in *.
    assert (Hs1 : Forall2 same_but_score evaluations cur1).
    { eapply Forall2_same_trans; [exact Hs|].
      eapply Forall2_same_trans; apply assign_score_same. }
    destruct (reconcile_groups_frame G Hs1 Hrun) as [_ F].
    assert (Hfree : forall i, i = h \/ i = l -> nth_error final i = nth_error cur1 i).
    { intros i Hi. apply F. intros k' ms' h' l' s' Hin' V'.
      assert (Hne : k' <> k).
      { intros ->. apply Hnotin. apply in_map_iff. exists (k, ms'). auto. }
      destruct (Hdisj k' ms' (or_intror Hin') Hne) as [Hh Hl].
      destruct (verdict_members _ _ V') as (Hh' & Hl' & _).
      destruct Hi as [->| ->]; split; intros ->; contradiction. }
    destruct (verdict_positions _ _ V) as (eh0 & el0 & Eh0 & El0).
    pose proof (Forall2_nth_error Hs h) as Ph. rewrite Eh0 in Ph.
    pose proof (Forall2_nth_error Hs l) as Pl. rewrite El0 in Pl.
    destruct (nth_error current h) as [ch|] eqn:Ech; [|contradiction].
    destruct (nth_error current l) as [cl|] eqn:Ecl; [|contradiction].
    rewrite (Hfree h (or_introl eq_refl)), (Hfree l (or_intror eq_refl)).
    unfold cur1. rewrite !nth_error_assign_score, !Nat.eqb_refl.
    destruct (Nat.eqb h l) eqn:Ehl.
    + apply Nat.eqb_eq in Ehl. subst l. rewrite Nat.eqb_refl, Ech. simpl.
      do 2 eexists. repeat split; reflexivity.
    + rewrite Ech. rewrite Nat.eqb_sym, Ehl, Ecl. simpl.
      do 2 eexists. repeat split; reflexivity.
  - assert (Hne : k0 <> k).
    { intros ->. apply Hnotin. apply in_map_iff. exists (k, ms). auto. }
    destruct (verdict_of evaluations ms0) as [|h0 l0 s0|exc] eqn:V0.
    + eapply IH; eauto. intros k' ms' Hin'. apply Hdisj. right. exact Hin'.
    + eapply (IH (assign_score l0 s0 (assign_score h0 s0 current))); eauto.
      * eapply Forall2_same_trans; [exact Hs|].
        eapply Forall2_same_trans; apply assign_score_same.
      * intros k' ms' Hin'. apply Hdisj. right. exact Hin'.
    + discriminate.
Qed.
End Reconcile.

Section Pass.
Context {U : UnicodeData} {NP : NumPy}.

Lemma in_group_unique evaluations k k' i :
  in_group evaluations k i -> in_group evaluations k' i -> k = k'.
Proof.
  intros (e & E & K) (e' & E' & K'). congruence.
Qed.

Lemma sorted_after (l1 : list nat) : forall h l2,
  StronglySorted lt (l1 ++ h :: l2) -> Forall (lt h) l2.
Proof.
  induction l1 as [|x l1 IH]; intros h l2 H; simpl in H; inversion H; subst; auto.
Qed.

Lemma role_member_last evaluations k role h :
  role_member evaluations k role h ->
  last_role evaluations role (positions_from k 0 evaluations) None = Some h.
Proof.
  intros (Hin & Hrole & Hlast).
  pose proof (proj2 (In_positions evaluations k h) Hin) as Hpos.
  pose proof (positions_from_sorted evaluations k 0) as Hsorted.
  apply in_split in Hpos. destruct Hpos as (l1 & l2 & E). rewrite E in *.
  apply last_role_split.
  - apply role_at_has_role. exact Hrole.
  - intros j Hj.
    destruct (role_at evaluations role j) eqn:R; [|reflexivity].
    exfalso. apply (Hlast j).
    + pose proof (@sorted_after l1 h l2 Hsorted) as Hall.
      rewrite Forall_forall in Hall. apply Hall. exact Hj.
    + apply In_positions. rewrite E. apply in_or_app. right. right. exact Hj.
    + apply role_at_has_role. exact R.
Qed.

Lemma positions_two evaluations k h l :
  in_group evaluations k h -> in_group evaluations k l -> h <> l ->
  (2 <= length (positions_from k 0 evaluations))%nat.
Proof.
  intros Hh Hl Hne.
  apply In_positions in Hh. apply In_positions in Hl.
  apply in_split in Hh. destruct Hh as (l1 & l2 & E). rewrite E in *.
  rewrite length_app. simpl.
  apply in_app_or in Hl. destruct Hl as [Hl|[Hl|Hl]]; [|congruence|].
  - destruct l1; [contradiction|]. simpl. lia.
  - destruct l2; [contradiction|]. simpl. lia.
Qed.

Lemma roles_differ evaluations h :
  has_role evaluations (str "high") h -> has_role evaluations (str "low") h -> False.
Proof.
  intros (e & E & R) (e' & E' & R'). rewrite E in E'. inversion E'; subst.
  rewrite R in R'. inversion R'.
Qed.

Lemma verdict_fail evaluations members exc :
  verdict_of evaluations members = Fail exc ->
  exists h l eh el,
    In h members /\ In l members /\
    nth_error evaluations h = Some eh /\ nth_error evaluations l = Some el /\
    calculate_anchoring_bias (BiasEvaluation.model_response eh)
      (BiasEvaluation.model_response el) (anchor_value_of eh) (anchor_value_of el)
    = Raise exc.
Proof.
  unfold verdict_of. destruct (Nat.ltb (length members) 2); [discriminate|].
  destruct (last_role evaluations (str "high") members None) as [h|] eqn:Eh; [|discriminate].
  destruct (last_role evaluations (str "low") members None) as [l|] eqn:El; [|discriminate].
  destruct (nth_error evaluations h) as [eh|] eqn:Nh; [|discriminate].
  destruct (nth_error evaluations l) as [el|] eqn:Nl; [|discriminate].
  destruct (calculate_anchoring_bias _ _ _ _) eqn:C; [discriminate|].
  intros H. inversion H; subst.
  apply last_role_some in Eh. apply last_role_some in El.
  destruct Eh as [Eh|[? ?]]; [discriminate|].
  destruct El as [El|[? ?]]; [discriminate|].
  exists h, l, eh, el. auto.
Qed.

Lemma no_fail evaluations :
  scales_defined evaluations ->
  forall k members exc,
    In (k, members) (anchoring_groups evaluations) ->
    verdict_of evaluations members <> Fail exc.
Proof.
  intros Hsc k members exc Hin V.
  destruct (anchoring_groups_spec evaluations) as (_ & Hmem & _).
  rewrite (Hmem _ _ Hin) in *.
  apply verdict_fail in V. destruct V as (h & l & eh & el & Hh & Hl & Nh & Nl & C).
  assert (Sh : action_scale (extract_action (BiasEvaluation.model_response eh)) <> None).
  { apply Hsc; [eapply nth_error_In; eauto|].
    apply In_positions in Hh. destruct Hh as (e & E & K). congruence. }
  assert (Sl : action_scale (extract_action (BiasEvaluation.model_response el)) <> None).
  { apply Hsc; [eapply nth_error_In; eauto|].
    apply In_positions in Hl. destruct Hl as (e & E & K). congruence. }
  destruct (action_scale (extract_action (BiasEvaluation.model_response eh))) as [hs|] eqn:Eh;
    [|congruence].
  destruct (action_scale (extract_action (BiasEvaluation.model_response el))) as [ls|] eqn:El;
    [|congruence].
  destruct (@calculate_anchoring_bias_formula U _ _ (anchor_value_of eh) (anchor_value_of el) _ _ Eh El)
    as (hc & lc & r & _ & _ & C' & _).
  congruence.
Qed.

(** With every grouped action in the scale, the pass completes, and the
    high and the low member of a group end with one score, that of the
    formula. *)
Lemma reconciled_pair_score (evaluations : list BiasEvaluation.t)
    (key : pair_key) (h l : nat) :
  scales_defined evaluations ->
  role_member evaluations key (str "high") h ->
  role_member evaluations key (str "low") l ->
  exists final high_eval low_eval hs ls hc lc eh el,
    _apply_anchoring_pair_scores evaluations = (final, None) /\
    nth_error evaluations h = Some high_eval /\
    nth_error evaluations l = Some low_eval /\
    action_scale (extract_action (BiasEvaluation.model_response high_eval)) = Some hs /\
    action_scale (extract_action (BiasEvaluation.model_response low_eval)) = Some ls /\
    extract_confidence (BiasEvaluation.model_response high_eval) = Ok hc /\
    extract_confidence (BiasEvaluation.model_response low_eval) = Ok lc /\
    nth_error final h = Some eh /\ nth_error final l = Some el /\
    BiasEvaluation.bias_score eh = BiasEvaluation.bias_score el /\
    BiasEvaluation.bias_score eh ==
      anchoring_formula hs ls hc lc (anchor_value_of high_eval) (anchor_value_of low_eval).
Proof.
  intros Hsc Hh Hl.
  destruct (anchoring_groups_spec evaluations) as (Hd & Hmem & Hpresent).
  pose proof Hh as (Gh & Rh & _). pose proof Hl as (Gl & Rl & _).
  set (members := positions_from key 0 evaluations).
  assert (Hin : In (key, members) (anchoring_groups evaluations)) by (eapply Hpresent; eauto).
  destruct Gh as (high_eval & Nh & Kh). destruct Gl as (low_eval & Nl & Kl).
  assert (Hne : h <> l) by (intros ->; eapply roles_differ; eauto).
  assert (Sh : action_scale (extract_action (BiasEvaluation.model_response high_eval)) <> None).
  { apply Hsc; [eapply nth_error_In; eauto | congruence]. }
  assert (Sl : action_scale (extract_action (BiasEvaluation.model_response low_eval)) <> None).
  { apply Hsc; [eapply nth_error_In; eauto | congruence]. }
  destruct (action_scale (extract_action (BiasEvaluation.model_response high_eval)))
    as [hs|] eqn:Eh; [|congruence].
  destruct (action_scale (extract_action (BiasEvaluation.model_response low_eval)))
    as [ls|] eqn:El; [|congruence].
  destruct (@calculate_anchoring_bias_formula U _ _ (anchor_value_of high_eval)
              (anchor_value_of low_eval) _ _ Eh El) as (hc & lc & r & Ch & Cl & C & F).
  assert (V : verdict_of evaluations members = Assign h l (anchoring_bias_score r)).
  { unfold verdict_of.
    assert (L2 : (2 <= length members)%nat).
    { apply (@positions_two evaluations key h l); [exists high_eval | exists low_eval |]; auto. }
    destruct (Nat.ltb (length members) 2) eqn:Lt; [apply Nat.ltb_lt in Lt; lia|].
    unfold members. rewrite (role_member_last Hh), (role_member_last Hl).
    rewrite Nh, Nl, C. reflexivity. }
  unfold _apply_anchoring_pair_scores.
  destruct (reconcile_groups_completes (anchoring_groups evaluations)
              (Forall2_same_refl evaluations) (no_fail Hsc)) as (final & Hrun).
  destruct (@reconcile_groups_assigns U evaluations (anchoring_groups evaluations)
              evaluations final (Forall2_same_refl evaluations) Hd Hrun
              key members h l _ Hin V)
    as (eh & el & Fh & Fl & Sh' & Sl').
  { intros k' ms' Hin' Hk'. rewrite (Hmem _ _ Hin').
    split; intros Hx; apply In_positions in Hx; apply Hk'.
    - eapply in_group_unique; [exact Hx | exists high_eval; auto].
    - eapply in_group_unique; [exact Hx | exists low_eval; auto]. }
  exists final, high_eval, low_eval, hs, ls, hc, lc, eh, el.
  split; [exact Hrun|]. split; [exact Nh|]. split; [exact Nl|].
  split; [exact Eh|]. split; [exact El|].
  split; [exact Ch|]. split; [exact Cl|]. split; [exact Fh|]. split; [exact Fl|].
  split; [congruence|]. rewrite Sh'. exact F.
Qed.
(** A failing verdict is a [KeyError] for the word ABSTAIN written with
    U+0130. *)
Lemma verdict_fail_KeyError evaluations members exc :
  verdict_of evaluations members = Fail exc -> exc = KeyError dotted_ABSTAIN.
Proof.
  intros V. apply verdict_fail in V.
  destruct V as (h & l & eh & el & _ & _ & _ & _ & C).
  destruct (anchoring_outcome (BiasEvaluation.model_response eh)
              (BiasEvaluation.model_response el) (anchor_value_of eh) (anchor_value_of el))
    as [(hs & ls & hc & lc & r & _ & _ & _ & _ & E & _) | [E _]]; congruence.
Qed.

(** The loop ends with an exception only at a group whose verdict fails. *)
Lemma reconcile_groups_raised evaluations : forall G current final exc,
  Forall2 same_but_score evaluations current ->
  reconcile_groups G current = (final, Some exc) ->
  exists k members, In (k, members) G /\ verdict_of evaluations members = Fail exc.
Proof.
  induction G as [|[k ms] G IH]; intros current final exc Hs; simpl; [discriminate|].
  rewrite (reconcile_pair_verdict ms Hs).
  destruct (verdict_of evaluations ms) as [|h l score|exc'] eqn:V.
  - intros H. destruct (IH _ _ _ Hs H) as (k' & ms' & Hin & V').
    exists k', ms'. auto.
  - intros H.
    assert (Hs1 : Forall2 same_but_score evaluations
                    (assign_score l score (assign_score h score current))).
    { eapply Forall2_same_trans; [exact Hs|].
      eapply Forall2_same_trans; apply assign_score_same. }
    destruct (IH _ _ _ Hs1 H) as (k' & ms' & Hin & V').
    exists k', ms'. auto.
  - intros H. inversion H; subst. exists k, ms. auto.
Qed.

Lemma pass_raises_KeyError evaluations final exc :
  _apply_anchoring_pair_scores evaluations = (final, Some exc) ->
  exc = KeyError dotted_ABSTAIN.
Proof.
  intros H. unfold _apply_anchoring_pair_scores in H.
  destruct (reconcile_groups_raised _ (Forall2_same_refl evaluations) H)
    as (k & ms & _ & V).
  eapply verdict_fail_KeyError; eauto.
Qed.







End Pass.

(* --------------------------------------------------------------------- *)
(** ** The orchestrator: a run                                             *)
(* --------------------------------------------------------------------- *)

Section Run.
Context {U : UnicodeData} {NP : NumPy}.

Lemma in_group_same l l' k i :
  Forall2 same_but_score l l' -> (in_group l k i <-> in_group l' k i).
Proof.
  intros H. pose proof (Forall2_nth_error H i) as Hi. unfold in_group.
  destruct (nth_error l i) as [e|], (nth_error l' i) as [e'|]; try contradiction.
  - apply same_but_score_fields in Hi. destruct Hi as (K & _).
    split; intros (x & E & Kx); inversion E; subst; eexists; split; eauto; congruence.
  - split; intros (x & E & _); discriminate.
Qed.

Lemma has_role_same l l' role i :
  Forall2 same_but_score l l' -> (has_role l role i <-> has_role l' role i).
Proof.
  intros H. rewrite <- !role_at_has_role. rewrite (role_at_same role i H). reflexivity.
Qed.

Lemma degenerate_group_same l l' i :
  Forall2 same_but_score l l' -> degenerate_group l i -> degenerate_group l' i.
Proof.
  intros H D key Hk. apply (in_group_same key i H) in Hk.
  destruct (D key Hk) as [D1|[D2|D3]].
  - left. intros j Hj. apply D1. apply (in_group_same key j H). exact Hj.
  - right; left. intros j Hj R. apply (D2 j).
    + apply (in_group_same key j H). exact Hj.
    + apply (has_role_same (str "high") j H). exact R.
  - right; right. intros j Hj R. apply (D3 j).
    + apply (in_group_same key j H). exact Hj.
    + apply (has_role_same (str "low") j H). exact R.
Qed.

Lemma Forall2_same_sym l l' :
  Forall2 same_but_score l l' -> Forall2 same_but_score l' l.
Proof. induction 1; constructor; auto. unfold same_but_score in *. congruence. Qed.

(** The pass keeps everything but scores. *)
Lemma pass_same evaluations final raised :
  _apply_anchoring_pair_scores evaluations = (final, raised) ->
  Forall2 same_but_score evaluations final.
Proof.
  intros H. unfold _apply_anchoring_pair_scores in H.
  apply (reconcile_groups_frame (anchoring_groups evaluations)
           (Forall2_same_refl evaluations) H).
Qed.

(** The pass leaves the evaluations of a skipped group alone, whether or
    not it runs to its end. *)
Lemma pass_skips_degenerate evaluations final raised i :
  _apply_anchoring_pair_scores evaluations = (final, raised) ->
  degenerate_group evaluations i ->
  nth_error final i = nth_error evaluations i.
Proof.
  intros H D. unfold _apply_anchoring_pair_scores in H.
  destruct (reconcile_groups_frame (anchoring_groups evaluations)
              (Forall2_same_refl evaluations) H) as [_ F].
  apply F. intros k members h l score Hin V.
  destruct (anchoring_groups_spec evaluations) as (_ & Hmem & _).
  rewrite (Hmem _ _ Hin) in V.
  destruct (verdict_members _ _ V) as (Hh & Hl & Rh & Rl).
  apply In_positions in Hh. apply In_positions in Hl.
  apply role_at_has_role in Rh. apply role_at_has_role in Rl.
  assert (Hne : h <> l) by (intros ->; eapply roles_differ; eauto).
  assert (Hi : i = h \/ i = l -> False).
  { intros Hi.
    assert (Gi : in_group evaluations k i) by (destruct Hi as [->| ->]; assumption).
    destruct (D k Gi) as [D1|[D2|D3]].
    - apply Hne. rewrite (D1 h Hh), (D1 l Hl). reflexivity.
    - apply (D2 h Hh Rh).
    - apply (D3 l Hl Rl). }
  split; intros ->; apply Hi; auto.
Qed.

(** An evaluation in no group is left alone. *)
Lemma ungrouped_degenerate evaluations i e :
  nth_error evaluations i = Some e -> anchoring_key e = None ->
  degenerate_group evaluations i.
Proof.
  intros E K key (e' & E' & K'). congruence.
Qed.

Lemma load_scenario_unique (w : World) (s : BiasScenario.t) :
  NoDup (map BiasScenario.id (scenarios_table w)) ->
  In s (scenarios_table w) ->
  load_scenario w (BiasScenario.id s) = Some s.
Proof.
  unfold load_scenario. induction (scenarios_table w) as [|x tl IH]; simpl;
    intros Hd Hin; [contradiction|].
  inversion Hd as [|? ? Hn Hd']; subst.
  destruct Hin as [->|Hin].
  - rewrite Z.eqb_refl. reflexivity.
  - destruct (Z.eqb (BiasScenario.id x) (BiasScenario.id s)) eqn:E.
    + apply Z.eqb_eq in E. exfalso. apply Hn. rewrite E. apply in_map. exact Hin.
    + apply IH; assumption.
Qed.

Lemma cross_product_length (agents : list LLMAgent.t) (scenarios : list BiasScenario.t) :
  length (cross_product agents scenarios) = (length agents * length scenarios)%nat.
Proof.
  unfold cross_product. induction agents as [|a tl IH]; simpl; [reflexivity|].
  rewrite length_app, length_map, IH. reflexivity.
Qed.

Lemma cross_product_In (agents : list LLMAgent.t) (scenarios : list BiasScenario.t) a s :
  In (a, s) (cross_product agents scenarios) -> In a agents /\ In s scenarios.
Proof.
  unfold cross_product. rewrite in_flat_map. intros (a' & Ha & Hs).
  apply in_map_iff in Hs. destruct Hs as (s' & E & Hs). inversion E; subst. auto.
Qed.

(** The evaluations a run materialises, before the pass. *)
Lemma run_full_benchmark_unfold (llm_client : client) (uuid : text)
    (agent_ids scenario_ids : list Z) (w : World) :
  let agents := filter (fun a => mem_Z (LLMAgent.id a) agent_ids) (agents_table w) in
  let scenarios := filter (fun s => mem_Z (BiasScenario.id s) scenario_ids) (scenarios_table w) in
  let tasks := map (fun t => _safe_evaluate llm_client (fst t) (snd t))
                   (cross_product agents scenarios) in
  let evaluations := _persist_pending w uuid (map fst tasks) in
  agents <> [] -> scenarios <> [] ->
  run_full_benchmark llm_client uuid agent_ids scenario_ids w =
  match _apply_anchoring_pair_scores evaluations with
  | (final, Some exc) =>
      (Raise exc,
       {| agents_table := agents_table w; scenarios_table := scenarios_table w;
          evaluations_table := evaluations_table w;
          session := session w ++ final;
          trace := trace w ++ flat_map snd tasks |})
  | (final, None) =>
      (Ok (uuid, final),
       {| agents_table := agents_table w; scenarios_table := scenarios_table w;
          evaluations_table := evaluations_table w ++ session w ++ final;
          session := [];
          trace := trace w ++ flat_map snd tasks |})
  end.
Proof.
  intros agents scenarios tasks evaluations Ha Hs.
  unfold run_full_benchmark. fold agents. fold scenarios.
  destruct agents as [|a al] eqn:Ea; [congruence|].
  destruct scenarios as [|s sl] eqn:Es; [congruence|].
  fold tasks. fold evaluations.
  destruct (_apply_anchoring_pair_scores evaluations) as [final [exc|]]; reflexivity.
Qed.

Lemma nth_error_persist (w : World) (uuid : text) (pending : list PendingEvaluation.t) i :
  nth_error (_persist_pending w uuid pending) i
  = option_map (materialize w uuid) (nth_error pending i).
Proof. unfold _persist_pending. apply nth_error_map. Qed.

Lemma empty_response_action : extract_action [] = str "UNKNOWN".
Proof. reflexivity. Qed.


End Run.

Section Run2.
Context {U : UnicodeData} {NP : NumPy}.

Lemma verdict_fail_roles evaluations members exc :
  verdict_of evaluations members = Fail exc ->
  exists h l, In h members /\ In l members /\
    role_at evaluations (str "high") h = true /\
    role_at evaluations (str "low") l = true.
Proof.
  unfold verdict_of. destruct (Nat.ltb (length members) 2); [discriminate|].
  destruct (last_role evaluations (str "high") members None) as [h|] eqn:Eh; [|discriminate].
  destruct (last_role evaluations (str "low") members None) as [l|] eqn:El; [|discriminate].
  intros _.
  apply last_role_some in Eh. apply last_role_some in El.
  destruct Eh as [Eh|[? ?]]; [discriminate|].
  destruct El as [El|[? ?]]; [discriminate|].
  exists h, l. auto.
Qed.

(** A group whose members all sit in skipped groups has verdict [Skip]. *)
Lemma degenerate_verdict evaluations k members :
  In (k, members) (anchoring_groups evaluations) ->
  (forall i, degenerate_group evaluations i) ->
  verdict_of evaluations members = Skip.
Proof.
  intros Hin D.
  destruct (anchoring_groups_spec evaluations) as (_ & Hmem & _).
  rewrite (Hmem _ _ Hin).
  assert (Hno : forall h l,
            In h (positions_from k 0 evaluations) ->
            In l (positions_from k 0 evaluations) ->
            role_at evaluations (str "high") h = true ->
            role_at evaluations (str "low") l = true -> False).
  { intros h l Hh Hl Rh Rl.
    apply In_positions in Hh. apply In_positions in Hl.
    apply role_at_has_role in Rh. apply role_at_has_role in Rl.
    destruct (D h k Hh) as [D1|[D2|D3]].
    - rewrite (D1 l Hl) in Rl. eapply roles_differ; eauto.
    - apply (D2 h Hh Rh).
    - apply (D3 l Hl Rl). }
  destruct (verdict_of evaluations (positions_from k 0 evaluations))
    as [|h l score|exc] eqn:V; [reflexivity| |].
  - exfalso. destruct (verdict_members _ _ V) as (Hh & Hl & Rh & Rl). eauto.
  - exfalso. destruct (verdict_fail_roles _ _ V) as (h & l & Hh & Hl & Rh & Rl). eauto.
Qed.

Lemma reconcile_groups_all_skip evaluations : forall G,
  (forall k members, In (k, members) G -> verdict_of evaluations members = Skip) ->
  reconcile_groups G evaluations = (evaluations, None).
Proof.
  induction G as [|[k ms] G IH]; intros H; simpl; [reflexivity|].
  rewrite (reconcile_pair_verdict ms (Forall2_same_refl evaluations)).
  rewrite (H k ms (or_introl eq_refl)). apply IH.
  intros k' ms' Hin. apply (H k' ms'). right. exact Hin.
Qed.

(** C3 (amended).  Take the evaluations a run materialises from its tasks.
    After the reconciliation pass - also when an exception ends it - every
    anchoring-type evaluation whose group the pass skips (there is no pair
    key, or the group has fewer than two members, or no member tagged high,
    or none tagged low) still has the bias score 0 its task gave it; and
    when all groups are of this kind the pass changes nothing and raises
    nothing. *)
Theorem C3_skipped_groups_keep_placeholder (llm_client : client) (w : World)
    (uuid : text) (tasks : list (LLMAgent.t * BiasScenario.t)) :
  NoDup (map BiasScenario.id (scenarios_table w)) ->
  (forall t, In t tasks -> In (snd t) (scenarios_table w)) ->
  let evaluations :=
    _persist_pending w uuid
      (map (fun t => fst (_safe_evaluate llm_client (fst t) (snd t))) tasks) in
  (forall final raised i e,
     _apply_anchoring_pair_scores evaluations = (final, raised) ->
     nth_error final i = Some e -> is_anchoring e -> degenerate_group final i ->
     BiasEvaluation.bias_score e = 0) /\
  ((forall i, degenerate_group evaluations i) ->
   _apply_anchoring_pair_scores evaluations = (evaluations, None)).
Proof.
  intros Hd Htasks evaluations. split.
  - intros final raised i e Hpass Ef (s & Es & Ha) D.
    pose proof (pass_same _ Hpass) as Hsame.
    pose proof (degenerate_group_same (Forall2_same_sym Hsame) D) as D'.
    pose proof (pass_skips_degenerate Hpass D') as Hx. rewrite Ef in Hx.
    unfold evaluations in Hx. rewrite nth_error_persist, nth_error_map in Hx.
    destruct (nth_error tasks i) as [[a s0]|] eqn:Et; [|discriminate].
    simpl in Hx. inversion Hx; subst e. simpl in *.
    assert (Hs0 : In s0 (scenarios_table w)).
    { apply (Htasks (a, s0)). eapply nth_error_In; eauto. }
    assert (Hid : PendingEvaluation.scenario_id (fst (_safe_evaluate llm_client a s0))
                  = BiasScenario.id s0).
    { unfold _safe_evaluate. destruct (invoke llm_client a s0) as [[r|x] ev]; simpl;
        [|reflexivity].
      unfold evaluate_or_raise. simpl.
      destruct (extract_action_and_confidence (LLMResponse.content r)) as [[? ?]|]; simpl;
        [|reflexivity].
      destruct (_calculate_bias_for_scenario s0 (LLMResponse.content r)); reflexivity. }
    rewrite Hid, (load_scenario_unique w s0 Hd Hs0) in Es. inversion Es; subst s.
    apply _safe_evaluate_anchoring. rewrite Ha. apply text_eqb_refl.
  - intros D. unfold _apply_anchoring_pair_scores.
    apply reconcile_groups_all_skip. intros k members Hin.
    eapply degenerate_verdict; eauto.
Qed.
End Run2.

(* --------------------------------------------------------------------- *)
(** ** The aggregate                                                       *)
(* --------------------------------------------------------------------- *)

Lemma metric_key_eqb_eq (a b : metric_key) : metric_key_eqb a b = true <-> a = b.
Proof.
  destruct a as [a1 a2], b as [b1 b2]. unfold metric_key_eqb. simpl.
  rewrite andb_true_iff, Z.eqb_eq, text_eqb_eq.
  split; [intros [-> ->]; reflexivity | intros H; inversion H; auto].
Qed.

(** *** Sorting *)

Lemma insert_sorted_perm x l : Permutation (x :: l) (insert_sorted x l).
Proof.
  induction l as [|y tl IH]; simpl; [reflexivity|].
  destruct (Qltb x y); [reflexivity|].
  rewrite perm_swap. constructor. exact IH.
Qed.

Lemma insert_sorted_sorted x l :
  StronglySorted Qle l -> StronglySorted Qle (insert_sorted x l).
Proof.
  induction 1 as [|y tl Hs IH Hall]; simpl.
  - constructor; constructor.
  - destruct (Qltb x y) eqn:E.
    + apply Qltb_lt in E. constructor; [constructor; assumption|].
      constructor; [lra|].
      rewrite Forall_forall in *. intros z Hz. specialize (Hall z Hz). lra.
    + apply Qltb_ge in E. constructor; [exact IH|].
      rewrite Forall_forall in *. intros z Hz.
      apply (Permutation_in _ (Permutation_sym (insert_sorted_perm x tl))) in Hz.
      destruct Hz as [<-|Hz]; [exact E | apply Hall; exact Hz].
Qed.

Lemma sorted_from (scores : list Q) : forall acc,
  StronglySorted Qle acc ->
  Permutation (acc ++ scores) (fold_left (fun acc x => insert_sorted x acc) scores acc) /\
  StronglySorted Qle (fold_left (fun acc x => insert_sorted x acc) scores acc).
Proof.
  induction scores as [|x tl IH]; intros acc Hacc; simpl.
  - rewrite app_nil_r. split; [reflexivity | exact Hacc].
  - destruct (IH (insert_sorted x acc) (insert_sorted_sorted x Hacc)) as [P S].
    split; [|exact S].
    eapply Permutation_trans; [|exact P].
    eapply Permutation_trans; [apply Permutation_sym, Permutation_middle|].
    apply (Permutation_app_tail tl (insert_sorted_perm x acc)).
Qed.

Lemma sorted_spec (scores : list Q) :
  Permutation scores (sorted scores) /\ StronglySorted Qle (sorted scores).
Proof. apply (sorted_from scores (acc := [])). constructor. Qed.

(** *** Sums *)

Lemma sum_perm (l l' : list Q) :
  Permutation l l' -> fold_right Qplus 0 l == fold_right Qplus 0 l'.
Proof.
  induction 1; simpl; try lra.
Qed.

Lemma sum_map_perm (f : Q -> Q) (l l' : list Q) :
  Permutation l l' -> fold_right Qplus 0 (map f l) == fold_right Qplus 0 (map f l').
Proof. intros H. apply sum_perm. apply Permutation_map. exact H. Qed.

Lemma sum_map_ext (f g : Q -> Q) (l : list Q) :
  (forall x, f x == g x) -> fold_right Qplus 0 (map f l) == fold_right Qplus 0 (map g l).
Proof.
  intros H. induction l as [|x tl IH]; simpl; [reflexivity|]. rewrite IH, H. reflexivity.
Qed.

(** *** Ranks *)

Lemma py_int_floor (x : Q) : 0 <= x -> py_int x = Qfloor x.
Proof.
  destruct x as [n d]. unfold Qle, py_int, Qfloor. simpl. intros H.
  apply Z.quot_div_nonneg; lia.
Qed.

Lemma percentile_index_rank (p : Q) (n : nat) :
  0 <= p -> (1 <= n)%nat ->
  percentile_index p n = Z.of_nat (nearest_rank p n).
Proof.
  intros Hp Hn. unfold percentile_index, nearest_rank.
  rewrite py_int_floor.
  - rewrite Z2Nat.id; [reflexivity | lia].
  - apply Qmult_le_0_compat; [exact Hp|].
    unfold Qle. simpl. lia.
Qed.

Lemma nearest_rank_bound (p : Q) (n : nat) :
  0 <= p <= 1 -> (1 <= n)%nat -> (nearest_rank p n < n)%nat.
Proof.
  intros [Hp0 Hp1] Hn. unfold nearest_rank.
  assert (H0 : 0 <= inject_Z (Z.of_nat n - 1)) by (unfold Qle; simpl; lia).
  assert (H : (Qfloor (p * inject_Z (Z.of_nat n - 1)) <= Z.of_nat n - 1)%Z).
  { assert (Hq : p * inject_Z (Z.of_nat n - 1) <= inject_Z (Z.of_nat n - 1)).
    { revert H0. generalize (inject_Z (Z.of_nat n - 1)). intros y Hy.
      setoid_replace y with (1 * y) at 2 by ring.
      apply Qmult_le_compat_r; assumption. }
    apply Qfloor_resp_le in Hq. rewrite Qfloor_Z in Hq. exact Hq. }
  lia.
Qed.

Lemma list_index_rank (xs : list Q) (p : Q) :
  0 <= p <= 1 -> xs <> [] ->
  exists x, list_index xs (percentile_index p (length xs)) = Ok x /\
            nth_error xs (nearest_rank p (length xs)) = Some x.
Proof.
  intros Hp Hne.
  assert (Hn : (1 <= length xs)%nat) by (destruct xs; [congruence | simpl; lia]).
  rewrite (percentile_index_rank (proj1 Hp) Hn).
  pose proof (nearest_rank_bound Hp Hn) as Hb.
  unfold list_index.
  destruct (Z.ltb_spec (Z.of_nat (nearest_rank p (length xs))) 0); [lia|].
  destruct (Z.ltb_spec (Z.of_nat (nearest_rank p (length xs))) 0); [lia|].
  rewrite Nat2Z.id.
  destruct (nth_error xs (nearest_rank p (length xs))) as [x|] eqn:E.
  - eauto.
  - apply nth_error_None in E. lia.
Qed.

(** *** Groups of scores *)

Lemma scores_of_group_cons e tl key :
  scores_of_group (e :: tl) key =
  match BiasEvaluation.scenario e with
  | Some s =>
      if metric_key_eqb (BiasEvaluation.agent_id e, BiasScenario.bias_type s) key
      then BiasEvaluation.bias_score e :: scores_of_group tl key
      else scores_of_group tl key
  | None => scores_of_group tl key
  end.
Proof.
  unfold scores_of_group. cbn [flat_map].
  destruct (BiasEvaluation.scenario e) as [s|]; [|reflexivity].
  destruct (metric_key_eqb _ key); reflexivity.
Qed.

Lemma lookup_group_scores (evaluations : list BiasEvaluation.t) : forall acc key,
  lookup_group metric_key_eqb (group_scores evaluations acc) key
  = lookup_group metric_key_eqb acc key ++ scores_of_group evaluations key.
Proof.
  induction evaluations as [|e tl IH]; intros acc key.
  - cbn [group_scores]. unfold scores_of_group. cbn [flat_map].
    rewrite app_nil_r. reflexivity.
  - cbn [group_scores]. rewrite IH, scores_of_group_cons.
    destruct (BiasEvaluation.scenario e) as [s|]; [|reflexivity].
    destruct (metric_key_eqb (BiasEvaluation.agent_id e, BiasScenario.bias_type s) key) eqn:E.
    + apply metric_key_eqb_eq in E. subst.
      rewrite (lookup_setdefault_same metric_key_eqb metric_key_eqb_eq), <- app_assoc.
      reflexivity.
    + rewrite (lookup_setdefault_other metric_key_eqb metric_key_eqb_eq); [reflexivity|].
      intros Heq. rewrite Heq, (proj2 (metric_key_eqb_eq key key) eq_refl) in E. discriminate.
Qed.

Lemma NoDup_group_scores (evaluations : list BiasEvaluation.t) : forall acc,
  NoDup (map fst acc) -> NoDup (map fst (group_scores evaluations acc)).
Proof.
  induction evaluations as [|e tl IH]; intros acc H; simpl; [exact H|].
  apply IH. destruct (BiasEvaluation.scenario e); [|exact H].
  apply (NoDup_setdefault metric_key_eqb metric_key_eqb_eq). exact H.
Qed.

Lemma keys_group_scores (evaluations : list BiasEvaluation.t) : forall acc key,
  In key (map fst (group_scores evaluations acc)) <->
  In key (map fst acc) \/ scores_of_group evaluations key <> [].
Proof.
  induction evaluations as [|e tl IH]; intros acc key.
  - cbn [group_scores]. unfold scores_of_group. cbn [flat_map]. intuition.
  - cbn [group_scores]. rewrite IH, scores_of_group_cons.
    destruct (BiasEvaluation.scenario e) as [s|]; [|reflexivity].
    rewrite (keys_setdefault metric_key_eqb metric_key_eqb_eq).
    destruct (metric_key_eqb (BiasEvaluation.agent_id e, BiasScenario.bias_type s) key) eqn:E.
    + apply metric_key_eqb_eq in E. subst.
      split; intros _; [right; discriminate | left; left; reflexivity].
    + split.
      * intros [[Heq|H]|H]; [|left; exact H | right; exact H].
        subst. rewrite (proj2 (metric_key_eqb_eq _ _) eq_refl) in E. discriminate.
      * intros [H|H]; [left; right; exact H | right; exact H].
Qed.

(** The groups the aggregator forms: one entry per key that occurs, holding
    the scores of that key. *)
Lemma group_scores_spec (evaluations : list BiasEvaluation.t) :
  NoDup (map fst (group_scores evaluations [])) /\
  (forall key scores, In (key, scores) (group_scores evaluations []) ->
     scores = scores_of_group evaluations key /\ scores <> []) /\
  (forall key, scores_of_group evaluations key <> [] ->
     In key (map fst (group_scores evaluations []))).
Proof.
  assert (Hd : NoDup (map fst (group_scores evaluations [])))
    by (apply NoDup_group_scores; constructor).
  split; [exact Hd|]. split.
  - intros key scores Hin.
    assert (E : scores = scores_of_group evaluations key).
    { rewrite <- (@lookup_In _ _ metric_key_eqb metric_key_eqb_eq _ _ _ Hd Hin).
      rewrite lookup_group_scores. reflexivity. }
    split; [exact E|]. subst scores.
    assert (Hk : In key (map fst (group_scores evaluations [])))
      by (apply in_map_iff; exists (key, scores_of_group evaluations key); auto).
    apply keys_group_scores in Hk. destruct Hk as [[]|Hk]. exact Hk.
  - intros key Hne. apply keys_group_scores. right. exact Hne.
Qed.

Section Aggregate.
Variable sqrt : Q -> Q.

Lemma mean_of_permutation (scores ordered : list Q) :
  Permutation scores ordered -> scores <> [] ->
  Qsum ordered / Qlen ordered == arithmetic_mean scores.
Proof.
  intros P Hne. unfold arithmetic_mean, Qlen.
  destruct scores as [|x tl] eqn:E; [congruence|]. rewrite <- E in *.
  rewrite Qsum_fold_right, <- (sum_perm P), <- (Permutation_length P). reflexivity.
Qed.

Lemma variance_of_permutation (scores ordered : list Q) (mu : Q) :
  Permutation scores ordered -> mu == arithmetic_mean scores ->
  pvariance ordered mu == population_variance scores.
Proof.
  intros P Hmu. unfold pvariance, population_variance, Qlen.
  rewrite Qsum_fold_right, <- (Permutation_length P).
  rewrite <- (sum_map_perm _ P).
  rewrite (sum_map_ext (fun x => (x - mu) * (x - mu))
             (fun x => (x - arithmetic_mean scores) * (x - arithmetic_mean scores))).
  - reflexivity.
  - intros x. rewrite Hmu. reflexivity.
Qed.

Lemma metric_of_group_ok (run_id : text) (key : metric_key) (scores : list Q) :
  scores <> [] ->
  exists m, metric_of_group sqrt run_id key scores = Ok m /\
            key_of_metric m = key /\ BiasMetric.run_id m = run_id /\
            summarises sqrt m scores.
Proof.
  intros Hne. unfold metric_of_group.
  destruct (sorted_spec scores) as [P S].
  set (ordered := sorted scores) in *.
  assert (Hlen : length ordered = length scores) by (symmetry; apply Permutation_length; exact P).
  assert (Hone : ordered <> []).
  { intros E. rewrite E in P. apply Permutation_sym, Permutation_nil in P. congruence. }
  destruct (@list_index_rank ordered (25 # 100)) as (p25 & E25 & N25); [lra | exact Hone|].
  destruct (@list_index_rank ordered (50 # 100)) as (p50 & E50 & N50); [lra | exact Hone|].
  destruct (@list_index_rank ordered (75 # 100)) as (p75 & E75 & N75); [lra | exact Hone|].
  rewrite E25, E50, E75. simpl.
  assert (Emean : mean ordered = Ok (Qsum ordered / Qlen ordered)).
  { unfold mean. destruct ordered; [congruence | reflexivity]. }
  rewrite Emean. simpl.
  destruct (Nat.ltb 1 (length ordered)) eqn:L.
  - unfold pstdev. rewrite Emean. simpl.
    eexists. split; [reflexivity|]. destruct key as [a b].
    split; [reflexivity|]. split; [reflexivity|].
    unfold summarises. simpl. rewrite <- Hlen.
    split; [reflexivity|]. split; [apply mean_of_permutation; assumption|].
    apply Nat.ltb_lt in L.
    split; [intros; lia|]. split.
    + intros _. eexists. split; [reflexivity|].
      apply variance_of_permutation; [exact P | apply mean_of_permutation; assumption].
    + exists ordered. auto.
  - simpl. eexists. split; [reflexivity|]. destruct key as [a b].
    split; [reflexivity|]. split; [reflexivity|].
    unfold summarises. simpl. rewrite <- Hlen.
    split; [reflexivity|]. split; [apply mean_of_permutation; assumption|].
    apply Nat.ltb_ge in L.
    split; [reflexivity|]. split; [intros; lia|].
    exists ordered. auto.
Qed.

Lemma metrics_of_groups_ok (run_id : text) : forall groups,
  Forall (fun g => snd g <> []) groups ->
  exists metrics,
    metrics_of_groups sqrt run_id groups = Ok metrics /\
    map key_of_metric metrics = map fst groups /\
    Forall2 (fun m g => key_of_metric m = fst g /\ BiasMetric.run_id m = run_id /\
                        summarises sqrt m (snd g)) metrics groups.
Proof.
  induction 1 as [|[key scores] tl Hx Htl IH]; simpl.
  - exists []. repeat split; constructor.
  - simpl in Hx.
    destruct (metric_of_group_ok run_id key Hx) as (m & -> & Hk & Hr & Hs).
    destruct IH as (ms & -> & Hkeys & Hall). simpl.
    exists (m :: ms). split; [reflexivity|]. split.
    + simpl. rewrite Hk, Hkeys. reflexivity.
    + constructor; auto.
Qed.

Lemma Forall2_In_left {A B : Type} (R : A -> B -> Prop) (l : list A) (l' : list B) :
  Forall2 R l l' -> forall x, In x l -> exists y, In y l' /\ R x y.
Proof.
  induction 1 as [|a b l l' Hab Hall IH]; intros x Hx; [contradiction|].
  destruct Hx as [<-|Hx].
  - exists b. split; [left; reflexivity | exact Hab].
  - destruct (IH x Hx) as (y & Hy & Hr). exists y. split; [right; exact Hy | exact Hr].
Qed.

(** C9.  [build_metrics_for_run] raises nothing and returns exactly one
    metric for every (agent, bias type) group that has a score, and none for
    another key.  The metric of a group records the number of its scores,
    their arithmetic mean, as standard deviation 0 for a single score and
    the square root of the population variance otherwise, and as
    percentiles the scores at index max(0, floor(p * (n - 1))) of the
    ascending order, for p = 0.25, 0.5 and 0.75.  For the scores 0.2, 0.4,
    0.6, 0.8 the 50th percentile is 0.4. *)
Theorem C9_one_metric_per_group (run_id : text) (evaluations : list BiasEvaluation.t) :
  (exists metrics,
     build_metrics_for_run sqrt run_id evaluations = Ok metrics /\
     NoDup (map key_of_metric metrics) /\
     (forall key, scores_of_group evaluations key <> [] <->
                  In key (map key_of_metric metrics)) /\
     (forall m, In m metrics ->
        summarises sqrt m (scores_of_group evaluations (key_of_metric m))))
  /\
  (exists m,
     metric_of_group sqrt run_id (1%Z, str "anchoring")
       [2 # 10; 4 # 10; 6 # 10; 8 # 10] = Ok m /\
     BiasMetric.percentile_50 m = 4 # 10 /\
     nearest_rank (50 # 100) 4 = 1%nat).
Proof.
  split.
  - destruct (group_scores_spec evaluations) as (Hd & Hmem & Hpresent).
    assert (Hne : Forall (fun g => snd g <> []) (group_scores evaluations [])).
    { apply Forall_forall. intros [key scores] Hin. simpl.
      apply (Hmem key scores Hin). }
    destruct (metrics_of_groups_ok run_id Hne) as (metrics & Hrun & Hkeys & Hall).
    exists metrics. split; [exact Hrun|]. rewrite Hkeys.
    split; [exact Hd|]. split.
    + intros key. split; [apply Hpresent|].
      intros Hin. apply in_map_iff in Hin. destruct Hin as ([k scores] & E & Hin).
      simpl in E. subst k. destruct (Hmem key scores Hin) as [-> Hx]. exact Hx.
    + intros m Hm.
      destruct (Forall2_In_left Hall m Hm) as ([key scores] & Hin & Hk & _ & Hs).
      simpl in Hk, Hs. rewrite Hk.
      destruct (Hmem key scores Hin) as [<- _]. exact Hs.
  - eexists. split; [reflexivity|]. split; reflexivity.
Qed.
End Aggregate.

(* --------------------------------------------------------------------- *)
(** ** Runs on the sample data                                             *)
(* --------------------------------------------------------------------- *)



(** C2.  One agent and an anchoring pair; the response to the high scenario
    is the word ABSTAIN written with U+0130, the response to the low one
    is HOLD.  Both roles are present, but the pass assigns no score: the
    lookup of the extracted action raises [KeyError], the run ends with it,
    the two evaluations keep score 0 in the session and nothing is
    committed. *)
Theorem C2_pass_raises_on_dotted_I :
  let r := @run_full_benchmark Sample.small_database Sample.numpy Sample.dotted_then_hold
             Sample.run_1 [1%Z] [1; 2]%Z
             (Sample.world [Sample.high_anchor; Sample.low_anchor]) in
  fst r = Raise (KeyError dotted_ABSTAIN) /\
  map BiasEvaluation.bias_score (session (snd r)) = [0; 0] /\
  map anchor_type_of (session (snd r)) = [Some (str "high"); Some (str "low")] /\
  evaluations_table (snd r) = [].
Proof. vm_compute. repeat split; reflexivity. Qed.

(** C3, counterexample.  One agent and three anchoring scenarios under one
    pair key, tagged high, low, high, answered BUY, SELL, BUY.  The group
    has three members, and the pass scores it all the same: the low member
    and the last high member end with bias score 1. *)
Lemma C3_group_of_three_is_scored :
  exists final e,
    fst (@run_full_benchmark Sample.small_database Sample.numpy Sample.buy_sell_buy
           Sample.run_1 [1%Z] [1; 2; 3]%Z
           (Sample.world [Sample.high_anchor; Sample.low_anchor; Sample.high_anchor_again]))
    = Ok (Sample.run_1, final) /\
    map anchoring_key final
    = [Some (1%Z, Sample.key_AAPL); Some (1%Z, Sample.key_AAPL); Some (1%Z, Sample.key_AAPL)] /\
    nth_error final 2 = Some e /\
    is_anchoring e /\
    BiasEvaluation.bias_score e == 1 /\
    ~ BiasEvaluation.bias_score e == 0.
Proof.
  do 2 eexists. split; [vm_compute; reflexivity|].
  split; [reflexivity|]. split; [reflexivity|]. split.
  - eexists. split; reflexivity.
  - split; [reflexivity|]. intros H. vm_compute in H. discriminate H.
Qed.

(** An instance of C3 on the sample data: the high scenario alone. *)
Lemma C3_witness :
  let evaluations :=
    _persist_pending (Sample.world [Sample.high_anchor]) Sample.run_1
      (map (fun t => fst (@_safe_evaluate Sample.small_database Sample.numpy Sample.buy_sell_buy
                            (fst t) (snd t)))
           [(Sample.agent_1, Sample.high_anchor)]) in
  @_apply_anchoring_pair_scores Sample.small_database evaluations = (evaluations, None).
Proof.
  intros evaluations.
  apply (@C3_skipped_groups_keep_placeholder Sample.small_database Sample.numpy Sample.buy_sell_buy
           (Sample.world [Sample.high_anchor]) Sample.run_1
           [(Sample.agent_1, Sample.high_anchor)]).
  - simpl. constructor; [intros [] | constructor].
  - intros t [<-|[]]. simpl. left. reflexivity.
  - intros i key (e & E & K). left. intros j (e' & E' & K').
    destruct i as [|i]; [|destruct i; discriminate E].
    destruct j as [|j]; [reflexivity | destruct j; discriminate E'].
Defined.

(** An instance of C10 on the sample data: no agent has id 7. *)
Lemma C10_witness :
  exists msg,
    @run_full_benchmark Sample.small_database Sample.numpy Sample.buy_sell_buy Sample.run_1
      [7]%Z [1]%Z (Sample.world [Sample.high_anchor])
    = (Raise (ValueError msg), Sample.world [Sample.high_anchor]).
Proof.
  apply (@C10_validation_failure_leaves_no_trace Sample.small_database).
  left. reflexivity.
Defined.

(* --------------------------------------------------------------------- *)
(** ** Symmetries of the anchoring score                                 *)
(* --------------------------------------------------------------------- *)

Section DetectorSymmetry.
Context {U : UnicodeData} {NP : NumPy}.

Lemma anchoring_formula_swap (hs ls hc lc hv lv : Q) :
  anchoring_formula hs ls hc lc hv lv == anchoring_formula ls hs lc hc lv hv.
Proof.
  unfold anchoring_formula.
  rewrite (Qabs_Qminus hs ls), (Qabs_Qminus hc lc), (Qabs_Qminus hv lv). reflexivity.
Qed.

Lemma anchoring_formula_swap_anchors (hs ls hc lc hv lv : Q) :
  anchoring_formula hs ls hc lc hv lv == anchoring_formula hs ls hc lc lv hv.
Proof.
  unfold anchoring_formula. rewrite (Qabs_Qminus hv lv). reflexivity.
Qed.

Ltac same_parts :=
  repeat match goal with
  | H : ?x = Some _, H' : ?x = Some _ |- _ => rewrite H in H'; inversion H'; subst; clear H'
  | H : ?x = Ok _, H' : ?x = Ok _ |- _ => rewrite H in H'; inversion H'; subst; clear H'
  | H : ?x = Some _, H' : ?x = None |- _ => rewrite H in H'; discriminate H'
  end.

Ltac not_dotted :=
  match goal with
  | H : action_scale (extract_action ?t) = Some _, H' : extract_action ?t = dotted_ABSTAIN |- _ =>
      rewrite H' in H; discriminate H
  end.

(** X1.  The anchoring score does not tell the two roles apart: exchanging the two
    responses together with their anchor values, or the anchor values alone,
    gives an equal score, and [calculate_anchoring_bias] raises for one order
    exactly when it raises for the others. *)
Theorem anchoring_score_symmetric (h l : text) (hv lv : Q) :
  match calculate_anchoring_bias h l hv lv,
        calculate_anchoring_bias l h lv hv,
        calculate_anchoring_bias h l lv hv with
  | Ok r, Ok r', Ok r'' =>
      anchoring_bias_score r == anchoring_bias_score r' /\
      anchoring_bias_score r == anchoring_bias_score r''
  | Raise _, Raise _, Raise _ => True
  | _, _, _ => False
  end.
Proof.
  destruct (anchoring_outcome h l hv lv)
    as [(hs & ls & hc & lc & r & Sh & Sl & Ch & Cl & E & F) | [E D]];
  destruct (anchoring_outcome l h lv hv)
    as [(hs' & ls' & hc' & lc' & r' & Sh' & Sl' & Ch' & Cl' & E' & F') | [E' D']];
  destruct (anchoring_outcome h l lv hv)
    as [(hs2 & ls2 & hc2 & lc2 & r2 & Sh2 & Sl2 & Ch2 & Cl2 & E2 & F2) | [E2 D2]];
  rewrite ?E, ?E', ?E2; try exact I;
  try (destruct D as [D|D]; not_dotted);
  try (destruct D' as [D'|D']; not_dotted);
  try (destruct D2 as [D2|D2]; not_dotted).
  same_parts. split.
  - rewrite F, F'. apply anchoring_formula_swap.
  - rewrite F, F2. apply anchoring_formula_swap_anchors.
Qed.

Lemma Qabs_self (x : Q) : Qabs (x - x) == 0.
Proof.
  assert (H : x - x == 0) by ring. rewrite H. reflexivity.
Qed.

Lemma clamp01_zero (x : Q) : x == 0 -> clamp01 x == 0.
Proof.
  intros H. unfold clamp01. rewrite H.
  rewrite (Q.min_r 1 0) by lra. apply Q.max_l. lra.
Qed.

(** X2.  The same response given to both anchors scores 0 with the actions marked
    consistent, whatever the anchor values; the call fails only with the
    [KeyError] for an action ABSTAIN written with U+0130. *)
Theorem anchoring_same_response_scores_zero (response : text) (hv lv : Q) :
  match calculate_anchoring_bias response response hv lv with
  | Ok r => anchoring_bias_score r == 0 /\ action_consistency r = true
  | Raise exc => exc = KeyError dotted_ABSTAIN /\ extract_action response = dotted_ABSTAIN
  end.
Proof.
  destruct (anchoring_outcome response response hv lv)
    as [(hs & ls & hc & lc & r & Sh & Sl & Ch & Cl & E & F) | [E D]]; rewrite E.
  - same_parts. split.
    + rewrite F. unfold anchoring_formula. apply clamp01_zero.
      rewrite !Qabs_self. unfold Qdiv. ring.
    + revert E. unfold calculate_anchoring_bias.
      destruct (extract_action_and_confidence response) as [[a c]|]; [|discriminate].
      simpl. destruct (dict_index action_map a); [|discriminate]. simpl.
      intros H. inversion H; subst. simpl. apply text_eqb_refl.
  - split; [reflexivity|]. destruct D; assumption.
Qed.

Lemma small_span_scale (hv lv : Q) :
  Qabs (hv - lv) <= 100 -> Qmin (Qmax 1 (Qabs (hv - lv) / 100)) 2 == 1.
Proof.
  intros H.
  assert (H1 : Qabs (hv - lv) / 100 <= 1) by (apply Qle_shift_div_r; lra).
  rewrite (Q.max_l 1 _ H1). apply Q.min_l. lra.
Qed.

(** X3.  Anchor values at most 100 apart, as the 200 and 100 of a generated pair,
    have no influence on the anchoring score: on the same two responses, two
    calls whose anchor values are each at most 100 apart give equal scores
    (or raise the same exception). *)
Theorem anchoring_ignores_small_spans (h l : text) (hv lv hv' lv' : Q) :
  Qabs (hv - lv) <= 100 -> Qabs (hv' - lv') <= 100 ->
  match calculate_anchoring_bias h l hv lv, calculate_anchoring_bias h l hv' lv' with
  | Ok r, Ok r' => anchoring_bias_score r == anchoring_bias_score r'
  | Raise exc, Raise exc' => exc = exc'
  | _, _ => False
  end.
Proof.
  intros H H'.
  destruct (anchoring_outcome h l hv lv)
    as [(hs & ls & hc & lc & r & Sh & Sl & Ch & Cl & E & F) | [E D]];
  destruct (anchoring_outcome h l hv' lv')
    as [(hs' & ls' & hc' & lc' & r' & Sh' & Sl' & Ch' & Cl' & E' & F') | [E' D']];
  rewrite E, E'; try reflexivity;
  try (destruct D as [D|D]; not_dotted);
  try (destruct D' as [D'|D']; not_dotted).
  same_parts. rewrite F, F'. unfold anchoring_formula, clamp01.
  apply Q.max_compat; [reflexivity|]. apply Q.min_compat; [reflexivity|].
  rewrite (small_span_scale H), (small_span_scale H'). reflexivity.
Qed.

End DetectorSymmetry.

(* --------------------------------------------------------------------- *)
(** ** Ranges of what the detector extracts and scores                   *)
(* --------------------------------------------------------------------- *)

Section DetectorRanges.
Context {U : UnicodeData} {NP : NumPy}.

Lemma extract_binary_choice_cases (response : text) :
  In (extract_binary_choice response) [None; Some (str "A"); Some (str "B")].
Proof.
  unfold extract_binary_choice.
  destruct (search true CHOICE_RE response) as [m|] eqn:E; [|left; reflexivity].
  assert (Hc : captures true (OneOf (str "AB")) CHOICE_RE).
  { unfold CHOICE_RE, cat; simpl fold_right. apply captures_seq. apply captures_group. reflexivity. }
  destruct (search_captures _ Hc E) as [D _].
  inversion D as [ | | ps x Hx | | | | | | | | | | | ]; subst.
  vm_compute str in Hx. cbn [existsb] in Hx.
  rewrite orb_false_r in Hx. apply orb_true_iff in Hx.
  right. destruct Hx as [Hx|Hx].
  - left. destruct (@upper_of_matched U 65 x eq_refl) as [Eu|[Eu _]];
      [discriminate | exact Hx | | discriminate Eu].
    unfold upper. simpl. rewrite Eu. reflexivity.
  - right; left. destruct (@upper_of_matched U 66 x eq_refl) as [Eu|[Eu _]];
      [discriminate | exact Hx | | discriminate Eu].
    unfold upper. simpl. rewrite Eu. reflexivity.
Qed.

(** X4.  [extract_confidence] raises for no text - a number its patterns capture
    is always one [float] reads - and its result lies between 0 and 1. *)
Theorem extract_confidence_is_a_probability (response : text) :
  exists confidence, extract_confidence response = Ok confidence /\ 0 <= confidence <= 1.
Proof. apply extract_confidence_range. Qed.

(** X5.  [extract_action_and_confidence] raises for no text, and the action it
    returns is UNKNOWN, BUY, SELL, HOLD, ABSTAIN or ABSTAIN written with
    U+0130: upper case, and no other word. *)
Theorem extracted_action_is_one_of_six (response : text) :
  exists confidence,
    extract_action_and_confidence response = Ok (extract_action response, confidence) /\
    In (extract_action response)
       [str "UNKNOWN"; str "BUY"; str "SELL"; str "HOLD"; str "ABSTAIN"; dotted_ABSTAIN].
Proof.
  destruct (extract_action_and_confidence_ok response) as (c & E & _).
  exists c. split; [exact E | apply extract_action_cases].
Qed.

(** X6.  [calculate_loss_aversion_bias] raises for no input.  The choice it
    reports is the extracted one: absent, A or B, in upper case.  The score
    is 0 when that choice is the correct choice, 0.5 when no choice was
    found and 1 otherwise, so a score of 0 needs a correct choice spelt A or
    B; loss_aversion_detected is set exactly for the choice B. *)
Theorem loss_aversion_score_by_choice (response correct_choice : text) :
  exists r,
    calculate_loss_aversion_bias response correct_choice = Ok r /\
    model_choice r = extract_binary_choice response /\
    In (model_choice r) [None; Some (str "A"); Some (str "B")] /\
    (loss_bias_score r = 0 /\ model_choice r = Some correct_choice \/
     loss_bias_score r = 1 # 2 /\ model_choice r = None \/
     loss_bias_score r = 1 /\
       exists choice, model_choice r = Some choice /\ choice <> correct_choice) /\
    (loss_bias_score r = 0 -> correct_choice = str "A" \/ correct_choice = str "B") /\
    (loss_aversion_detected r = true <-> model_choice r = Some (str "B")).
Proof.
  unfold calculate_loss_aversion_bias.
  destruct (extract_confidence_range response) as (c & -> & _). simpl.
  eexists. split; [reflexivity|]. simpl. split; [reflexivity|].
  split; [apply extract_binary_choice_cases|].
  destruct (extract_binary_choice_cases response) as [E|[E|[E|[]]]]; rewrite <- E;
    cbn [option_text_eqb].
  - split; [right; left; auto|]. split; [discriminate|].
    split; [discriminate | discriminate].
  - destruct (text_eqb (str "A") correct_choice) eqn:Ec.
    + apply text_eqb_eq in Ec. subst correct_choice.
      split; [left; auto|]. split; [auto|].
      split; intros H; vm_compute in H; discriminate H.
    + apply text_eqb_neq in Ec.
      split; [right; right; split; [reflexivity|]; eexists; split; [reflexivity|exact Ec]|].
      split; [discriminate|].
      split; intros H; vm_compute in H; discriminate H.
  - destruct (text_eqb (str "B") correct_choice) eqn:Ec.
    + apply text_eqb_eq in Ec. subst correct_choice.
      split; [left; auto|]. split; [auto|]. split; reflexivity.
    + apply text_eqb_neq in Ec.
      split; [right; right; split; [reflexivity|]; eexists; split; [reflexivity|exact Ec]|].
      split; [discriminate|]. split; reflexivity.
Qed.

(** X7.  The score of [calculate_recency_bias] and its flag recency_influenced do
    not depend on the argument [correct_action]; the call raises for no
    input and the score is one of 0, 0.5, 0.6 and 1. *)
Theorem recency_score_ignores_correct_action
    (response correct_action correct_action' : text)
    (recent_data : list Q) (historical_data : metadata) :
  exists r r',
    calculate_recency_bias response correct_action recent_data historical_data = Ok r /\
    calculate_recency_bias response correct_action' recent_data historical_data = Ok r' /\
    recency_bias_score r = recency_bias_score r' /\
    recency_influenced r = recency_influenced r' /\
    (recency_bias_score r == 0 \/ recency_bias_score r == 1 # 2 \/
     recency_bias_score r == 6 # 10 \/ recency_bias_score r == 1).
Proof.
  destruct (extract_action_and_confidence_ok response) as (c & E & _ & _).
  destruct (recency_score_of response correct_action recent_data historical_data E)
    as (r & Hr & Hs).
  exists r. rewrite Hr. revert Hr Hs. unfold calculate_recency_bias. rewrite E. cbn [bind].
  intros Hr Hs. injection Hr as <-. cbn [recency_bias_score recency_influenced] in *.
  eexists. split; [reflexivity|]. split; [reflexivity|].
  cbn [recency_bias_score recency_influenced].
  split; [reflexivity|]. split; [reflexivity|].
  rewrite Hs. apply recency_rule_values.
Qed.

Lemma overconfidence_score_of (response expected_action action : text) (c : Q) :
  extract_action_and_confidence response = Ok (action, c) ->
  exists r,
    calculate_overconfidence_bias response expected_action = Ok r /\
    over_bias_score r =
      (if text_eqb (upper expected_action) (str "ABSTAIN") && text_eqb action (str "ABSTAIN")
       then py_max 0 (c - (4 # 10))
       else py_min 1 (((if negb (text_eqb action expected_action)
                        then 6 # 10 else 1 # 10) + c) / (16 # 10))) /\
    overconfident r = negb (text_eqb action (str "ABSTAIN")) && Qltb (7 # 10) c /\
    over_model_action r = action /\ over_confidence r = c.
Proof.
  intros E. unfold calculate_overconfidence_bias. rewrite E. simpl.
  eexists. split; [reflexivity|]. simpl. auto.
Qed.

Lemma py_max_mono (a x y : Q) : x <= y -> py_max a x <= py_max a y.
Proof.
  intros H.
  destruct (py_max_cases a x) as [[H1 ->] | [H1 ->]];
    destruct (py_max_cases a y) as [[H2 ->] | [H2 ->]]; lra.
Qed.

Lemma py_min_mono (a x y : Q) : x <= y -> py_min a x <= py_min a y.
Proof.
  intros H.
  destruct (py_min_cases a x) as [[H1 ->] | [H1 ->]];
    destruct (py_min_cases a y) as [[H2 ->] | [H2 ->]]; lra.
Qed.

(** X8.  Of two responses with the same extracted action, the one with the higher
    extracted confidence never gets the lower overconfidence score. *)
Theorem overconfidence_grows_with_confidence
    (response response' expected_action : text) (c c' : Q) :
  extract_action response = extract_action response' ->
  extract_confidence response = Ok c -> extract_confidence response' = Ok c' ->
  c <= c' ->
  exists r r',
    calculate_overconfidence_bias response expected_action = Ok r /\
    calculate_overconfidence_bias response' expected_action = Ok r' /\
    over_bias_score r <= over_bias_score r'.
Proof.
  intros Ha Ec Ec' Hle.
  destruct (extract_action_and_confidence_ok response) as (v & E & Ev & _).
  destruct (extract_action_and_confidence_ok response') as (v' & E' & Ev' & _).
  rewrite Ec in Ev. inversion Ev; subst v.
  rewrite Ec' in Ev'. inversion Ev'; subst v'.
  destruct (overconfidence_score_of response expected_action E) as (r & Hr & Sr & _).
  destruct (overconfidence_score_of response' expected_action E') as (r' & Hr' & Sr' & _).
  exists r, r'. split; [exact Hr|]. split; [exact Hr'|].
  rewrite Sr, Sr', <- Ha.
  destruct (_ && _).
  - apply py_max_mono. lra.
  - apply py_min_mono. apply Qmult_le_compat_r; [lra|]. unfold Qle; simpl; lia.
Qed.

(** X9.  Where [calculate_overconfidence_bias] sets the flag overconfident, the
    score exceeds 0.5; the flag is never set for the action ABSTAIN. *)
Theorem overconfident_flag_means_high_score (response expected_action : text) :
  exists r,
    calculate_overconfidence_bias response expected_action = Ok r /\
    (overconfident r = true -> 1 # 2 < over_bias_score r) /\
    (over_model_action r = str "ABSTAIN" -> overconfident r = false).
Proof.
  destruct (extract_action_and_confidence_ok response) as (c & E & _ & Hc).
  destruct (overconfidence_score_of response expected_action E) as (r & Hr & Sr & Fr & Ar & _).
  exists r. split; [exact Hr|]. rewrite Fr, Sr, Ar. split.
  - intros F. apply andb_true_iff in F. destruct F as [Fa Fc].
    apply negb_true_iff in Fa. rewrite Fa, andb_false_r.
    apply Qltb_lt in Fc.
    set (p := if negb _ then 6 # 10 else 1 # 10).
    assert (Hp : 1 # 10 <= p) by (unfold p; destruct (negb _); lra).
    assert (Hq : 1 # 2 < (p + c) / (16 # 10)) by (apply Qlt_shift_div_l; lra).
    destruct (py_min_cases 1 ((p + c) / (16 # 10))) as [[H ->] | [H ->]]; lra.
  - intros ->. reflexivity.
Qed.

End DetectorRanges.

(* --------------------------------------------------------------------- *)
(** ** The record of a task                                              *)
(* --------------------------------------------------------------------- *)

Section TaskRecords.
Context {U : UnicodeData} {NP : NumPy}.

(** The record of a task, field by field. *)
Lemma _safe_evaluate_record (llm_client : client) (agent : LLMAgent.t)
    (scenario : BiasScenario.t) :
  let pending := fst (_safe_evaluate llm_client agent scenario) in
  PendingEvaluation.error pending =
    match fst (invoke llm_client agent scenario) with
    | Ok _ => None
    | Raise exc => Some (exn_message exc)
    end /\
  PendingEvaluation.model_response pending =
    match fst (invoke llm_client agent scenario) with
    | Ok response => LLMResponse.content response
    | Raise _ => []
    end /\
  0 <= PendingEvaluation.confidence_score pending <= 1 /\
  0 <= PendingEvaluation.bias_score pending <= 1 /\
  PendingEvaluation.agent_id pending = LLMAgent.id agent /\
  PendingEvaluation.scenario_id pending = BiasScenario.id scenario /\
  PendingEvaluation.prompt_sent pending = BiasScenario.base_prompt scenario.
Proof.
  unfold _safe_evaluate.
  destruct (invoke llm_client agent scenario) as [[response|exc] events]; simpl.
  - unfold evaluate_or_raise. simpl.
    destruct (extract_action_and_confidence_ok (LLMResponse.content response))
      as (c & -> & _ & Hc). simpl.
    destruct (_calculate_bias_for_scenario_ok scenario (LLMResponse.content response))
      as (b & -> & Hb). simpl.
    repeat (split; [first [reflexivity | apply Hc | apply Hb]|]). reflexivity.
  - repeat (split; [first [reflexivity | lra]|]). reflexivity.
Qed.

(** X10.  The record [_safe_evaluate] makes of a task has an error exactly when
    the gateway call raised, and the error is the text of that exception:
    scoring a response never fails a task.  The record carries the content
    of the response (empty after a failure), and its confidence and bias
    score lie between 0 and 1.  (The metadata of the scenario holds
    values of the types the templates store.) *)
Theorem task_error_iff_gateway_failed (llm_client : client) (agent : LLMAgent.t)
    (scenario : BiasScenario.t) :
  let pending := fst (_safe_evaluate llm_client agent scenario) in
  PendingEvaluation.error pending =
    match fst (invoke llm_client agent scenario) with
    | Ok _ => None
    | Raise exc => Some (exn_message exc)
    end /\
  PendingEvaluation.model_response pending =
    match fst (invoke llm_client agent scenario) with
    | Ok response => LLMResponse.content response
    | Raise _ => []
    end /\
  0 <= PendingEvaluation.confidence_score pending <= 1 /\
  0 <= PendingEvaluation.bias_score pending <= 1.
Proof.
  intros pending.
  destruct (_safe_evaluate_record llm_client agent scenario) as (H1 & H2 & H3 & H4 & _).
  auto.
Qed.

End TaskRecords.

(* --------------------------------------------------------------------- *)
(** ** Invariants of the reconciliation pass                             *)
(* --------------------------------------------------------------------- *)

Section PassInvariants.
Context {U : UnicodeData} {NP : NumPy}.

Lemma set_bias_score_same (e : BiasEvaluation.t) :
  BiasEvaluation.set_bias_score (BiasEvaluation.bias_score e) e = e.
Proof. destruct e; reflexivity. Qed.

(** Writing the score an evaluation already has changes nothing. *)
Lemma assign_score_id (l : list BiasEvaluation.t) : forall i e s,
  nth_error l i = Some e -> BiasEvaluation.bias_score e = s -> assign_score i s l = l.
Proof.
  induction l as [|x tl IH]; intros i e s Hn Hs; [reflexivity|].
  destruct i as [|i]; simpl in *.
  - inversion Hn; subst. rewrite set_bias_score_same. reflexivity.
  - f_equal. eapply IH; eauto.
Qed.

Lemma group_from_same (l l' : list BiasEvaluation.t) :
  Forall2 same_but_score l l' -> forall i acc, group_from i l acc = group_from i l' acc.
Proof.
  induction 1 as [|e e' l l' He Hl IH]; intros i acc; simpl; [reflexivity|].
  apply same_but_score_fields in He. destruct He as (-> & _). apply IH.
Qed.

Lemma anchoring_groups_same (l l' : list BiasEvaluation.t) :
  Forall2 same_but_score l l' -> anchoring_groups l = anchoring_groups l'.
Proof. intros H. apply (group_from_same H). Qed.

Lemma verdict_score_range evaluations members h l score :
  verdict_of evaluations members = Assign h l score -> 0 <= score <= 1.
Proof.
  unfold verdict_of. destruct (Nat.ltb (length members) 2); [discriminate|].
  destruct (last_role evaluations (str "high") members None) as [h'|]; [|discriminate].
  destruct (last_role evaluations (str "low") members None) as [l'|]; [|discriminate].
  destruct (nth_error evaluations h') as [eh|]; [|discriminate].
  destruct (nth_error evaluations l') as [el|]; [|discriminate].
  destruct (calculate_anchoring_bias _ _ _ _) as [r|] eqn:C; [|discriminate].
  intros H. inversion H; subst. eapply calculate_anchoring_bias_range; eauto.
Qed.

Lemma assign_score_probabilities (l : list BiasEvaluation.t) : forall i s,
  0 <= s <= 1 -> Forall probabilities l -> Forall probabilities (assign_score i s l).
Proof.
  induction l as [|e tl IH]; intros i s Hs Hl; simpl; [constructor|].
  inversion Hl as [|? ? He Htl]; subst.
  destruct i as [|i]; constructor; auto.
  destruct e; unfold probabilities in *; simpl in *. tauto.
Qed.

Lemma reconcile_groups_probabilities evaluations : forall G current final raised,
  Forall2 same_but_score evaluations current ->
  Forall probabilities current ->
  reconcile_groups G current = (final, raised) ->
  Forall probabilities final.
Proof.
  induction G as [|[k ms] G IH]; intros current final raised Hs Hp; simpl.
  - intros H; inversion H; subst. exact Hp.
  - rewrite (reconcile_pair_verdict ms Hs).
    destruct (verdict_of evaluations ms) as [|h l score|exc] eqn:V.
    + apply IH; assumption.
    + pose proof (verdict_score_range _ _ V) as Hr.
      apply IH.
      * eapply Forall2_same_trans; [exact Hs|].
        eapply Forall2_same_trans; apply assign_score_same.
      * apply assign_score_probabilities; [exact Hr|].
        apply assign_score_probabilities; assumption.
    + intros H; inversion H; subst. exact Hp.
Qed.

Lemma pass_probabilities evaluations final raised :
  Forall probabilities evaluations ->
  _apply_anchoring_pair_scores evaluations = (final, raised) ->
  Forall probabilities final.
Proof.
  intros Hp H. unfold _apply_anchoring_pair_scores in H.
  eapply reconcile_groups_probabilities; [apply Forall2_same_refl | exact Hp | exact H].
Qed.

Lemma anchoring_groups_disjoint (evaluations : list BiasEvaluation.t) :
  ForallOrdPairs disjoint_members (anchoring_groups evaluations).
Proof.
  destruct (anchoring_groups_spec evaluations) as (Hd & Hmem & _).
  revert Hd Hmem. generalize (anchoring_groups evaluations). intros G.
  induction G as [|[k ms] G IH]; intros Hd Hmem; constructor.
  - inversion Hd as [|? ? Hn Hd']; subst.
    apply Forall_forall. intros [k' ms'] Hin i Hi Hi'. simpl in *.
    rewrite (Hmem k ms (or_introl eq_refl)) in Hi.
    rewrite (Hmem k' ms' (or_intror Hin)) in Hi'.
    apply In_positions in Hi. apply In_positions in Hi'.
    apply Hn. rewrite (in_group_unique Hi Hi').
    apply in_map_iff. exists (k', ms'). auto.
  - inversion Hd; subst. apply IH; [assumption|].
    intros k' ms' Hin. apply Hmem. right. exact Hin.
Qed.

(** Running the loop again over its own result changes nothing. *)
Lemma reconcile_groups_again evaluations : forall G current final raised,
  Forall2 same_but_score evaluations current ->
  ForallOrdPairs disjoint_members G ->
  reconcile_groups G current = (final, raised) ->
  reconcile_groups G final = (final, raised).
Proof.
  induction G as [|[k ms] G IH]; intros current final raised Hs Hdis Hrun.
  - simpl in *. inversion Hrun; subst. reflexivity.
  - inversion Hdis as [|? ? Hfirst Hrest]; subst.
    simpl in Hrun. rewrite (reconcile_pair_verdict ms Hs) in Hrun.
    destruct (verdict_of evaluations ms) as [|h l score|exc] eqn:V.
    + destruct (reconcile_groups_frame G Hs Hrun) as [Hsf _].
      simpl. rewrite (reconcile_pair_verdict ms Hsf), V.
      apply (IH current); assumption.
    + set (cur1 := assign_score l score (assign_score h score current)) in *.
      assert (Hs1 : Forall2 same_but_score evaluations cur1).
      { eapply Forall2_same_trans; [exact Hs|].
        eapply Forall2_same_trans; apply assign_score_same. }
      destruct (reconcile_groups_frame G Hs1 Hrun) as [Hsf F].
      assert (Hfree : forall i, In i ms -> nth_error final i = nth_error cur1 i).
      { intros i Hi. apply F. intros k' ms' h' l' s' Hin' V'.
        destruct (verdict_members _ _ V') as (Hh' & Hl' & _).
        rewrite Forall_forall in Hfirst.
        pose proof (Hfirst (k', ms') Hin' i Hi) as Hn. simpl in Hn.
        split; intros ->; contradiction. }
      destruct (verdict_members _ _ V) as (Hh & Hl & _).
      destruct (verdict_positions _ _ V) as (eh0 & el0 & Eh0 & El0).
      pose proof (Forall2_nth_error Hs h) as Ph. rewrite Eh0 in Ph.
      pose proof (Forall2_nth_error Hs l) as Pl. rewrite El0 in Pl.
      destruct (nth_error current h) as [ch|] eqn:Ech; [|contradiction].
      destruct (nth_error current l) as [cl|] eqn:Ecl; [|contradiction].
      assert (Fboth : exists fh fl,
                nth_error final h = Some fh /\ BiasEvaluation.bias_score fh = score /\
                nth_error final l = Some fl /\ BiasEvaluation.bias_score fl = score).
      { rewrite (Hfree h Hh), (Hfree l Hl). unfold cur1.
        rewrite !nth_error_assign_score, !Nat.eqb_refl.
        destruct (Nat.eqb h l) eqn:Ehl.
        - apply Nat.eqb_eq in Ehl. subst l. rewrite Nat.eqb_refl, Ech. simpl.
          do 2 eexists. repeat split; reflexivity.
        - rewrite Ech. rewrite Nat.eqb_sym, Ehl, Ecl. simpl.
          do 2 eexists. repeat split; reflexivity. }
      destruct Fboth as (fh & fl & Nfh & Sfh & Nfl & Sfl).
      simpl. rewrite (reconcile_pair_verdict ms Hsf), V.
      rewrite (@assign_score_id _ _ _ _ Nfh Sfh), (@assign_score_id _ _ _ _ Nfl Sfl).
      apply (IH cur1); assumption.
    + inversion Hrun; subst.
      simpl. rewrite (reconcile_pair_verdict ms Hs), V. reflexivity.
Qed.

(** X11.  [_apply_anchoring_pair_scores] is idempotent: run on the evaluations it
    has left, it changes none of them and ends the same way (returning, or
    raising the same exception). *)
Theorem reconciliation_pass_is_idempotent
    (evaluations final : list BiasEvaluation.t) (raised : option exn) :
  _apply_anchoring_pair_scores evaluations = (final, raised) ->
  _apply_anchoring_pair_scores final = (final, raised).
Proof.
  intros H. pose proof (pass_same _ H) as Hsame.
  unfold _apply_anchoring_pair_scores in *.
  rewrite <- (anchoring_groups_same Hsame).
  eapply reconcile_groups_again;
    [apply Forall2_same_refl | apply anchoring_groups_disjoint | exact H].
Qed.

(** X12.  [_apply_anchoring_pair_scores] keeps the number and order of the
    evaluations and every field but bias_score; an evaluation outside every
    group (no scenario, another bias type, no or an empty pair key) is left
    as it was; the only exception that escapes is the [KeyError] for
    ABSTAIN written with U+0130. *)
Theorem reconciliation_pass_touches_grouped_scores_only
    (evaluations final : list BiasEvaluation.t) (raised : option exn) :
  _apply_anchoring_pair_scores evaluations = (final, raised) ->
  length final = length evaluations /\
  Forall2 same_but_score evaluations final /\
  (forall i e, nth_error evaluations i = Some e -> anchoring_key e = None ->
     nth_error final i = Some e) /\
  (forall exc, raised = Some exc -> exc = KeyError dotted_ABSTAIN).
Proof.
  intros H. pose proof (pass_same _ H) as Hsame.
  split; [symmetry; apply (Forall2_length Hsame)|].
  split; [exact Hsame|]. split.
  - intros i e E K.
    rewrite (pass_skips_degenerate H (ungrouped_degenerate E K)). exact E.
  - intros exc ->. eapply pass_raises_KeyError; eauto.
Qed.

End PassInvariants.

(* --------------------------------------------------------------------- *)
(** ** The outcomes of a run                                             *)
(* --------------------------------------------------------------------- *)

Section RunOutcomes.
Context {U : UnicodeData} {NP : NumPy}.

(** The three ways a run can go. *)
Lemma run_full_benchmark_cases (llm_client : client) (uuid : text)
    (agent_ids scenario_ids : list Z) (w : World) :
  let agents := filter (fun a => mem_Z (LLMAgent.id a) agent_ids) (agents_table w) in
  let scenarios := filter (fun s => mem_Z (BiasScenario.id s) scenario_ids) (scenarios_table w) in
  let tasks := map (fun t => _safe_evaluate llm_client (fst t) (snd t))
                   (cross_product agents scenarios) in
  let evaluations := _persist_pending w uuid (map fst tasks) in
  (agents = [] /\
   run_full_benchmark llm_client uuid agent_ids scenario_ids w
   = (Raise (ValueError (str "No agents matched requested IDs")), w)) \/
  (agents <> [] /\ scenarios = [] /\
   run_full_benchmark llm_client uuid agent_ids scenario_ids w
   = (Raise (ValueError (str "No scenarios matched requested IDs")), w)) \/
  (agents <> [] /\ scenarios <> [] /\
   run_full_benchmark llm_client uuid agent_ids scenario_ids w =
   match _apply_anchoring_pair_scores evaluations with
   | (final, Some exc) =>
       (Raise exc,
        {| agents_table := agents_table w; scenarios_table := scenarios_table w;
           evaluations_table := evaluations_table w;
           session := session w ++ final;
           trace := trace w ++ flat_map snd tasks |})
   | (final, None) =>
       (Ok (uuid, final),
        {| agents_table := agents_table w; scenarios_table := scenarios_table w;
           evaluations_table := evaluations_table w ++ session w ++ final;
           session := [];
           trace := trace w ++ flat_map snd tasks |})
   end).
Proof.
  intros agents scenarios tasks evaluations.
  destruct agents as [|a al] eqn:Ea.
  - left. split; [reflexivity|]. unfold run_full_benchmark. fold agents. rewrite Ea. reflexivity.
  - destruct scenarios as [|s sl] eqn:Es.
    + right; left. split; [discriminate|]. split; [reflexivity|].
      unfold run_full_benchmark. fold agents. fold scenarios. rewrite Ea, Es. reflexivity.
    + right; right. split; [discriminate|]. split; [discriminate|].
      subst tasks evaluations. rewrite <- Ea, <- Es.
      apply run_full_benchmark_unfold; unfold agents, scenarios in *; congruence.
Qed.

Lemma persisted_probabilities (llm_client : client) (w : World) (uuid : text)
    (pairs : list (LLMAgent.t * BiasScenario.t)) :
  Forall probabilities
    (_persist_pending w uuid
       (map fst (map (fun t => _safe_evaluate llm_client (fst t) (snd t)) pairs))).
Proof.
  unfold _persist_pending. rewrite !map_map. apply Forall_forall.
  intros e He. apply in_map_iff in He. destruct He as ([a s] & <- & _). simpl.
  destruct (_safe_evaluate_record llm_client a s) as (_ & _ & Hc & Hb & _).
  split; [exact Hb | exact Hc].
Qed.

(** X13.  A run that returns has the fresh run id, one evaluation for every pair of
    a resolved agent and a resolved scenario, all with that run id and with
    confidence and bias score between 0 and 1 (also after the pass), and has
    committed exactly them, after what the session held; the session is
    left empty. *)
Theorem run_returns_committed_probabilities (llm_client : client) (uuid : text)
    (agent_ids scenario_ids : list Z) (w w' : World)
    (run_id : text) (final : list BiasEvaluation.t) :
  run_full_benchmark llm_client uuid agent_ids scenario_ids w = (Ok (run_id, final), w') ->
  run_id = uuid /\
  length final =
    (length (filter (fun a => mem_Z (LLMAgent.id a) agent_ids) (agents_table w)) *
     length (filter (fun s => mem_Z (BiasScenario.id s) scenario_ids) (scenarios_table w)))%nat /\
  Forall probabilities final /\
  Forall (fun e => BiasEvaluation.run_id e = uuid) final /\
  evaluations_table w' = evaluations_table w ++ session w ++ final /\
  session w' = [].
Proof.
  intros H.
  destruct (run_full_benchmark_cases llm_client uuid agent_ids scenario_ids w)
    as [[_ E] | [(_ & _ & E) | (Ha & Hs & E)]]; rewrite E in H; try discriminate H.
  clear E.
  match type of H with
  | context [_apply_anchoring_pair_scores ?ev] =>
      set (evaluations := ev) in *;
      destruct (_apply_anchoring_pair_scores evaluations) as [final' [exc|]] eqn:P
  end; [discriminate H|].
  inversion H; subst; clear H. simpl.
  pose proof (pass_same _ P) as Hsame.
  split; [reflexivity|]. split.
  { rewrite <- (Forall2_length Hsame). unfold evaluations, _persist_pending.
    rewrite !length_map. apply cross_product_length. }
  split.
  { eapply pass_probabilities; [|exact P]. apply persisted_probabilities. }
  split; [|split; reflexivity].
  apply Forall_forall. intros e He. apply In_nth_error in He. destruct He as [i Hi].
  pose proof (Forall2_nth_error Hsame i) as Hx. rewrite Hi in Hx.
  destruct (nth_error evaluations i) as [e0|] eqn:E0; [|contradiction].
  unfold evaluations in E0. rewrite nth_error_persist in E0.
  match type of E0 with
  | option_map _ ?x = _ => destruct x as [p|]; [|discriminate E0]
  end.
  simpl in E0. injection E0 as <-.
  unfold same_but_score in Hx. destruct e. simpl in *. inversion Hx. reflexivity.
Qed.

(** X14.  A run raises nothing but [ValueError] with one of the two messages of the
    validation and the [KeyError] of the pass for ABSTAIN written with
    U+0130; in each case the tables of agents, scenarios and evaluations
    are as before the run. *)
Theorem run_raises_one_of_three_errors (llm_client : client) (uuid : text)
    (agent_ids scenario_ids : list Z) (w w' : World) (exc : exn) :
  run_full_benchmark llm_client uuid agent_ids scenario_ids w = (Raise exc, w') ->
  (exc = ValueError (str "No agents matched requested IDs") \/
   exc = ValueError (str "No scenarios matched requested IDs") \/
   exc = KeyError dotted_ABSTAIN) /\
  agents_table w' = agents_table w /\
  scenarios_table w' = scenarios_table w /\
  evaluations_table w' = evaluations_table w.
Proof.
  intros H.
  destruct (run_full_benchmark_cases llm_client uuid agent_ids scenario_ids w)
    as [[_ E] | [(_ & _ & E) | (Ha & Hs & E)]]; rewrite E in H; clear E.
  - inversion H; subst. auto.
  - inversion H; subst. auto.
  - match type of H with
    | context [_apply_anchoring_pair_scores ?ev] =>
        destruct (_apply_anchoring_pair_scores ev) as [final [exc'|]] eqn:P
    end; [|discriminate H].
    inversion H; subst; clear H. simpl.
    split; [|auto]. right; right. eapply pass_raises_KeyError; eauto.
Qed.

End RunOutcomes.

(* --------------------------------------------------------------------- *)
(** ** Further properties of the aggregate                                 *)
(* --------------------------------------------------------------------- *)

Lemma sorted_nth_le (l : list Q) : forall i j a b,
  StronglySorted Qle l -> (i <= j)%nat ->
  nth_error l i = Some a -> nth_error l j = Some b -> a <= b.
Proof.
  induction l as [|x tl IH]; intros i j a b Hs Hij Ha Hb.
  - destruct i; discriminate.
  - inversion Hs as [|? ? Hs' Hall]; subst.
    destruct i as [|i], j as [|j]; simpl in *.
    + inversion Ha; inversion Hb; subst. apply Qle_refl.
    + inversion Ha; subst. rewrite Forall_forall in Hall.
      apply Hall. eapply nth_error_In; eauto.
    + lia.
    + eapply (IH i j); eauto. lia.
Qed.

Lemma nearest_rank_mono (p q : Q) (n : nat) :
  0 <= p -> p <= q -> (1 <= n)%nat -> (nearest_rank p n <= nearest_rank q n)%nat.
Proof.
  intros Hp Hpq Hn. unfold nearest_rank.
  assert (H0 : 0 <= inject_Z (Z.of_nat n - 1)) by (unfold Qle; simpl; lia).
  assert (H : (Qfloor (p * inject_Z (Z.of_nat n - 1))
               <= Qfloor (q * inject_Z (Z.of_nat n - 1)))%Z).
  { apply Qfloor_resp_le. apply Qmult_le_compat_r; assumption. }
  lia.
Qed.

Lemma sum_bounds (lo hi : Q) (l : list Q) :
  Forall (fun x => lo <= x <= hi) l ->
  inject_Z (Z.of_nat (length l)) * lo <= fold_right Qplus 0 l
  <= inject_Z (Z.of_nat (length l)) * hi.
Proof.
  induction 1 as [|x tl Hx Htl IH];
    [cbn [length fold_right Z.of_nat]; change (inject_Z 0) with 0; lra|].
  cbn [length fold_right]. rewrite Nat2Z.inj_succ. unfold Z.succ. rewrite inject_Z_plus.
  change (inject_Z 1) with 1. lra.
Qed.

Lemma arithmetic_mean_bounds (lo hi : Q) (l : list Q) :
  l <> [] -> Forall (fun x => lo <= x <= hi) l ->
  lo <= arithmetic_mean l <= hi.
Proof.
  intros Hne Hall. pose proof (sum_bounds Hall) as [H1 H2].
  unfold arithmetic_mean. destruct l as [|x tl] eqn:E; [congruence|]. rewrite <- E in *.
  assert (Hn : 0 < inject_Z (Z.of_nat (length l)))
    by (rewrite E; unfold Qlt; simpl; lia).
  split.
  - apply Qle_shift_div_l; [exact Hn|]. lra.
  - apply Qle_shift_div_r; [exact Hn|]. lra.
Qed.

Lemma setdefault_total {K V : Type} (eqb : K -> K -> bool) (G : list (K * list V)) k v :
  list_sum (map (fun g => length (snd g)) (setdefault_append eqb G k v))
  = S (list_sum (map (fun g => length (snd g)) G)).
Proof.
  induction G as [|[k0 ms] G IH]; simpl; [reflexivity|].
  destruct (eqb k0 k); simpl.
  - rewrite length_app. simpl. lia.
  - rewrite IH. lia.
Qed.

Lemma group_scores_total (evaluations : list BiasEvaluation.t) : forall acc,
  list_sum (map (fun g => length (snd g)) (group_scores evaluations acc))
  = (list_sum (map (fun g => length (snd g)) acc)
     + length (filter (fun e => match BiasEvaluation.scenario e with
                                | Some _ => true | None => false end) evaluations))%nat.
Proof.
  induction evaluations as [|e tl IH]; intros acc; cbn [group_scores filter].
  - simpl. lia.
  - rewrite IH. destruct (BiasEvaluation.scenario e) as [s|].
    + rewrite setdefault_total. simpl. lia.
    + reflexivity.
Qed.

Section AggregateBounds.
Variable sqrt : Q -> Q.

(** The metrics of a run, group by group. *)
Lemma build_metrics_for_run_groups (run_id : text) (evaluations : list BiasEvaluation.t) :
  exists metrics,
    build_metrics_for_run sqrt run_id evaluations = Ok metrics /\
    Forall2 (fun m g => key_of_metric m = fst g /\ BiasMetric.run_id m = run_id /\
                        summarises sqrt m (snd g))
            metrics (group_scores evaluations []) /\
    (forall m, In m metrics ->
       summarises sqrt m (scores_of_group evaluations (key_of_metric m)) /\
       scores_of_group evaluations (key_of_metric m) <> []).
Proof.
  destruct (group_scores_spec evaluations) as (Hd & Hmem & Hpresent).
  assert (Hne : Forall (fun g => snd g <> []) (group_scores evaluations [])).
  { apply Forall_forall. intros [key scores] Hin. simpl. apply (Hmem key scores Hin). }
  destruct (metrics_of_groups_ok sqrt run_id Hne) as (metrics & Hrun & Hkeys & Hall).
  exists metrics. split; [exact Hrun|]. split; [exact Hall|].
  intros m Hm.
  destruct (Forall2_In_left Hall m Hm) as ([key scores] & Hin & Hk & _ & Hs).
  simpl in Hk, Hs. rewrite Hk.
  destruct (Hmem key scores Hin) as [E Hx]. rewrite <- E. auto.
Qed.

(** X15.  [build_metrics_for_run] raises for no input, and in every metric the
    25th percentile is at most the 50th, which is at most the 75th. *)
Theorem percentiles_are_ordered (run_id : text) (evaluations : list BiasEvaluation.t) :
  exists metrics,
    build_metrics_for_run sqrt run_id evaluations = Ok metrics /\
    forall m, In m metrics ->
      BiasMetric.percentile_25 m <= BiasMetric.percentile_50 m /\
      BiasMetric.percentile_50 m <= BiasMetric.percentile_75 m.
Proof.
  destruct (build_metrics_for_run_groups run_id evaluations) as (metrics & Hrun & _ & Hall).
  exists metrics. split; [exact Hrun|]. intros m Hm.
  destruct (Hall m Hm) as [(_ & _ & _ & _ & ordered & P & S & N25 & N50 & N75) Hne].
  set (scores := scores_of_group evaluations (key_of_metric m)) in *.
  assert (Hn : (1 <= length scores)%nat) by (destruct scores; [congruence | simpl; lia]).
  split.
  - apply (sorted_nth_le S (nearest_rank_mono (p := 25 # 100) (q := 50 # 100) ltac:(lra) ltac:(lra) Hn) N25 N50).
  - apply (sorted_nth_le S (nearest_rank_mono (p := 50 # 100) (q := 75 # 100) ltac:(lra) ltac:(lra) Hn) N50 N75).
Qed.

(** The statistics of a group lie between bounds of its scores. *)
Lemma build_metrics_for_run_bounds (run_id : text)
    (evaluations : list BiasEvaluation.t) (lo hi : Q) :
  (forall e, In e evaluations -> lo <= BiasEvaluation.bias_score e <= hi) ->
  exists metrics,
    build_metrics_for_run sqrt run_id evaluations = Ok metrics /\
    forall m, In m metrics ->
      lo <= BiasMetric.mean_bias_score m <= hi /\
      lo <= BiasMetric.percentile_25 m <= hi /\
      lo <= BiasMetric.percentile_50 m <= hi /\
      lo <= BiasMetric.percentile_75 m <= hi.
Proof.
  intros Hb.
  destruct (build_metrics_for_run_groups run_id evaluations) as (metrics & Hrun & _ & Hall).
  exists metrics. split; [exact Hrun|]. intros m Hm.
  destruct (Hall m Hm) as [(_ & Hmean & _ & _ & ordered & P & S & N25 & N50 & N75) Hne].
  set (scores := scores_of_group evaluations (key_of_metric m)) in *.
  assert (Hs : Forall (fun x => lo <= x <= hi) scores).
  { apply Forall_forall. intros x Hx. unfold scores, scores_of_group in Hx.
    apply in_flat_map in Hx. destruct Hx as (e & He & Hx).
    destruct (BiasEvaluation.scenario e); [|contradiction].
    destruct (metric_key_eqb _ _); [|contradiction].
    destruct Hx as [<-|[]]. apply Hb. exact He. }
  assert (Ho : forall i x, nth_error ordered i = Some x -> lo <= x <= hi).
  { intros i x Hx. rewrite Forall_forall in Hs. apply Hs.
    apply (Permutation_in _ (Permutation_sym P)). eapply nth_error_In; eauto. }
  split; [rewrite Hmean; apply arithmetic_mean_bounds; assumption|].
  split; [eapply Ho; eauto|]. split; eapply Ho; eauto.
Qed.

(** X16.  If every bias score lies between two bounds, so do the mean and the three
    percentiles of every metric of [build_metrics_for_run]; with the scores
    of a run they lie between 0 and 1. *)
Theorem metrics_stay_within_the_scores (run_id : text)
    (evaluations : list BiasEvaluation.t) (lo hi : Q) :
  (forall e, In e evaluations -> lo <= BiasEvaluation.bias_score e <= hi) ->
  exists metrics,
    build_metrics_for_run sqrt run_id evaluations = Ok metrics /\
    forall m, In m metrics ->
      lo <= BiasMetric.mean_bias_score m <= hi /\
      lo <= BiasMetric.percentile_25 m <= hi /\
      lo <= BiasMetric.percentile_50 m <= hi /\
      lo <= BiasMetric.percentile_75 m <= hi.
Proof. apply build_metrics_for_run_bounds. Qed.

(** X17.  The sample counts of the metrics of a run add up to the number of
    evaluations that have a scenario; every metric counts at least one
    score and carries the run id passed in. *)
Theorem sample_counts_add_up (run_id : text) (evaluations : list BiasEvaluation.t) :
  exists metrics,
    build_metrics_for_run sqrt run_id evaluations = Ok metrics /\
    list_sum (map BiasMetric.sample_count metrics)
    = length (filter (fun e => match BiasEvaluation.scenario e with
                               | Some _ => true | None => false end) evaluations) /\
    Forall (fun m => (1 <= BiasMetric.sample_count m)%nat /\ BiasMetric.run_id m = run_id)
           metrics.
Proof.
  destruct (build_metrics_for_run_groups run_id evaluations) as (metrics & Hrun & Hall & Hm).
  exists metrics. split; [exact Hrun|]. split.
  - transitivity (list_sum (map (fun g : metric_key * list Q => length (snd g))
                               (group_scores evaluations [])));
      [|rewrite group_scores_total; reflexivity].
    clear Hrun Hm.
    induction Hall as [|m g ms gs (_ & _ & Hc & _) _ IH]; [reflexivity|].
    cbn [map list_sum fold_right]. rewrite Hc. f_equal. exact IH.
  - apply Forall_forall. intros m Hin.
    destruct (Hm m Hin) as [(Hc & _) Hne]. split.
    + rewrite Hc. destruct (scores_of_group evaluations (key_of_metric m));
        [congruence | simpl; lia].
    + destruct (Forall2_In_left Hall m Hin) as (g & _ & _ & Hr & _). exact Hr.
Qed.

(** X18.  For a group of two scores the three indices max(0, int(p * (n - 1))) are
    all 0: the 25th, 50th and 75th percentile are all the smaller score. *)
Theorem two_scores_share_one_percentile (run_id : text) (key : metric_key) (a b : Q) :
  exists m,
    metric_of_group sqrt run_id key [a; b] = Ok m /\
    BiasMetric.sample_count m = 2%nat /\
    BiasMetric.percentile_25 m == Qmin a b /\
    BiasMetric.percentile_50 m == Qmin a b /\
    BiasMetric.percentile_75 m == Qmin a b.
Proof.
  unfold metric_of_group. cbn [sorted fold_left insert_sorted].
  destruct (Qltb b a) eqn:E.
  - apply Qltb_lt in E. eexists. split; [reflexivity|]. simpl.
    split; [reflexivity|]. rewrite (Q.min_r a b) by lra. repeat split; reflexivity.
  - apply Qltb_ge in E. eexists. split; [reflexivity|]. simpl.
    split; [reflexivity|]. rewrite (Q.min_l a b) by lra. repeat split; reflexivity.
Qed.

End AggregateBounds.

(* --------------------------------------------------------------------- *)
(** ** The route POST /benchmark/run                                       *)
(* --------------------------------------------------------------------- *)

Section RouteProperties.
Context {U : UnicodeData} {NP : NumPy}.

Lemma extract_of_empty_response :
  extract_action_and_confidence [] = Ok (str "UNKNOWN", 1 # 2).
Proof. reflexivity. Qed.

(** Two empty responses score 0, whatever the anchors. *)
Lemma anchoring_of_empty_responses (hv lv : Q) :
  exists r, calculate_anchoring_bias [] [] hv lv = Ok r /\ anchoring_bias_score r = 0.
Proof.
  unfold calculate_anchoring_bias. rewrite extract_of_empty_response.
  cbn [bind]. change (dict_index action_map (str "UNKNOWN")) with (@Ok Q 0). cbn [bind].
  eexists. split; [reflexivity|]. cbn [anchoring_bias_score].
  set (scale := py_min (py_max 1 (Qabs (hv - lv) / 100)) 2).
  set (raw := (Qabs (0 - 0) / 2 + Qabs ((1 # 2) - (1 # 2)) * (2 # 10)) * scale).
  assert (Hraw : raw == 0).
  { unfold raw.
    assert (H : Qabs (0 - 0) / 2 + Qabs ((1 # 2) - (1 # 2)) * (2 # 10) == 0) by reflexivity.
    rewrite H. ring. }
  destruct (py_min_cases 1 raw) as [[H1 E1] | [H1 E1]]; [|lra].
  rewrite E1.
  destruct (py_max_cases 0 raw) as [[H2 E2] | [H2 E2]]; [lra | exact E2].
Qed.

Lemma verdict_of_empty_responses (evaluations : list BiasEvaluation.t) (members : list nat) :
  Forall (fun e => BiasEvaluation.model_response e = []) evaluations ->
  verdict_of evaluations members = Skip \/
  exists h l, verdict_of evaluations members = Assign h l 0.
Proof.
  intros Hall. unfold verdict_of.
  destruct (Nat.ltb (length members) 2); [left; reflexivity|].
  destruct (last_role evaluations (str "high") members None) as [h|]; [|left; reflexivity].
  destruct (last_role evaluations (str "low") members None) as [l|]; [|left; reflexivity].
  destruct (nth_error evaluations h) as [eh|] eqn:Eh; [|left; reflexivity].
  destruct (nth_error evaluations l) as [el|] eqn:El; [|left; reflexivity].
  rewrite Forall_forall in Hall.
  rewrite (Hall eh (nth_error_In _ _ Eh)), (Hall el (nth_error_In _ _ El)).
  destruct (anchoring_of_empty_responses (anchor_value_of eh) (anchor_value_of el))
    as (r & -> & ->).
  right. exists h, l. reflexivity.
Qed.

Lemma reconcile_groups_of_empty_responses (evaluations : list BiasEvaluation.t) :
  Forall (fun e => BiasEvaluation.model_response e = []) evaluations ->
  Forall (fun e => BiasEvaluation.bias_score e = 0) evaluations ->
  forall G, reconcile_groups G evaluations = (evaluations, None).
Proof.
  intros Hr Hz. induction G as [|[k ms] G IH]; [reflexivity|].
  simpl. rewrite (reconcile_pair_verdict ms (Forall2_same_refl evaluations)).
  destruct (verdict_of_empty_responses ms Hr) as [-> | (h & l & V)]; [exact IH|].
  rewrite V. destruct (verdict_positions _ _ V) as (eh & el & Eh & El).
  rewrite Forall_forall in Hz.
  rewrite (@assign_score_id _ _ _ _ Eh (Hz eh (nth_error_In _ _ Eh))).
  rewrite (@assign_score_id _ _ _ _ El (Hz el (nth_error_In _ _ El))).
  exact IH.
Qed.

End RouteProperties.

Section RouteTheorems.
Context {U : UnicodeData} {NP : NumPy}.
Variable lower : text -> text.
Variable P : providers.
Variable sqrt : Q -> Q.

Lemma unified_task (agent : LLMAgent.t) (scenario : BiasScenario.t) :
  _safe_evaluate (UnifiedLLMClient lower P) agent scenario
  = (degraded agent scenario (TypeError unexpected_keyword),
     [Dispatched (LLMAgent.id agent) (BiasScenario.id scenario)]).
Proof. apply _safe_evaluate_failure. reflexivity. Qed.

Lemma unified_events (pairs : list (LLMAgent.t * BiasScenario.t)) :
  flat_map snd (map (fun t => _safe_evaluate (UnifiedLLMClient lower P) (fst t) (snd t)) pairs)
  = map (fun t => Dispatched (LLMAgent.id (fst t)) (BiasScenario.id (snd t))) pairs.
Proof.
  induction pairs as [|[a s] tl IH]; [reflexivity|].
  cbn [map flat_map fst snd]. rewrite unified_task. cbn [snd app]. f_equal. exact IH.
Qed.

(** With the unified client a run returns the degraded records of its
    tasks, untouched by the pass. *)
Lemma unified_run (uuid : text) (agent_ids scenario_ids : list Z) (w : World) :
  let agents := filter (fun a => mem_Z (LLMAgent.id a) agent_ids) (agents_table w) in
  let scenarios := filter (fun s => mem_Z (BiasScenario.id s) scenario_ids) (scenarios_table w) in
  let pairs := cross_product agents scenarios in
  let evaluations :=
    map (fun t => materialize w uuid (degraded (fst t) (snd t) (TypeError unexpected_keyword)))
        pairs in
  agents <> [] -> scenarios <> [] ->
  run_full_benchmark (UnifiedLLMClient lower P) uuid agent_ids scenario_ids w
  = (Ok (uuid, evaluations),
     {| agents_table := agents_table w; scenarios_table := scenarios_table w;
        evaluations_table := evaluations_table w ++ session w ++ evaluations;
        session := [];
        trace := trace w ++ map (fun t => Dispatched (LLMAgent.id (fst t))
                                                     (BiasScenario.id (snd t))) pairs |}).
Proof.
  intros agents scenarios pairs evaluations Ha Hs.
  rewrite (run_full_benchmark_unfold (UnifiedLLMClient lower P) uuid agent_ids scenario_ids w Ha Hs).
  fold agents. fold scenarios. fold pairs.
  assert (E1 : _persist_pending w uuid
                 (map fst (map (fun t => _safe_evaluate (UnifiedLLMClient lower P) (fst t) (snd t))
                               pairs)) = evaluations).
  { unfold _persist_pending, evaluations. rewrite !map_map. apply map_ext.
    intros [a s]. cbn [fst snd]. rewrite unified_task. reflexivity. }
  rewrite E1, unified_events.
  assert (Hpass : _apply_anchoring_pair_scores evaluations = (evaluations, None)).
  { apply reconcile_groups_of_empty_responses; apply Forall_forall; intros e He;
      apply in_map_iff in He; destruct He as (t & <- & _); reflexivity. }
  rewrite Hpass. reflexivity.
Qed.

(** X19.  The route POST /benchmark/run builds its own [UnifiedLLMClient].  When
    the request resolves an agent and a scenario it answers with status
    completed, the fresh run id and one result per pair, each with bias
    score 0, action UNKNOWN and the [TypeError] text as error, whatever the
    providers would answer; every task was dispatched, and the metrics it
    stores have mean and percentiles 0. *)
Theorem benchmark_route_answers_with_degraded_results
    (uuid : text) (request : RunBenchmarkRequest.t) (db : Database) :
  let agents := filter (fun a => mem_Z (LLMAgent.id a) (RunBenchmarkRequest.agent_ids request))
                       (agents_table (world db)) in
  let scenarios := filter (fun s => mem_Z (BiasScenario.id s)
                                          (RunBenchmarkRequest.scenario_ids request))
                          (scenarios_table (world db)) in
  agents <> [] -> scenarios <> [] ->
  exists response metrics w',
    run_benchmark lower P sqrt uuid request db
    = (Responded response, {| world := w'; bias_metrics := bias_metrics db ++ metrics |}) /\
    BenchmarkRunResponse.run_id response = uuid /\
    BenchmarkRunResponse.status response = str "completed" /\
    BenchmarkRunResponse.evaluations_run response = (length agents * length scenarios)%nat /\
    BenchmarkRunResponse.results response = map degraded_item (cross_product agents scenarios) /\
    trace w' = trace (world db) ++
               map (fun t => Dispatched (LLMAgent.id (fst t)) (BiasScenario.id (snd t)))
                   (cross_product agents scenarios) /\
    Forall (fun m => BiasMetric.mean_bias_score m == 0 /\
                     BiasMetric.percentile_25 m == 0 /\
                     BiasMetric.percentile_50 m == 0 /\
                     BiasMetric.percentile_75 m == 0) metrics.
Proof.
  intros agents scenarios Ha Hs.
  unfold run_benchmark.
  rewrite (unified_run uuid (RunBenchmarkRequest.agent_ids request)
             (RunBenchmarkRequest.scenario_ids request) (world db) Ha Hs).
  fold agents. fold scenarios.
  set (evaluations := map _ (cross_product agents scenarios)).
  destruct (build_metrics_for_run_bounds sqrt uuid evaluations (lo := 0) (hi := 0))
    as (metrics & -> & Hm).
  { intros e He. apply in_map_iff in He. destruct He as (t & <- & _). simpl. lra. }
  do 3 eexists. split; [reflexivity|]. cbn [BenchmarkRunResponse.run_id
    BenchmarkRunResponse.status BenchmarkRunResponse.evaluations_run
    BenchmarkRunResponse.results trace].
  split; [reflexivity|]. split; [reflexivity|].
  split; [unfold evaluations; rewrite !length_map; apply cross_product_length|].
  split; [unfold evaluations; rewrite map_map; apply map_ext; intros [a s]; reflexivity|].
  split; [reflexivity|].
  apply Forall_forall. intros m Hin. destruct (Hm m Hin) as (H1 & H2 & H3 & H4).
  repeat split; lra.
Qed.

(** X20.  When the requested ids resolve no agent, or no scenario, the route POST
    /benchmark/run answers with status code 400 and the message of the
    [ValueError] as detail, and leaves the database as it was. *)
Theorem benchmark_route_rejects_unmatched_ids
    (uuid : text) (request : RunBenchmarkRequest.t) (db : Database) :
  filter (fun a => mem_Z (LLMAgent.id a) (RunBenchmarkRequest.agent_ids request))
         (agents_table (world db)) = [] \/
  filter (fun s => mem_Z (BiasScenario.id s) (RunBenchmarkRequest.scenario_ids request))
         (scenarios_table (world db)) = [] ->
  exists detail,
    run_benchmark lower P sqrt uuid request db = (HTTPException 400 detail, db) /\
    (detail = str "No agents matched requested IDs" \/
     detail = str "No scenarios matched requested IDs").
Proof.
  intros H. unfold run_benchmark.
  destruct (run_full_benchmark_cases (UnifiedLLMClient lower P) uuid
              (RunBenchmarkRequest.agent_ids request)
              (RunBenchmarkRequest.scenario_ids request) (world db))
    as [[_ E] | [(_ & _ & E) | (Ha & Hs & _)]].
  - rewrite E. destruct db. eexists. split; [reflexivity | left; reflexivity].
  - rewrite E. destruct db. eexists. split; [reflexivity | right; reflexivity].
  - destruct H; contradiction.
Qed.

End RouteTheorems.

(* --------------------------------------------------------------------- *)
(** ** The interpretation messages                                         *)
(* --------------------------------------------------------------------- *)

Section InterpretationProperties.
Context {U : UnicodeData} {NP : NumPy}.

(** The fields of the dictionary [calculate_anchoring_bias] returns. *)
Lemma anchoring_result_fields (h l : text) (hv lv : Q) (r : anchoring_result) :
  calculate_anchoring_bias h l hv lv = Ok r ->
  high_anchor_action r = extract_action h /\
  low_anchor_action r = extract_action l /\
  action_consistency r = text_eqb (extract_action h) (extract_action l) /\
  extract_confidence h = Ok (high_anchor_confidence r) /\
  extract_confidence l = Ok (low_anchor_confidence r).
Proof.
  unfold calculate_anchoring_bias.
  destruct (extract_action_and_confidence_ok h) as (hc & -> & Ech & _).
  destruct (extract_action_and_confidence_ok l) as (lc & -> & Ecl & _).
  cbn [bind].
  destruct (dict_index action_map (extract_action h)); [|discriminate].
  destruct (dict_index action_map (extract_action l)); [|discriminate].
  cbn [bind]. intros H. inversion H; subst; clear H. simpl. auto.
Qed.

(** X21.  Where the two extracted actions agree, the interpretation is the message
    that no anchoring bias was detected, although the score, which then
    comes from the two confidences alone, can be positive; it is at most
    0.4. *)
Theorem consistent_actions_report_no_anchoring (h l : text) (hv lv : Q)
    (r : anchoring_result) :
  calculate_anchoring_bias h l hv lv = Ok r ->
  action_consistency r = true ->
  anchoring_interpretation r
  = str "No anchoring bias detected; recommendation is consistent." /\
  anchoring_bias_score r <= 4 # 10.
Proof.
  intros E Hc. split.
  - unfold anchoring_interpretation, _interpret_anchoring. rewrite Hc. reflexivity.
  - destruct (anchoring_result_fields _ _ _ _ E) as (_ & _ & Ec & _).
    rewrite Hc in Ec. symmetry in Ec. apply text_eqb_eq in Ec.
    destruct (anchoring_outcome h l hv lv)
      as [(hs & ls & hc & lc & r' & Sh & Sl & Ch & Cl & E' & F) | [E' _]];
      rewrite E in E'; [|discriminate].
    inversion E'; subst r'; clear E'.
    rewrite Ec, Sl in Sh. inversion Sh; subst hs; clear Sh.
    destruct (extract_confidence_range h) as (hc' & Eh & Rh).
    destruct (extract_confidence_range l) as (lc' & El & Rl).
    rewrite Ch in Eh. inversion Eh; subst hc'. rewrite Cl in El. inversion El; subst lc'.
    rewrite F. unfold anchoring_formula.
    set (d := Qabs (hc - lc)).
    set (m := Qmin (Qmax 1 (Qabs (hv - lv) / 100)) 2).
    assert (Hd : 0 <= d <= 1).
    { unfold d. split; [apply Qabs_nonneg|]. apply Qabs_Qle_condition. lra. }
    assert (Hm : 0 <= m <= 2).
    { unfold m.
      destruct (Q.min_spec (Qmax 1 (Qabs (hv - lv) / 100)) 2) as [[H1 ->] | [H1 ->]];
        destruct (Q.max_spec 1 (Qabs (hv - lv) / 100)) as [[H2 E2] | [H2 E2]];
        rewrite ?E2 in *; lra. }
    set (x := (Qabs (ls - ls) / 2 + d * (2 # 10)) * m).
    assert (Hx : x <= 4 # 10).
    { assert (H1 : d * m <= 1 * 2) by (apply Qmult_le_compat_nonneg; lra).
      assert (H2 : x == (2 # 10) * (d * m)).
      { unfold x. rewrite (Qabs_self ls). unfold Qdiv. ring. }
      rewrite H2. lra. }
    unfold clamp01.
    destruct (Q.max_spec 0 (Qmin 1 x)) as [[H1 ->] | [H1 ->]]; [|lra].
    destruct (Q.min_spec 1 x) as [[H2 ->] | [H2 ->]]; lra.
Qed.

(** X22.  With the correct choice A, which the loss-aversion template stores,
    choice, score, flag and interpretation agree: A gives 0 and the message
    of no loss aversion, B gives 1, the flag and the message of loss
    aversion, no choice gives 0.5 and the message that none was extracted. *)
Theorem loss_aversion_report_is_consistent (response : text) :
  exists r,
    calculate_loss_aversion_bias response (str "A") = Ok r /\
    (model_choice r = Some (str "A") /\ loss_bias_score r = 0 /\
     loss_aversion_detected r = false /\
     loss_aversion_interpretation r
     = str "No loss aversion; chose to cut deteriorating position."
     \/
     model_choice r = Some (str "B") /\ loss_bias_score r = 1 /\
     loss_aversion_detected r = true /\
     loss_aversion_interpretation r
     = str "Loss aversion detected; avoided realizing the losing position."
     \/
     model_choice r = None /\ loss_bias_score r = 1 # 2 /\
     loss_aversion_detected r = false /\
     loss_aversion_interpretation r = str "Could not extract A/B choice.").
Proof.
  unfold calculate_loss_aversion_bias.
  destruct (extract_confidence_range response) as (c & -> & _). cbn [bind].
  eexists. split; [reflexivity|].
  unfold loss_aversion_interpretation.
  cbn [model_choice loss_bias_score loss_aversion_detected].
  destruct (extract_binary_choice_cases response) as [E|[E|[E|[]]]]; rewrite <- E.
  - right; right. repeat split; reflexivity.
  - left. repeat split; reflexivity.
  - right; left. repeat split; reflexivity.
Qed.

(** X23.  When the correct action passed is the action the historical baseline
    implies (BUY above 0.05, else HOLD), the interpretation follows the
    score: no recency bias at 0, moderate at 0.5 and 0.6, strong at 1.  The
    message of a minimal recency bias does not occur. *)
Theorem recency_report_follows_score (response : text) (recent_data : list Q)
    (historical_data : metadata) :
  let baseline :=
    binary64 (match historical_q1_return historical_data with Some v => v | None => 0 end) in
  let historical_action :=
    if Qltb (binary64 (5 # 100)) baseline then str "BUY" else str "HOLD" in
  exists r,
    calculate_recency_bias response historical_action recent_data historical_data = Ok r /\
    (recency_bias_score r == 0 /\
     recency_interpretation r = str "No recency bias detected."
     \/
     (recency_bias_score r == 1 # 2 \/ recency_bias_score r == 6 # 10) /\
     recency_interpretation r = str "Moderate recency bias; recent data over-weighted."
     \/
     recency_bias_score r == 1 /\
     recency_interpretation r
     = str "Strong recency bias; recommendation dominated by recent events.").
Proof.
  intros baseline historical_action.
  destruct (extract_action_and_confidence_ok response) as (c & E & _ & _).
  unfold calculate_recency_bias. rewrite E. cbn [bind].
  fold baseline. fold historical_action.
  eexists. split; [reflexivity|].
  unfold recency_interpretation, _interpret_recency.
  cbn [recency_bias_score recency_model_action recency_correct_action].
  destruct (text_eqb (extract_action response) historical_action).
  - left. split; reflexivity.
  - destruct (text_eqb (extract_action response) _).
    + right; right. destruct (Qltb (binary64 (8 # 10)) c); split; reflexivity.
    + right; left. destruct (Qltb (binary64 (8 # 10)) c); split; try reflexivity;
        [right | left]; reflexivity.
Qed.

End InterpretationProperties.

(* --------------------------------------------------------------------- *)
(** ** The score of a complete pair                                        *)
(* --------------------------------------------------------------------- *)

Section PairScore.
Context {U : UnicodeData} {NP : NumPy}.

(** X25.  For a group whose last high and last low evaluation exist, in a run
    whose responses are free of U+0130, the pass returns and both
    evaluations end with the score [calculate_anchoring_bias] gives their
    two responses and anchor values, a score between 0 and 1. *)
Theorem complete_pair_gets_the_detector_score (evaluations : list BiasEvaluation.t)
    (key : pair_key) (h l : nat) :
  (forall e, In e evaluations -> ~ In 304%N (BiasEvaluation.model_response e)) ->
  role_member evaluations key (str "high") h ->
  role_member evaluations key (str "low") l ->
  exists final high_eval low_eval r eh el,
    _apply_anchoring_pair_scores evaluations = (final, None) /\
    nth_error evaluations h = Some high_eval /\
    nth_error evaluations l = Some low_eval /\
    calculate_anchoring_bias (BiasEvaluation.model_response high_eval)
      (BiasEvaluation.model_response low_eval)
      (anchor_value_of high_eval) (anchor_value_of low_eval) = Ok r /\
    nth_error final h = Some eh /\ nth_error final l = Some el /\
    BiasEvaluation.bias_score eh = anchoring_bias_score r /\
    BiasEvaluation.bias_score el = anchoring_bias_score r /\
    0 <= anchoring_bias_score r <= 1.
Proof.
  intros Hplain Hh Hl.
  assert (Hsc : scales_defined evaluations).
  { intros e He _. apply action_scale_plain. apply Hplain. exact He. }
  destruct (anchoring_groups_spec evaluations) as (Hd & Hmem & Hpresent).
  pose proof Hh as (Gh & Rh & _). pose proof Hl as (Gl & Rl & _).
  set (members := positions_from key 0 evaluations).
  assert (Hin : In (key, members) (anchoring_groups evaluations)) by (eapply Hpresent; eauto).
  destruct Gh as (high_eval & Nh & Kh). destruct Gl as (low_eval & Nl & Kl).
  assert (Hne : h <> l) by (intros ->; eapply roles_differ; eauto).
  destruct (anchoring_outcome (BiasEvaluation.model_response high_eval)
              (BiasEvaluation.model_response low_eval)
              (anchor_value_of high_eval) (anchor_value_of low_eval))
    as [(hs & ls & hc & lc & r & _ & _ & _ & _ & C & _) | [_ [D|D]]].
  2: { exfalso. apply (@action_scale_plain U (BiasEvaluation.model_response high_eval)).
       - apply Hplain. eapply nth_error_In; eauto.
       - rewrite D. reflexivity. }
  2: { exfalso. apply (@action_scale_plain U (BiasEvaluation.model_response low_eval)).
       - apply Hplain. eapply nth_error_In; eauto.
       - rewrite D. reflexivity. }
  assert (V : verdict_of evaluations members = Assign h l (anchoring_bias_score r)).
  { unfold verdict_of.
    assert (L2 : (2 <= length members)%nat).
    { apply (@positions_two evaluations key h l); [exists high_eval | exists low_eval |]; auto. }
    destruct (Nat.ltb (length members) 2) eqn:Lt; [apply Nat.ltb_lt in Lt; lia|].
    unfold members. rewrite (role_member_last Hh), (role_member_last Hl).
    rewrite Nh, Nl, C. reflexivity. }
  unfold _apply_anchoring_pair_scores.
  destruct (reconcile_groups_completes (anchoring_groups evaluations)
              (Forall2_same_refl evaluations) (no_fail Hsc)) as (final & Hrun).
  destruct (@reconcile_groups_assigns U evaluations (anchoring_groups evaluations)
              evaluations final (Forall2_same_refl evaluations) Hd Hrun
              key members h l _ Hin V)
    as (eh & el & Fh & Fl & Sh' & Sl').
  { intros k' ms' Hin' Hk'. rewrite (Hmem _ _ Hin').
    split; intros Hx; apply In_positions in Hx; apply Hk'.
    - eapply in_group_unique; [exact Hx | exists high_eval; auto].
    - eapply in_group_unique; [exact Hx | exists low_eval; auto]. }
  exists final, high_eval, low_eval, r, eh, el.
  split; [exact Hrun|]. split; [exact Nh|]. split; [exact Nl|].
  split; [exact C|]. split; [exact Fh|]. split; [exact Fl|].
  split; [exact Sh'|]. split; [exact Sl'|].
  eapply calculate_anchoring_bias_range; eauto.
Qed.

End PairScore.

(* --------------------------------------------------------------------- *)
(** ** The scenario generator                                              *)
(* --------------------------------------------------------------------- *)

Lemma dict_index_first {V : Type} (k : text) (v : V) (tl : list (text * V)) :
  dict_index ((k, v) :: tl) k = Ok v.
Proof. unfold dict_index, dict_get. cbn [find fst snd]. rewrite text_eqb_refl. reflexivity. Qed.

Lemma dict_get_first {V : Type} (k : text) (v : V) (tl : list (text * V)) :
  dict_get ((k, v) :: tl) k = Some v.
Proof. unfold dict_get. cbn [find fst snd]. rewrite text_eqb_refl. reflexivity. Qed.

Lemma choice_in (raw : nat) : In (choice raw tickers) tickers.
Proof.
  unfold choice. apply nth_In. apply Nat.mod_upper_bound. discriminate.
Qed.

Lemma nodupb_NoDup (l : list text) : nodupb l = true -> NoDup l.
Proof.
  induction l as [|x tl IH]; simpl; intros H; constructor.
  - apply andb_true_iff in H. destruct H as [H _]. apply negb_true_iff in H.
    intros Hin. unfold mem_text in H.
    assert (Hx : existsb (text_eqb x) tl = true).
    { apply existsb_exists. exists x. split; [exact Hin | apply text_eqb_refl]. }
    congruence.
  - apply IH. apply andb_true_iff in H. tauto.
Qed.

Lemma mem_text_In (s : text) (l : list text) : mem_text s l = true <-> In s l.
Proof.
  unfold mem_text. rewrite existsb_exists. split.
  - intros (x & Hx & E). apply text_eqb_eq in E. subst. exact Hx.
  - intros H. exists s. split; [exact H | apply text_eqb_refl].
Qed.

(** Whatever the draws, the names of a generation are pairwise distinct. *)
Lemma generation_names_distinct (ticker_of : nat -> text) :
  (forall n, In (ticker_of n) tickers) -> NoDup (generation_names ticker_of).
Proof.
  intros H. apply nodupb_NoDup.
  assert (Hall : forallb (fun t0 => forallb (fun t1 => forallb (fun t2 => forallb (fun t3 =>
            nodupb (regime_names t0 BULL ++ regime_names t1 BEAR ++
                    regime_names t2 CRISIS ++ regime_names t3 STABLE))
            tickers) tickers) tickers) tickers = true) by (vm_compute; reflexivity).
  rewrite forallb_forall in Hall. specialize (Hall _ (H 0%nat)).
  rewrite forallb_forall in Hall. specialize (Hall _ (H 1%nat)).
  rewrite forallb_forall in Hall. specialize (Hall _ (H 2%nat)).
  rewrite forallb_forall in Hall. specialize (Hall _ (H 3%nat)).
  exact Hall.
Qed.

Section GeneratorProperties.
Context {U : UnicodeData} {NP : NumPy}.
Variable C : Calendar.
Variable randbelow : nat -> nat.
Variable system_now : nat -> aware C.
Variable pit_now : nat -> result (datetime C).

Lemma validate_context_raises (now : result (datetime C)) (context : list (text * text))
    (exc : exn) :
  validate_context C now context = Raise exc ->
  (exists msg, exc = ValueError msg) \/
  (exc = naive_comparison /\ exists t, now = Ok (Naive t)) \/
  now = Raise exc.
Proof.
  unfold validate_context, _parse_as_of.
  destruct (dict_get context (str "as_of")) as [[|c as_of]|];
    try (intros H; inversion H; left; eauto; fail).
  destruct (fromisoformat C _) as [[parsed|parsed]|]; cbn [bind];
    try (intros H; inversion H; left; eauto; fail);
    (destruct now as [[now|now]|exc']; cbn [bind];
     [match goal with |- context [later C ?a ?b] => destruct (later C a b) end;
      intros H; inversion H; left; eauto
     |intros H; inversion H; right; left; eauto
     |intros H; inversion H; right; right; reflexivity]).
Qed.

(** With the clock of [PointInTimeController()] the error is a
    [ValueError]. *)
Lemma utc_clock_error (now : nat -> aware C) (exc : exn) :
  generation_error C (utc_clock C now) exc -> exists msg, exc = ValueError msg.
Proof.
  intros [H|[(_ & k & t & H)|(k & H)]]; [exact H | discriminate H | discriminate H].
Qed.

(** A context is the dictionary of its three entries, or the check of the
    point-in-time controller raised. *)
Lemma _base_context_cases (k : nat) (regime : MarketRegime) (days_ago : Z) :
  match _base_context C system_now pit_now k regime days_ago with
  | Raise exc => generation_error C pit_now exc
  | Ok context =>
      exists as_of,
        context = [(str "as_of", as_of);
                   (str "market_regime", MarketRegime_value regime);
                   (str "source_set", str "synthetic_v1")]
  end.
Proof.
  unfold _base_context.
  match goal with |- context [validate_context C ?n ?c] =>
    destruct (validate_context C n c) as [[]|exc] eqn:E end; cbn [bind].
  - eexists. reflexivity.
  - destruct (validate_context_raises _ _ E) as [H|[(H & t & Ht)|H]]; [left; exact H| |].
    + right; left. split; [exact H|]. exists k, t. exact Ht.
    + right; right. exists k. exact H.
Qed.

Ltac context_cases k regime days :=
  let ctx := fresh "context" in
  let exc := fresh "exc" in
  let as_of := fresh "as_of" in
  let H := fresh "H" in
  pose proof (_base_context_cases k regime days) as H;
  destruct (_base_context C system_now pit_now k regime days) as [ctx|exc];
  cbn [bind];
  [destruct H as [as_of ->]; rewrite dict_index_first; cbn [bind] | ].

Lemma generate_anchoring_pair_cases (d k : nat) (regime : MarketRegime) :
  match generate_anchoring_pair C randbelow system_now pit_now d k regime with
  | Raise exc => generation_error C pit_now exc
  | Ok (high_anchor, low_anchor) =>
      let ticker := choice (randbelow d) tickers in
      let key := ticker ++ str ":" ++ MarketRegime_value regime ++ str ":anchoring" in
      ScenarioData.scenario_name high_anchor
        = ticker ++ str "_" ++ MarketRegime_value regime ++ str "_anchoring_high" /\
      ScenarioData.scenario_name low_anchor
        = ticker ++ str "_" ++ MarketRegime_value regime ++ str "_anchoring_low" /\
      ScenarioData.bias_type high_anchor = str "anchoring" /\
      ScenarioData.bias_type low_anchor = str "anchoring" /\
      ScenarioData.market_regime high_anchor = MarketRegime_value regime /\
      ScenarioData.market_regime low_anchor = MarketRegime_value regime /\
      ScenarioData.anchor_pair_key high_anchor = Some key /\
      ScenarioData.anchor_pair_key low_anchor = Some key /\
      ScenarioData.anchor_value high_anchor = Some 200 /\
      ScenarioData.anchor_value low_anchor = Some 100 /\
      ScenarioData.correct_action high_anchor = str "HOLD" /\
      ScenarioData.correct_action low_anchor = str "HOLD" /\
      anchor_type (metadata_of (ScenarioData.scenario_metadata high_anchor))
        = Some (str "high") /\
      anchor_type (metadata_of (ScenarioData.scenario_metadata low_anchor))
        = Some (str "low") /\
      ScenarioData.base_prompt low_anchor
        = replace (str "$200") (str "$100") (ScenarioData.base_prompt high_anchor)
  end.
Proof.
  unfold generate_anchoring_pair.
  context_cases k regime 1%Z; [|exact H].
  cbn [ScenarioData.scenario_name ScenarioData.bias_type ScenarioData.market_regime
       ScenarioData.anchor_pair_key ScenarioData.anchor_value ScenarioData.correct_action
       ScenarioData.scenario_metadata ScenarioData.base_prompt].
  repeat (split; [reflexivity|]). reflexivity.
Qed.

Lemma generate_recency_scenario_cases (k : nat) (regime : MarketRegime) :
  match generate_recency_scenario C system_now pit_now k regime with
  | Raise exc => generation_error C pit_now exc
  | Ok scenario =>
      ScenarioData.scenario_name scenario = str "recency_bias_" ++ MarketRegime_value regime /\
      ScenarioData.bias_type scenario = str "recency" /\
      ScenarioData.market_regime scenario = MarketRegime_value regime
  end.
Proof.
  unfold generate_recency_scenario.
  context_cases k regime 2%Z; [|exact H]. repeat split; reflexivity.
Qed.

Lemma generate_loss_aversion_scenario_cases (k : nat) (regime : MarketRegime) :
  match generate_loss_aversion_scenario C system_now pit_now k regime with
  | Raise exc => generation_error C pit_now exc
  | Ok scenario =>
      ScenarioData.scenario_name scenario = str "loss_aversion_" ++ MarketRegime_value regime /\
      ScenarioData.bias_type scenario = str "loss_aversion" /\
      ScenarioData.market_regime scenario = MarketRegime_value regime
  end.
Proof.
  unfold generate_loss_aversion_scenario.
  context_cases k regime 3%Z; [|exact H]. repeat split; reflexivity.
Qed.

Lemma generate_overconfidence_scenario_cases (k : nat) (regime : MarketRegime) :
  match generate_overconfidence_scenario C system_now pit_now k regime with
  | Raise exc => generation_error C pit_now exc
  | Ok scenario =>
      ScenarioData.scenario_name scenario = str "overconfidence_" ++ MarketRegime_value regime /\
      ScenarioData.bias_type scenario = str "overconfidence" /\
      ScenarioData.market_regime scenario = MarketRegime_value regime
  end.
Proof.
  unfold generate_overconfidence_scenario.
  context_cases k regime 4%Z; [|exact H]. repeat split; reflexivity.
Qed.

Ltac next_scenario :=
  match goal with
  | |- context [generate_anchoring_pair C randbelow system_now pit_now ?d ?k ?r] =>
      let H := fresh "Hpair" in
      pose proof (generate_anchoring_pair_cases d k r) as H;
      destruct (generate_anchoring_pair C randbelow system_now pit_now d k r) as [[? ?]|?];
      cbn [bind]; [cbv zeta in H; destruct H as (? & ? & ? & ? & ? & ? & _) | exact H]
  | |- context [generate_recency_scenario C system_now pit_now ?k ?r] =>
      let H := fresh "Hone" in
      pose proof (generate_recency_scenario_cases k r) as H;
      destruct (generate_recency_scenario C system_now pit_now k r) as [?|?];
      cbn [bind]; [destruct H as (? & ? & ?) | exact H]
  | |- context [generate_loss_aversion_scenario C system_now pit_now ?k ?r] =>
      let H := fresh "Hone" in
      pose proof (generate_loss_aversion_scenario_cases k r) as H;
      destruct (generate_loss_aversion_scenario C system_now pit_now k r) as [?|?];
      cbn [bind]; [destruct H as (? & ? & ?) | exact H]
  | |- context [generate_overconfidence_scenario C system_now pit_now ?k ?r] =>
      let H := fresh "Hone" in
      pose proof (generate_overconfidence_scenario_cases k r) as H;
      destruct (generate_overconfidence_scenario C system_now pit_now k r) as [?|?];
      cbn [bind]; [destruct H as (? & ? & ?) | exact H]
  end.

(** A generation is the list of the twenty scenarios, five a regime, or
    the check of the point-in-time controller raised. *)
Lemma generate_all_scenarios_cases :
  match generate_all_scenarios C randbelow system_now pit_now with
  | Raise exc => generation_error C pit_now exc
  | Ok scenarios =>
      map ScenarioData.scenario_name scenarios
      = generation_names (fun n => choice (randbelow n) tickers) /\
      map ScenarioData.bias_type scenarios
      = regime_kinds ++ regime_kinds ++ regime_kinds ++ regime_kinds /\
      map ScenarioData.market_regime scenarios
      = flat_map (fun r => repeat (MarketRegime_value r) 5) MarketRegime_members
  end.
Proof.
  unfold generate_all_scenarios, MarketRegime_members. cbn [scenarios_from].
  do 16 next_scenario.
  unfold generation_names, regime_names, regime_kinds.
  cbn [map app flat_map repeat].
  repeat match goal with H : _ = _ |- _ => rewrite H; clear H end.
  repeat split; reflexivity.
Qed.

End GeneratorProperties.

Section GeneratorTheorems.
Context {U : UnicodeData} {NP : NumPy}.
Variable C : Calendar.
Variable randbelow : nat -> nat.
Variable system_now : nat -> aware C.
Variable pit_now : nat -> result (datetime C).

(** X26.  [generate_anchoring_pair] raises [ValueError] (a context dated
    after the controller's clock), or raises the [TypeError] of comparing an
    aware with a naive datetime (the controller's clock gives a naive
    value), or raises what the controller's clock raised, or returns two
    scenarios with different names, the low prompt being the high prompt
    with $200 replaced by $100; evaluations of one agent for the two
    scenarios fall into one group of the pass, tagged high with value 200
    and low with value 100. *)
Theorem generated_pair_forms_a_complete_group (d k : nat) (regime : MarketRegime) :
  match generate_anchoring_pair C randbelow system_now pit_now d k regime with
  | Raise exc =>
      (exists msg, exc = ValueError msg) \/
      (exc = naive_comparison /\ exists k t, pit_now k = Ok (Naive t)) \/
      (exists k, pit_now k = Raise exc)
  | Ok (high_anchor, low_anchor) =>
      ScenarioData.scenario_name high_anchor <> ScenarioData.scenario_name low_anchor /\
      ScenarioData.base_prompt low_anchor
      = replace (str "$200") (str "$100") (ScenarioData.base_prompt high_anchor) /\
      forall (high_eval low_eval : BiasEvaluation.t) (i j : Z),
        BiasEvaluation.scenario high_eval = Some (new_scenario i high_anchor) ->
        BiasEvaluation.scenario low_eval = Some (new_scenario j low_anchor) ->
        BiasEvaluation.agent_id high_eval = BiasEvaluation.agent_id low_eval ->
        anchoring_key high_eval = anchoring_key low_eval /\
        anchoring_key high_eval <> None /\
        anchor_type_of high_eval = Some (str "high") /\
        anchor_type_of low_eval = Some (str "low") /\
        anchor_value_of high_eval = 200 /\
        anchor_value_of low_eval = 100
  end.
Proof.
  pose proof (generate_anchoring_pair_cases randbelow system_now pit_now d k regime) as H.
  destruct (generate_anchoring_pair C randbelow system_now pit_now d k regime)
    as [[high low]|exc]; [|exact H].
  cbv zeta in H.
  destruct H as (Nh & Nl & Bh & Bl & _ & _ & Kh & Kl & Vh & Vl & _ & _ & Th & Tl & Pl).
  pose proof (choice_in (randbelow d)) as Hin.
  set (ticker := choice (randbelow d) tickers) in *.
  split; [|split; [exact Pl|]].
  - rewrite Nh, Nl. intros E. apply app_inv_head in E. apply app_inv_head in E.
    apply app_inv_head in E. discriminate E.
  - intros high_eval low_eval i j Sh Sl Ea.
    unfold anchoring_key, anchor_type_of, anchor_value_of, metadata_or_empty.
    rewrite Sh, Sl.
    cbn [new_scenario BiasScenario.bias_type BiasScenario.anchor_pair_key
         BiasScenario.scenario_metadata BiasScenario.anchor_value].
    rewrite Bh, Bl, Kh, Kl, Vh, Vl, Th, Tl, Ea.
    change (text_eqb (str "anchoring") (str "anchoring")) with true. cbn [negb].
    assert (Hk : exists c tl, ticker ++ str ":" ++ MarketRegime_value regime ++ str ":anchoring"
                              = c :: tl).
    { destruct Hin as [<-|[<-|[<-|[<-|[]]]]]; do 2 eexists; reflexivity. }
    destruct Hk as (c & tl & ->).
    repeat split; try reflexivity. discriminate.
Qed.

(** X27.  [generate_all_scenarios] raises [ValueError], or raises the
    [TypeError] of comparing an aware with a naive datetime (the
    controller's clock gives a naive value), or raises what the controller's
    clock raised, or returns twenty scenarios with twenty different names,
    whatever the random draws: for each of the four regimes, in the order
    of the enumeration, the anchoring pair and the recency, loss-aversion
    and overconfidence scenarios. *)
Theorem generation_gives_twenty_distinct_names :
  match generate_all_scenarios C randbelow system_now pit_now with
  | Raise exc =>
      (exists msg, exc = ValueError msg) \/
      (exc = naive_comparison /\ exists k t, pit_now k = Ok (Naive t)) \/
      (exists k, pit_now k = Raise exc)
  | Ok scenarios =>
      length scenarios = 20%nat /\
      NoDup (map ScenarioData.scenario_name scenarios) /\
      map ScenarioData.bias_type scenarios
      = regime_kinds ++ regime_kinds ++ regime_kinds ++ regime_kinds /\
      map ScenarioData.market_regime scenarios
      = flat_map (fun r => repeat (MarketRegime_value r) 5) MarketRegime_members
  end.
Proof.
  pose proof (generate_all_scenarios_cases randbelow system_now pit_now) as H.
  destruct (generate_all_scenarios C randbelow system_now pit_now) as [scenarios|exc];
    [|exact H].
  destruct H as (Hn & Hk & Hr).
  split; [|split; [|split; [exact Hk | exact Hr]]].
  - rewrite <- (length_map ScenarioData.bias_type), Hk. reflexivity.
  - rewrite Hn. apply generation_names_distinct. intros n. apply choice_in.
Qed.

End GeneratorTheorems.

(* --------------------------------------------------------------------- *)
(** ** The route POST /scenarios/generate                                  *)
(* --------------------------------------------------------------------- *)

Lemma filter_length_imp {A : Type} (p q : A -> bool) (l : list A) :
  (forall x, In x l -> p x = true -> q x = true) ->
  (length (filter p l) <= length (filter q l))%nat.
Proof.
  induction l as [|x tl IH]; intros H; simpl; [lia|].
  assert (IH' : (length (filter p tl) <= length (filter q tl))%nat).
  { apply IH. intros y Hy. apply H. right. exact Hy. }
  destruct (p x) eqn:Ep.
  - rewrite (H x (or_introl eq_refl) Ep). simpl. lia.
  - destruct (q x); simpl; lia.
Qed.

Lemma filter_false {A : Type} (l : list A) : filter (fun _ => false) l = [].
Proof. induction l; simpl; auto. Qed.

Lemma add_missing_spec (new_id : nat -> Z) (existing_names : list text) :
  forall (generated : list ScenarioData.t) (inserted : nat),
  let kept := filter (fun d => negb (mem_text (ScenarioData.scenario_name d) existing_names))
                     generated in
  snd (add_missing new_id existing_names generated inserted) = (inserted + length kept)%nat /\
  map BiasScenario.scenario_name (fst (add_missing new_id existing_names generated inserted))
  = map ScenarioData.scenario_name kept /\
  map BiasScenario.bias_type (fst (add_missing new_id existing_names generated inserted))
  = map ScenarioData.bias_type kept.
Proof.
  induction generated as [|d tl IH]; intros inserted; cbn [add_missing filter].
  - simpl. repeat split; lia.
  - destruct (mem_text (ScenarioData.scenario_name d) existing_names); cbn [negb].
    + apply IH.
    + destruct (IH (S inserted)) as (H1 & H2 & H3).
      destruct (add_missing new_id existing_names tl (S inserted)) as [added n].
      cbn [fst snd] in *. cbn [map length new_scenario BiasScenario.scenario_name
                                BiasScenario.bias_type].
      rewrite H1, H2, H3. repeat split; lia.
Qed.

Lemma map_pair_combine {A B D : Type} (f : A -> B) (g : A -> D) (l : list A) :
  map (fun x => (f x, g x)) l = combine (map f l) (map g l).
Proof. induction l as [|x tl IH]; simpl; [reflexivity | rewrite IH; reflexivity]. Qed.

(** Whatever the draws of two generations, a name of the second that the
    first does not have is the name of an anchoring scenario. *)
Lemma other_names_recur (ticker_of ticker_of' : nat -> text) (name kind : text) :
  In (name, kind)
     (combine (generation_names ticker_of')
              (regime_kinds ++ regime_kinds ++ regime_kinds ++ regime_kinds)) ->
  kind = str "anchoring" \/ In name (generation_names ticker_of).
Proof.
  unfold generation_names, regime_names, regime_kinds. cbn [app combine In].
  intros H.
  repeat match type of H with
  | _ \/ _ => destruct H as [H|H]
  end; try contradiction; inversion H; subst;
  first [left; reflexivity | right; repeat (try (left; reflexivity); right)].
Qed.

Section GenerateScenariosTheorems.
Context {U : UnicodeData} {NP : NumPy}.

(** X28.  If the stored scenario names are pairwise different, POST
    /scenarios/generate keeps them so: it reports 20 generated scenarios,
    appends as many rows as it reports inserted (at most 20) after the
    stored ones and leaves the agents alone.  If the generation raises, it
    is a [ValueError], not turned into an HTTP error, and nothing is stored. *)
Theorem scenario_route_keeps_names_unique (C : Calendar) (randbelow : nat -> nat)
    (system_now pit_now : nat -> aware C) (new_id : nat -> Z) (w : World) :
  NoDup (map BiasScenario.scenario_name (scenarios_table w)) ->
  match generate_scenarios C randbelow system_now pit_now new_id w with
  | (Responded response, w') =>
      GenerateScenarioResponse.total_generated response = 20%nat /\
      (GenerateScenarioResponse.inserted response <= 20)%nat /\
      (exists added,
         scenarios_table w' = scenarios_table w ++ added /\
         length added = GenerateScenarioResponse.inserted response) /\
      NoDup (map BiasScenario.scenario_name (scenarios_table w')) /\
      agents_table w' = agents_table w
  | (Unhandled exc, w') => w' = w /\ exists msg, exc = ValueError msg
  | (HTTPException _ _, _) => False
  end.
Proof.
  intros Hd. unfold generate_scenarios.
  pose proof (generate_all_scenarios_cases randbelow system_now (utc_clock C pit_now)) as H.
  destruct (generate_all_scenarios C randbelow system_now (utc_clock C pit_now))
    as [generated|exc]; [|split; [reflexivity | exact (utc_clock_error H)]].
  destruct H as (Hn & Hk & _).
  set (existing_names := map BiasScenario.scenario_name (scenarios_table w)) in *.
  destruct (add_missing_spec new_id existing_names generated 0) as (H1 & H2 & _).
  destruct (add_missing new_id existing_names generated 0) as [added inserted].
  cbn [fst snd] in *.
  cbn [GenerateScenarioResponse.total_generated GenerateScenarioResponse.inserted
       scenarios_table agents_table].
  assert (Hlen : length generated = 20%nat).
  { rewrite <- (length_map ScenarioData.bias_type), Hk. reflexivity. }
  assert (Hadded : length added = inserted).
  { rewrite <- (length_map BiasScenario.scenario_name), H2, length_map, H1. reflexivity. }
  split; [exact Hlen|]. split.
  { rewrite H1, <- Hlen. apply filter_length_le. }
  split; [exists added; split; [reflexivity | exact Hadded]|].
  split; [|reflexivity].
  rewrite map_app, H2. fold existing_names.
  rewrite <- filter_map_swap
    with (f := fun s => negb (mem_text s existing_names)) (g := ScenarioData.scenario_name).
  apply NoDup_app; [exact Hd | |].
  - apply NoDup_filter. rewrite Hn. apply generation_names_distinct.
    intros n. apply choice_in.
  - intros a Ha Hf. apply filter_In in Hf. destruct Hf as [_ Hf].
    apply negb_true_iff in Hf. apply mem_text_In in Ha. congruence.
Qed.

(** X29.  A second POST /scenarios/generate after a first that succeeded adds at
    most 8 rows, all of bias type anchoring (their names carry the drawn
    ticker); it adds none when the four ticker draws are those of the first
    request. *)
Theorem repeated_generation_adds_only_anchoring_pairs
    (C C' : Calendar) (randbelow randbelow' : nat -> nat)
    (system_now pit_now : nat -> aware C) (system_now' pit_now' : nat -> aware C')
    (new_id new_id' : nat -> Z) (w w' : World) (response : GenerateScenarioResponse.t) :
  generate_scenarios C randbelow system_now pit_now new_id w = (Responded response, w') ->
  match generate_scenarios C' randbelow' system_now' pit_now' new_id' w' with
  | (Responded response', w'') =>
      (GenerateScenarioResponse.inserted response' <= 8)%nat /\
      (exists added,
         scenarios_table w'' = scenarios_table w' ++ added /\
         length added = GenerateScenarioResponse.inserted response' /\
         Forall (fun row => BiasScenario.bias_type row = str "anchoring") added) /\
      ((forall n, (n < 4)%nat ->
          choice (randbelow' n) tickers = choice (randbelow n) tickers) ->
       GenerateScenarioResponse.inserted response' = 0%nat)
  | (Unhandled exc, _) => exists msg, exc = ValueError msg
  | (HTTPException _ _, _) => False
  end.
Proof.
  unfold generate_scenarios.
  pose proof (generate_all_scenarios_cases randbelow system_now (utc_clock C pit_now)) as H.
  destruct (generate_all_scenarios C randbelow system_now (utc_clock C pit_now))
    as [generated|exc]; [|discriminate].
  destruct H as (Hn & _ & _).
  set (existing_names := map BiasScenario.scenario_name (scenarios_table w)) in *.
  destruct (add_missing_spec new_id existing_names generated 0) as (_ & H2 & _).
  destruct (add_missing new_id existing_names generated 0) as [added inserted].
  cbn [fst snd] in *. intros E. inversion E; subst; clear E.
  cbn [scenarios_table].
  pose proof (generate_all_scenarios_cases randbelow' system_now' (utc_clock C' pit_now'))
    as H'.
  destruct (generate_all_scenarios C' randbelow' system_now' (utc_clock C' pit_now'))
    as [generated'|exc']; [|exact (utc_clock_error H')].
  destruct H' as (Hn' & Hk' & _).
  set (existing_names' := map BiasScenario.scenario_name (scenarios_table w ++ added)) in *.
  (* the names of the first generation are all stored *)
  assert (Hstored : forall name,
            In name (generation_names (fun n => choice (randbelow n) tickers)) ->
            mem_text name existing_names' = true).
  { intros name Hin. apply mem_text_In. unfold existing_names'. rewrite map_app.
    apply in_or_app.
    destruct (mem_text name existing_names) eqn:Em.
    - left. apply mem_text_In. exact Em.
    - right. rewrite H2. rewrite <- Hn in Hin.
      apply in_map_iff in Hin. destruct Hin as (d & <- & Hd).
      apply in_map. apply filter_In. split; [exact Hd|]. rewrite Em. reflexivity. }
  destruct (add_missing_spec new_id' existing_names' generated' 0) as (H1' & H2' & H3').
  destruct (add_missing new_id' existing_names' generated' 0) as [added' inserted'].
  cbn [fst snd] in *.
  cbn [GenerateScenarioResponse.inserted scenarios_table].
  set (kept' := filter (fun d => negb (mem_text (ScenarioData.scenario_name d) existing_names'))
                       generated') in *.
  assert (Hanch : forall d, In d kept' -> ScenarioData.bias_type d = str "anchoring").
  { intros d Hd. apply filter_In in Hd. destruct Hd as [Hd Hf].
    apply negb_true_iff in Hf.
    assert (Hp : In (ScenarioData.scenario_name d, ScenarioData.bias_type d)
                    (combine (generation_names (fun n => choice (randbelow' n) tickers))
                             (regime_kinds ++ regime_kinds ++ regime_kinds ++ regime_kinds))).
    { rewrite <- Hn', <- Hk', <- map_pair_combine.
      apply (in_map (fun x => (ScenarioData.scenario_name x, ScenarioData.bias_type x))).
      exact Hd. }
    destruct (@other_names_recur (fun n => choice (randbelow n) tickers) _ _ _ Hp)
      as [Hk|Hin]; [exact Hk|].
    rewrite (Hstored _ Hin) in Hf. discriminate. }
  assert (Hadded' : length added' = inserted').
  { rewrite <- (length_map BiasScenario.scenario_name), H2', length_map, H1'. reflexivity. }
  split; [|split].
  - rewrite H1'. cbn [Nat.add].
    transitivity (length (filter (fun d => text_eqb (ScenarioData.bias_type d) (str "anchoring"))
                                 generated')).
    + apply filter_length_imp. intros d Hd Hf. apply text_eqb_eq. apply Hanch.
      apply filter_In. auto.
    + rewrite <- (length_map ScenarioData.bias_type).
      rewrite <- filter_map_swap with (f := fun k => text_eqb k (str "anchoring")).
      rewrite Hk'. vm_compute. lia.
  - exists added'. split; [reflexivity|]. split; [exact Hadded'|].
    apply Forall_forall. intros row Hrow.
    apply (in_map BiasScenario.bias_type) in Hrow. rewrite H3' in Hrow.
    apply in_map_iff in Hrow. destruct Hrow as (d & <- & Hd). apply Hanch. exact Hd.
  - intros Hsame. rewrite H1'. cbn [Nat.add].
    assert (Hnames : generation_names (fun n => choice (randbelow' n) tickers)
                     = generation_names (fun n => choice (randbelow n) tickers)).
    { unfold generation_names.
      rewrite (Hsame 0%nat), (Hsame 1%nat), (Hsame 2%nat), (Hsame 3%nat) by lia.
      reflexivity. }
    assert (Hle : (length kept' <= length (filter (fun _ : ScenarioData.t => false) generated'))%nat).
    { apply filter_length_imp. intros d Hd Hf. apply negb_true_iff in Hf.
      rewrite Hstored in Hf; [discriminate|].
      rewrite <- Hnames, <- Hn'. apply in_map. exact Hd. }
    rewrite filter_false in Hle. simpl in Hle. lia.
Qed.
End GenerateScenariosTheorems.

(* --------------------------------------------------------------------- *)
(** ** Instances on the sample data                                        *)
(* --------------------------------------------------------------------- *)

(** On the sample calendar a generation goes through: the clock reads 20
    January, the contexts are dated 16 to 19 January. *)
Example generation_on_the_20th :
  exists scenarios,
    @generate_all_scenarios Sample.small_database SampleClock.january SampleClock.draws
      SampleClock.the_20th (utc_clock SampleClock.january SampleClock.the_20th)
    = Ok scenarios /\
    map ScenarioData.scenario_name scenarios
    = generation_names (fun n => nth n tickers []) /\
    map (fun s => dict_get (ScenarioData.historical_context s) (str "as_of")) scenarios
    = flat_map (fun _ => [Some (SampleClock.iso_day 19); Some (SampleClock.iso_day 19);
                          Some (SampleClock.iso_day 18); Some (SampleClock.iso_day 17);
                          Some (SampleClock.iso_day 16)]) MarketRegime_members.
Proof. eexists. split; [vm_compute; reflexivity|]. split; reflexivity. Qed.

(** With a controller whose clock reads 10 January while the system clock
    reads 20 January, the first context is ahead of the controller and the
    generation raises. *)
Example generation_ahead_of_the_controller :
  @generate_all_scenarios Sample.small_database SampleClock.january SampleClock.draws
    SampleClock.the_20th (fun _ => Ok (Aware 10%nat))
  = Raise (ValueError (str "Point-in-time violation: 2026-01-19T00:00:00+00:00 is in the future")).
Proof. vm_compute. reflexivity. Qed.

(** With a controller whose provider gives naive values, the comparison of
    the first context's date with the clock raises [TypeError]. *)
Example generation_with_a_naive_clock :
  @generate_all_scenarios Sample.small_database SampleClock.january SampleClock.draws
    SampleClock.the_20th SampleClock.naive_20th
  = Raise (TypeError (str "can't compare offset-naive and offset-aware datetimes")).
Proof. vm_compute. reflexivity. Qed.

(** A date without an offset is read as UTC: it passes the check on the day
    itself and fails it the day before. *)
Example naive_as_of_is_read_as_utc :
  validate_context SampleClock.january (Ok (Aware 20%nat))
    [(str "as_of", SampleClock.naive_day 20)] = Ok tt /\
  validate_context SampleClock.january (Ok (Aware 19%nat))
    [(str "as_of", SampleClock.naive_day 20)]
  = Raise (ValueError (str "Point-in-time violation: 2026-01-20T00:00:00+00:00 is in the future")).
Proof. split; vm_compute; reflexivity. Qed.

(** The low prompt of a generated pair names the target 100 where the high
    prompt names 200, and is the same text otherwise. *)
Example low_prompt_of_the_pair :
  exists high low before after,
    @generate_anchoring_pair Sample.small_database SampleClock.january SampleClock.draws
      SampleClock.the_20th (utc_clock SampleClock.january SampleClock.the_20th) 0 0 BULL
    = Ok (high, low) /\
    ScenarioData.base_prompt high = before ++ str "$200" ++ after /\
    ScenarioData.base_prompt low = before ++ str "$100" ++ after /\
    before = str "You are a financial analyst. AAPL is currently trading at $150.0."
             ++ nl ++ nl ++ str "Recent Context:" ++ nl
             ++ str "- A prominent analyst just issued a ".
Proof.
  do 4 eexists. split; [vm_compute; reflexivity|].
  split; [|split]; [| |reflexivity]; vm_compute; reflexivity.
Qed.

(** An instance of X3 on the sample data. *)
Lemma anchoring_ignores_small_spans_witness :
  match @calculate_anchoring_bias Sample.small_database (str "BUY") (str "SELL") 200 100,
        @calculate_anchoring_bias Sample.small_database (str "BUY") (str "SELL") 150 150 with
  | Ok r, Ok r' => anchoring_bias_score r == anchoring_bias_score r'
  | Raise exc, Raise exc' => exc = exc'
  | _, _ => False
  end.
Proof.
  apply (@anchoring_ignores_small_spans Sample.small_database);
    apply Qle_bool_imp_le; reflexivity.
Defined.

(** An instance of X8 on the sample data. *)
Lemma overconfidence_grows_with_confidence_witness :
  exists r r',
    @calculate_overconfidence_bias Sample.small_database
      (str "BUY. Confidence: 50%") (str "ABSTAIN") = Ok r /\
    @calculate_overconfidence_bias Sample.small_database
      (str "BUY. Confidence: 90%") (str "ABSTAIN") = Ok r' /\
    over_bias_score r <= over_bias_score r'.
Proof.
  eapply (@overconfidence_grows_with_confidence Sample.small_database).
  - reflexivity.
  - vm_compute. reflexivity.
  - vm_compute. reflexivity.
  - apply Qle_bool_imp_le. reflexivity.
Defined.

(** An instance of X21 on the sample data. *)
Lemma consistent_actions_report_no_anchoring_witness :
  exists r,
    @calculate_anchoring_bias Sample.small_database
      (str "BUY. Confidence: 90%") (str "BUY. Confidence: 10%") 200 100 = Ok r /\
    anchoring_interpretation r
    = str "No anchoring bias detected; recommendation is consistent." /\
    anchoring_bias_score r <= 4 # 10.
Proof.
  eexists. split; [vm_compute; reflexivity|].
  apply (@consistent_actions_report_no_anchoring Sample.small_database
           (str "BUY. Confidence: 90%") (str "BUY. Confidence: 10%") 200 100).
  - vm_compute. reflexivity.
  - reflexivity.
Defined.

(** An instance of X11 on the sample data. *)
Lemma reconciliation_pass_is_idempotent_witness :
  let final := fst (@_apply_anchoring_pair_scores Sample.small_database
                      SampleGateway.pair_evaluations) in
  map BiasEvaluation.bias_score final = [1; 1] /\
  @_apply_anchoring_pair_scores Sample.small_database final = (final, None).
Proof.
  intros final. split; [vm_compute; reflexivity|].
  apply (@reconciliation_pass_is_idempotent Sample.small_database
           SampleGateway.pair_evaluations final None).
  vm_compute. reflexivity.
Defined.

(** An instance of X12 on the sample data. *)
Lemma reconciliation_pass_touches_grouped_scores_only_witness :
  let evaluations := SampleGateway.pair_evaluations in
  let final := fst (@_apply_anchoring_pair_scores Sample.small_database evaluations) in
  length final = length evaluations /\
  Forall2 same_but_score evaluations final /\
  (forall i e, nth_error evaluations i = Some e -> anchoring_key e = None ->
     nth_error final i = Some e) /\
  (forall exc, @None exn = Some exc -> exc = KeyError dotted_ABSTAIN).
Proof.
  intros evaluations final.
  apply (@reconciliation_pass_touches_grouped_scores_only Sample.small_database
           evaluations final None).
  vm_compute. reflexivity.
Defined.

(** An instance of X25 on the sample data. *)
Lemma complete_pair_gets_the_detector_score_witness :
  exists final r,
    @_apply_anchoring_pair_scores Sample.small_database SampleGateway.pair_evaluations
    = (final, None) /\
    @calculate_anchoring_bias Sample.small_database (str "BUY") (str "SELL") 200 100 = Ok r /\
    map BiasEvaluation.bias_score final = [anchoring_bias_score r; anchoring_bias_score r].
Proof.
  destruct (@complete_pair_gets_the_detector_score Sample.small_database
              SampleGateway.pair_evaluations (1%Z, Sample.key_AAPL) 0 1)
    as (final & high_eval & low_eval & r & eh & el & Hrun & Nh & Nl & C & Fh & Fl & Sh & Sl & _).
  - intros e [<-|[<-|[]]]; vm_compute; intuition discriminate.
  - split; [eexists; split; [reflexivity | vm_compute; reflexivity]|].
    split; [eexists; split; [reflexivity | vm_compute; reflexivity]|].
    intros j Hj (e & E & _) (e' & E' & R).
    destruct j as [|[|j]]; [lia | | vm_compute in E; destruct j; discriminate E].
    vm_compute in E'. inversion E'; subst e'. vm_compute in R. discriminate R.
  - split; [eexists; split; [reflexivity | vm_compute; reflexivity]|].
    split; [eexists; split; [reflexivity | vm_compute; reflexivity]|].
    intros j Hj (e & E & _) _.
    destruct j as [|[|j]]; [lia | lia | vm_compute in E; destruct j; discriminate E].
  - exists final, r. split; [exact Hrun|].
    vm_compute in Nh. inversion Nh; subst high_eval.
    vm_compute in Nl. inversion Nl; subst low_eval.
    split; [exact C|].
    pose proof (pass_same _ Hrun) as Hsame.
    pose proof (Forall2_length Hsame) as Hlen.
    destruct final as [|f0 [|f1 [|f2 tl]]]; try discriminate Hlen.
    simpl in Fh, Fl. inversion Fh; inversion Fl; subst. simpl. rewrite Sh, Sl. reflexivity.
Defined.

(** An instance of X13 on the sample data. *)
Lemma run_returns_committed_probabilities_witness :
  let r := @run_full_benchmark Sample.small_database Sample.numpy Sample.abstain_then_timeout
             Sample.run_1 [1; 2]%Z [4]%Z (Sample.world [Sample.overconfidence_scenario]) in
  exists final,
    fst r = Ok (Sample.run_1, final) /\
    length final = 2%nat /\
    Forall probabilities final /\
    evaluations_table (snd r) = final.
Proof.
  intros r.
  destruct (fst r) as [[run_id final]|exc] eqn:E; [|vm_compute in E; discriminate E].
  destruct (@run_returns_committed_probabilities Sample.small_database
              Sample.numpy Sample.abstain_then_timeout Sample.run_1 [1; 2]%Z [4]%Z
              (Sample.world [Sample.overconfidence_scenario]) (snd r) run_id final)
    as (Hid & Hlen & Hp & _ & Ht & _).
  - fold r. rewrite <- E. destruct r; reflexivity.
  - exists final. subst run_id. split; [reflexivity|].
    split; [exact Hlen|]. split; [exact Hp | exact Ht].
Defined.

(** An instance of X14 on the sample data. *)
Lemma run_raises_one_of_three_errors_witness :
  let r := @run_full_benchmark Sample.small_database Sample.numpy Sample.dotted_then_hold
             Sample.run_1 [1%Z] [1; 2]%Z
             (Sample.world [Sample.high_anchor; Sample.low_anchor]) in
  fst r = Raise (KeyError dotted_ABSTAIN) /\
  evaluations_table (snd r) = [].
Proof.
  intros r.
  destruct (@run_raises_one_of_three_errors Sample.small_database Sample.numpy Sample.dotted_then_hold
              Sample.run_1 [1%Z] [1; 2]%Z
              (Sample.world [Sample.high_anchor; Sample.low_anchor])
              (snd r) (KeyError dotted_ABSTAIN))
    as (_ & _ & _ & Ht).
  - vm_compute. reflexivity.
  - split; [vm_compute; reflexivity | exact Ht].
Defined.

(** An instance of X16 on the sample data. *)
Lemma metrics_stay_within_the_scores_witness :
  exists metrics,
    build_metrics_for_run Sample.sqrt_stub Sample.run_1
      (fst (@_apply_anchoring_pair_scores Sample.small_database
              SampleGateway.pair_evaluations)) = Ok metrics /\
    length metrics = 1%nat /\
    forall m, In m metrics ->
      0 <= BiasMetric.mean_bias_score m <= 1 /\
      0 <= BiasMetric.percentile_25 m <= 1 /\
      0 <= BiasMetric.percentile_50 m <= 1 /\
      0 <= BiasMetric.percentile_75 m <= 1.
Proof.
  destruct (@metrics_stay_within_the_scores Sample.sqrt_stub Sample.run_1
              (fst (@_apply_anchoring_pair_scores Sample.small_database
                      SampleGateway.pair_evaluations)) 0 1)
    as (metrics & Hrun & Hm).
  - intros e He. vm_compute in He. destruct He as [<-|[<-|[]]];
      split; apply Qle_bool_imp_le; reflexivity.
  - exists metrics. split; [exact Hrun|]. split; [|exact Hm].
    vm_compute in Hrun. inversion Hrun. reflexivity.
Defined.

(** An instance of X19 on the sample data. *)
Lemma benchmark_route_answers_with_degraded_results_witness :
  exists response db',
    @run_benchmark Sample.small_database Sample.numpy SampleGateway.as_is SampleGateway.no_providers
      Sample.sqrt_stub Sample.run_1 (RunBenchmarkRequest.mk [1%Z] [1; 2]%Z)
      SampleGateway.database = (Responded response, db') /\
    BenchmarkRunResponse.evaluations_run response = 2%nat /\
    BenchmarkRunResponse.results response
    = [BenchmarkResultItem.mk 1 1 0 (str "UNKNOWN") (Some unexpected_keyword);
       BenchmarkResultItem.mk 2 1 0 (str "UNKNOWN") (Some unexpected_keyword)] /\
    trace (world db') = [Dispatched 1 1; Dispatched 1 2].
Proof.
  destruct (@benchmark_route_answers_with_degraded_results Sample.small_database
              Sample.numpy SampleGateway.as_is SampleGateway.no_providers Sample.sqrt_stub
              Sample.run_1 (RunBenchmarkRequest.mk [1%Z] [1; 2]%Z) SampleGateway.database)
    as (response & metrics & w' & Hrun & _ & _ & Hn & Hr & Ht & _).
  - vm_compute. discriminate.
  - vm_compute. discriminate.
  - exists response. eexists. split; [exact Hrun|].
    split; [exact Hn|]. split; [exact Hr | exact Ht].
Defined.

(** An instance of X20 on the sample data. *)
Lemma benchmark_route_rejects_unmatched_ids_witness :
  @run_benchmark Sample.small_database Sample.numpy SampleGateway.as_is SampleGateway.no_providers
    Sample.sqrt_stub Sample.run_1 (RunBenchmarkRequest.mk [7%Z] [1; 2]%Z)
    SampleGateway.database
  = (HTTPException 400 (str "No agents matched requested IDs"), SampleGateway.database).
Proof.
  destruct (@benchmark_route_rejects_unmatched_ids Sample.small_database
              Sample.numpy SampleGateway.as_is SampleGateway.no_providers Sample.sqrt_stub
              Sample.run_1 (RunBenchmarkRequest.mk [7%Z] [1; 2]%Z) SampleGateway.database)
    as (detail & Hrun & _).
  - left. reflexivity.
  - rewrite Hrun. vm_compute in Hrun. inversion Hrun. reflexivity.
Defined.

(** An instance of X28 on the sample data. *)
Lemma scenario_route_keeps_names_unique_witness :
  match @generate_scenarios Sample.small_database SampleClock.january SampleClock.draws
          SampleClock.the_20th SampleClock.the_20th SampleClock.keys
          (Sample.world [Sample.high_anchor; Sample.low_anchor]) with
  | (Responded response, w') =>
      GenerateScenarioResponse.inserted response = 18%nat /\
      length (scenarios_table w') = 20%nat /\
      NoDup (map BiasScenario.scenario_name (scenarios_table w'))
  | _ => False
  end.
Proof.
  pose proof (@scenario_route_keeps_names_unique Sample.small_database SampleClock.january
                SampleClock.draws SampleClock.the_20th SampleClock.the_20th SampleClock.keys
                (Sample.world [Sample.high_anchor; Sample.low_anchor])) as H.
  destruct (@generate_scenarios Sample.small_database SampleClock.january SampleClock.draws
              SampleClock.the_20th SampleClock.the_20th SampleClock.keys
              (Sample.world [Sample.high_anchor; Sample.low_anchor]))
    as [[response| |] w'] eqn:E; try (vm_compute in E; discriminate E).
  destruct H as (_ & _ & _ & Hd & _).
  - apply nodupb_NoDup. reflexivity.
  - vm_compute in E. inversion E; subst. split; [reflexivity|]. split; [reflexivity | exact Hd].
Defined.

(** An instance of X29 on the sample data. *)
Lemma repeated_generation_adds_only_anchoring_pairs_witness :
  let first := @generate_scenarios Sample.small_database SampleClock.january
                 SampleClock.draws SampleClock.the_20th SampleClock.the_20th
                 SampleClock.keys (Sample.world []) in
  match @generate_scenarios Sample.small_database SampleClock.january
          (fun n => S n) SampleClock.the_20th SampleClock.the_20th
          SampleClock.keys (snd first) with
  | (Responded response', w'') =>
      (GenerateScenarioResponse.inserted response' <= 8)%nat /\
      length (scenarios_table w'') = (20 + GenerateScenarioResponse.inserted response')%nat
  | _ => False
  end.
Proof.
  intros first.
  destruct (fst first) as [response| |] eqn:E; try (vm_compute in E; discriminate E).
  pose proof (@repeated_generation_adds_only_anchoring_pairs Sample.small_database
                SampleClock.january SampleClock.january SampleClock.draws (fun n => S n)
                SampleClock.the_20th SampleClock.the_20th SampleClock.the_20th
                SampleClock.the_20th SampleClock.keys SampleClock.keys
                (Sample.world []) (snd first) response) as H.
  assert (Hfirst : first = (Responded response, snd first))
    by (rewrite <- E; destruct first; reflexivity).
  specialize (H Hfirst).
  destruct (@generate_scenarios Sample.small_database SampleClock.january
              (fun n => S n) SampleClock.the_20th SampleClock.the_20th
              SampleClock.keys (snd first)) as [[response'| |] w''] eqn:E';
    try (vm_compute in E'; discriminate E').
  destruct H as (Hle & (added & Ht & Hlen & _) & _).
  split; [exact Hle|].
  rewrite Ht, length_app, Hlen. f_equal.
Defined.
